(** * LoadCSV: the delimiter-separated text loader of mlpack

    A shallow embedding of [src/mlpack/core/data/load_csv.hpp]: the class
    [LoadCSV] with its constructor, [Load], the two dimension-discovery
    passes [GetMatrixSize] and [GetTransposeMatrixSize], and the two
    population passes [NonTransposeParse] and [TransposeParse].

    Conventions.
    - [size_t] values are integers in [Z]; every increment and decrement is
      reduced modulo [2^64] by [wrap].
    - A [std::string] is a [string]; [operator[]] is [str_at], which is
      defined up to and including position [size()] and undefined beyond.
    - A [std::stringstream] is the text not yet extracted together with its
      [eofbit] and [failbit]; [std::getline] is [getline].
    - The opened file is the list of its lines, in the order in which the
      loop [while (std::getline(inFile, line))] yields them; [file_lines]
      computes that list from the bytes of a file with the same [getline].
    - The matrix, the mapper and the log of calls made on them are threaded
      through every function as a [world]; an exception, an undefined
      operation and an exhausted iteration budget end the run and keep the
      world reached so far.
    - The loops over the lines of the file are recursions on the list of
      lines.  The token loop of a line and the loop that joins the pieces of
      a quoted field take an iteration budget, [fuel]: a run that exhausts
      it under every budget is a run that does not end. *)

From Stdlib Require Import ZArith List String Ascii Bool Lia.
Import ListNotations.

Local Open Scope string_scope.
Local Open Scope list_scope.
Local Open Scope Z_scope.

(** ** Characters and [size_t] *)

Module Chars.
(** The quote character, code 34. *)
Definition dquote : ascii := Ascii false true false false false true false false.
(** The comma, code 44. *)
Definition comma : ascii := Ascii false false true true false true false false.
(** The horizontal tab, code 9. *)
Definition tab : ascii := Ascii true false false true false false false false.
(** The space, code 32. *)
Definition space : ascii := Ascii false false false false false true false false.
(** The line feed, code 10. *)
Definition newline : ascii := Ascii false true false true false false false false.
(** The character [charT()] that [operator[]] yields at position [size()]. *)
Definition nul : ascii := Ascii.zero.
End Chars.
Import Chars.

Module SizeT.
Definition modulus : Z := 2 ^ 64.
(** Arithmetic on [size_t] is modulo [2^64]. *)
Definition wrap (z : Z) : Z := z mod modulus.
Definition incr (z : Z) : Z := wrap (z + 1).
Definition decr (z : Z) : Z := wrap (z - 1).
End SizeT.
Import SizeT.

(** ** [std::string] *)

Definition size (s : string) : Z := Z.of_nat (String.length s).

(** [s[pos]]: the character at [pos] when [pos < size()], the null character
    when [pos = size()], and no defined result beyond that. *)
Definition str_at (s : string) (pos : Z) : option ascii :=
  if pos <? size s then String.get (Z.to_nat pos) s
  else if pos =? size s then Some nul
  else None.

(** [tok += delim]. *)
Definition push_back (s : string) (c : ascii) : string :=
  (s ++ String c EmptyString)%string.

(** ** [std::stringstream] and [std::getline] *)

Record stringstream : Type := mkStream {
  buf : string;       (* characters not yet extracted *)
  eofbit : bool;
  failbit : bool
}.

(** [line_stream.clear(); line_stream.str(line);] *)
Definition str (line : string) : stringstream :=
  {| buf := line; eofbit := false; failbit := false |}.

Definition good (ss : stringstream) : bool := negb (eofbit ss) && negb (failbit ss).

(** Characters up to the first [delim]; the text after that [delim], or
    [None] when the end of the buffer was reached first. *)
Fixpoint extract (delim : ascii) (s : string) : string * option string :=
  match s with
  | EmptyString => (EmptyString, None)
  | String c s' =>
      if Ascii.eqb c delim then (EmptyString, Some s')
      else let (t, r) := extract delim s' in (String c t, r)
  end.

(** [std::getline(ss, token, delim)].  On a stream that is not good the
    sentry fails: [failbit] is set and [token] keeps its value.  Otherwise
    [token] is erased and filled up to the delimiter, which is extracted and
    dropped; reaching the end sets [eofbit], and [failbit] too when nothing
    at all was extracted. *)
Definition getline (ss : stringstream) (token : string) (delim : ascii)
  : stringstream * string :=
  if good ss then
    match extract delim (buf ss) with
    | (t, Some rest) => ({| buf := rest; eofbit := false; failbit := false |}, t)
    | (t, None) =>
        ({| buf := EmptyString; eofbit := true; failbit := String.eqb t EmptyString |}, t)
    end
  else ({| buf := buf ss; eofbit := eofbit ss; failbit := true |}, token).

(** The lines that [while (std::getline(inFile, line))] yields on a file
    with the given bytes: the loop runs while [failbit] is clear. *)
Fixpoint read_lines (n : nat) (f : stringstream) (line : string) : list string :=
  match n with
  | O => []
  | S n' =>
      let (f', line') := getline f line newline in
      if failbit f' then [] else line' :: read_lines n' f' line'
  end.

Definition file_lines (bytes : string) : list string :=
  read_lines (S (String.length bytes)) (str bytes) EmptyString.

(** ** Results of a run *)

Inductive exception : Type :=
  (** [CheckOpen]: std::runtime_error, cannot open the file. *)
| CannotOpen (filename : string)
  (** std::invalid_argument: given DatasetInfo has dimensionality [given],
      but data has dimensionality [found]. *)
| DimensionalityMismatch (given found : Z)
  (** [NonTransposeParse]: wrong number of dimensions ([got]) on line
      [line]; should be [should] dimensions. *)
| NonTransposeWrongDimensions (got line should : Z)
  (** [TransposeParse]: wrong number of dimensions ([got]) on line [line];
      should be [should] dimensions. *)
| TransposeWrongDimensions (got line should : Z)
  (** The bounds check of the matrix element access. *)
| IndexOutOfBounds (row col : Z)
  (** An exception raised by the mapping policy in [MapString]. *)
| PolicyRejected (token : string) (pos : Z).

Inductive undefined : Type :=
  (** [s[pos]] with [pos > s.size()]. *)
| StringIndexPastEnd (s : string) (pos : Z)
  (** An element access outside the matrix with the bounds check compiled out. *)
| UncheckedWriteOutside (row col : Z)
  (** The member [delim] read although the constructor left it unassigned. *)
| DelimNotAssigned.

(** How a run ends: it returns, it throws one of the exceptions above, it
    performs an access whose behaviour the language leaves undefined, or it
    is still running when the fuel is spent.  Strings are taken without a
    bound on their size: a run that is [OutOfFuel] with every fuel is a
    loop that does not end by itself, where the program goes on appending
    to a string until its allocation fails with an exception of the
    standard library, which is not among those of [exception]. *)
Inductive outcome (A : Type) : Type :=
| Ok (a : A)
| Throw (e : exception)
| Undefined (u : undefined)
| OutOfFuel.
Arguments Ok {A} a.
Arguments Throw {A} e.
Arguments Undefined {A} u.
Arguments OutOfFuel {A}.

(** ** The tokenizer

    The statements between [std::getline(line_stream, token, delim)] and
    the use of [token] are the same in [GetMatrixSize] (lines 239-272),
    [GetTransposeMatrixSize] (352-386), [NonTransposeParse] (459-493) and
    [TransposeParse] (565-600); they are modelled once. *)

(** The condition [token[0] == quote && token[token.size() - 1] != quote],
    with the positions it reads, in order.  The right operand is evaluated
    only when the left one holds. *)
Definition opens_quote (token : string) : list Z * option bool :=
  match str_at token 0 with
  | None => ([0], None)
  | Some c0 =>
      if Ascii.eqb c0 dquote then
        let last := decr (size token) in
        match str_at token last with
        | None => ([0; last], None)
        | Some c => ([0; last], Some (negb (Ascii.eqb c dquote)))
        end
      else ([0], Some false)
  end.

(** The condition [token[token.size() - 1] != quote] of the joining loop. *)
Definition not_closed (token : string) : option bool :=
  match str_at token (decr (size token)) with
  | None => None
  | Some c => Some (negb (Ascii.eqb c dquote))
  end.

(** The joining loop
    [while (token[token.size() - 1] != quote)
       { tok += delim; std::getline(line_stream, token, delim); tok += token; }]
    with one unit of [fuel] per iteration. *)
Fixpoint join_quoted (fuel : nat) (delim : ascii) (ls : stringstream)
    (token tok : string) : outcome (stringstream * string) :=
  match not_closed token with
  | None => Undefined (StringIndexPastEnd token (decr (size token)))
  | Some false => Ok (ls, tok)
  | Some true =>
      match fuel with
      | O => OutOfFuel
      | S fuel' =>
          let tok1 := push_back tok delim in
          let (ls', token') := getline ls token delim in
          join_quoted fuel' delim ls' token' (tok1 ++ token')%string
      end
  end.

(** ** The collaborators *)

(** Modelled from the spec: dataset_mapper.hpp is missing.
    [DatasetMapper<PolicyType>] is taken through the interface the loader
    consumes: the static flag [NeedsFirstPass], the property
    [Dimensionality] with its setter, the preliminary hook [MapFirstPass],
    whose result the loader ignores, and the final hook [MapString], whose
    result is written into the matrix; [MapString] may reject a token by
    throwing, which is [None] here.  [M] is the state of the mapper and [T]
    the element type of the matrix. *)
Class MapPolicy (T M : Type) : Type := {
  NeedsFirstPass : bool;
  Dimensionality : M -> Z;
  SetDimensionality : Z -> M -> M;
  MapFirstPass : string -> Z -> M -> M;
  MapString : string -> Z -> M -> option T * M
}.

(** The matrix [arma::Mat<T>]: its two sizes and the element held at each
    position. *)
Record Mat (T : Type) : Type := mkMat {
  n_rows : Z;
  n_cols : Z;
  elem : Z -> Z -> T
}.
Arguments mkMat {T} _ _ _.
Arguments n_rows {T} _.
Arguments n_cols {T} _.
Arguments elem {T} _ _ _.

(** What a run did to its collaborators, in order. *)
Inductive event : Type :=
| FirstPassCall (token : string) (pos : Z)
| MapStringCall (token : string) (pos : Z)
| Assign (row col : Z)
| SetSize (rows cols : Z).

Record world (T M : Type) : Type := mkWorld {
  inout : Mat T;
  info : M;
  events : list event
}.
Arguments mkWorld {T M} _ _ _.
Arguments inout {T M} _.
Arguments info {T M} _.
Arguments events {T M} _.

(** The object: the members of the class.  [delim] is [None] as long as no
    constructor branch has assigned it, [inFile] is [None] when the stream
    is not open and the lines of the file otherwise. *)
Record LoadCSV : Type := mkLoadCSV {
  delim : option ascii;
  extension : string;
  filename : string;
  inFile : option (list string)
}.

(** ** Concrete collaborators used to run the model *)

Definition is_space (c : ascii) : bool :=
  let n := nat_of_ascii c in
  (Nat.eqb n 32 || (Nat.leb 9 n && Nat.leb n 13))%bool.

Fixpoint drop_leading (s : string) : string :=
  match s with
  | EmptyString => EmptyString
  | String c s' => if is_space c then drop_leading s' else s
  end.

Fixpoint drop_trailing (s : string) : string :=
  match s with
  | EmptyString => EmptyString
  | String c s' =>
      match drop_trailing s' with
      | EmptyString => if is_space c then EmptyString else String c EmptyString
      | r => String c r
      end
  end.

(** Modelled from the spec: [trim] of string_algorithms.hpp is missing; the
    spec has a token undergo leading and trailing whitespace trimming. *)
Definition trim_ws (s : string) : string := drop_trailing (drop_leading s).

Fixpoint after_last_dot (s : string) (acc : option string) : option string :=
  match s with
  | EmptyString => acc
  | String c s' =>
      if Ascii.eqb c "."%char then after_last_dot s' (Some s')
      else after_last_dot s' acc
  end.

(** Modelled from the spec: [Extension] of extension.hpp is missing; the
    declared kind of a file is its extension, the text after the last dot
    of its name. *)
Definition Extension_of (file : string) : string :=
  match after_last_dot file None with
  | Some e => e
  | None => EmptyString
  end.

(** The pieces of a line between delimiters. *)
Fixpoint split_on (n : nat) (d : ascii) (s : string) : list string :=
  match n with
  | O => [s]
  | S n' =>
      match extract d s with
      | (t, None) => [t]
      | (t, Some rest) => t :: split_on n' d rest
      end
  end.

Definition first_is_quote (s : string) : bool :=
  match s with
  | String c _ => Ascii.eqb c dquote
  | EmptyString => false
  end.

Fixpoint last_is_quote (s : string) : bool :=
  match s with
  | EmptyString => false
  | String c EmptyString => Ascii.eqb c dquote
  | String _ s' => last_is_quote s'
  end.

(** The number of fields among the pieces: a piece that, trimmed, begins
    with a quote and does not end with one takes the following pieces with
    it, up to one that ends with a quote or to the end of the line.
    [open] tells whether such a field is being continued. *)
Fixpoint count_fields (open : bool) (pieces : list string) : Z :=
  match pieces with
  | [] => 0
  | p :: rest =>
      if open then
        if last_is_quote p then count_fields false rest else count_fields true rest
      else
        let t := trim_ws p in
        1 + (if (first_is_quote t && negb (last_is_quote t))%bool
             then count_fields true rest else count_fields false rest)
  end.

Definition field_count (d : ascii) (line : string) : Z :=
  count_fields false (split_on (String.length line) d line).

(** The first line that is not empty once trimmed. *)
Fixpoint first_data_line (file : list string) : option string :=
  match file with
  | [] => None
  | l :: rest =>
      if String.eqb (trim_ws l) EmptyString then first_data_line rest
      else Some (trim_ws l)
  end.

(** Modelled from the spec: [GetNonNumericMatSize] of load_csv_impl.hpp is
    missing.  The spec has discovery tokenize the first non-empty line to
    obtain the field count; the first component is the number of lines.
    The arguments are the stream, as all the lines of the file and those
    not yet read, and the delimiter; the read position is left as it is. *)
Definition first_line_size (file unread : list string) (d : ascii) : Z * Z :=
  (Z.of_nat (List.length file),
   match first_data_line file with
   | Some l => field_count d l
   | None => 0
   end).

(** A categorical policy to run the model with: the mapper keeps its
    dimensionality and the tokens seen so far; a token is mapped to its
    position among them.  It needs a first pass and rejects the empty
    token. *)
Record dictionary : Type := mkDict {
  dims : Z;
  seen : list string
}.

Fixpoint code_of (t : string) (l : list string) (k : Z) : option Z :=
  match l with
  | [] => None
  | x :: l' => if String.eqb x t then Some k else code_of t l' (k + 1)
  end.

Definition learn (t : string) (m : dictionary) : dictionary :=
  match code_of t (seen m) 0 with
  | Some _ => m
  | None => {| dims := dims m; seen := seen m ++ [t] |}
  end.

#[export] Instance categorical : MapPolicy Z dictionary := {
  NeedsFirstPass := true;
  Dimensionality := dims;
  SetDimensionality := fun d m => {| dims := d; seen := [] |};
  MapFirstPass := fun t _ m => learn t m;
  MapString := fun t _ m =>
    if String.eqb t EmptyString then (None, m)
    else (code_of t (seen (learn t m)) 0, learn t m)
}.

(** A policy without a first pass: every token is mapped to its length. *)
#[export] Instance lengths : MapPolicy Z Z := {
  NeedsFirstPass := false;
  Dimensionality := fun m => m;
  SetDimensionality := fun d _ => d;
  MapFirstPass := fun _ _ m => m;
  MapString := fun t _ m => (Some (size t), m)
}.

(** A matrix of no element, the world a load starts in with the mapper
    [i], and what [set_size] leaves in the elements. *)
Definition no_matrix : Mat Z := mkMat 0 0 (fun _ _ => 0).

Definition start {M : Type} (i : M) : world Z M := mkWorld no_matrix i [].

Definition residue : Mat Z -> Z -> Z -> Z -> Z -> Z := fun _ _ _ _ _ => -1.

(** [s] between two quote characters. *)
Definition quoted (s : string) : string :=
  (String dquote s ++ String dquote EmptyString)%string.

(** ** The loader *)

Section Loader.
Context {T M : Type} {policy : MapPolicy T M}.

(** [trim] of string_algorithms.hpp, [Extension] of extension.hpp and
    [GetNonNumericMatSize] of load_csv_impl.hpp are not part of the sources
    at hand; the loader is modelled for any such functions.
    [GetNonNumericMatSize] receives the stream, as all the lines of the file
    and those not yet read, and the delimiter, and leaves the read position
    where it was.  The three are taken as functions of their arguments:
    what is proved of the loader is proved of the runs in which they
    return, without an exception and without touching the matrix or the
    mapper. *)
Variable trim : string -> string.
Variable Extension : string -> string.
Variable GetNonNumericMatSize : list string -> list string -> ascii -> Z * Z.

(** [set_size] leaves the elements unspecified: [fresh old rows cols] is
    what the matrix holds after being resized from [old]. *)
Variable fresh : Mat T -> Z -> Z -> Z -> Z -> T.

(** Whether the element access checks its bounds (it does unless the check
    is compiled out). *)
Variable check_bounds : bool.

(** *** Runs: state of the collaborators and outcome *)

Definition prog (A : Type) : Type := world T M -> outcome A * world T M.

Definition ret {A : Type} (a : A) : prog A := fun w => (Ok a, w).

Definition throw {A : Type} (e : exception) : prog A := fun w => (Throw e, w).

Definition bind {A B : Type} (m : prog A) (k : A -> prog B) : prog B :=
  fun w =>
    match m w with
    | (Ok a, w') => k a w'
    | (Throw e, w') => (Throw e, w')
    | (Undefined u, w') => (Undefined u, w')
    | (OutOfFuel, w') => (OutOfFuel, w')
    end.

Notation "x <- m ;; k" := (bind m (fun x => k))
  (at level 61, m at next level, right associativity).
Notation "m ;;; k" := (bind m (fun _ => k))
  (at level 61, right associativity).

(** A pure step of the tokenizer inside a run. *)
Definition lift {A : Type} (o : outcome A) : prog A := fun w => (o, w).

Definition record_event (e : event) (w : world T M) : list event := events w ++ [e].

(** [info.template MapFirstPass<T>(std::move(token), pos)]. *)
Definition map_first_pass (token : string) (pos : Z) : prog unit :=
  fun w =>
    (Ok tt,
     {| inout := inout w;
        info := MapFirstPass token pos (info w);
        events := record_event (FirstPassCall token pos) w |}).

(** [infoSet.template MapString<T>(std::move(token), pos)]. *)
Definition map_string (token : string) (pos : Z) : prog T :=
  fun w =>
    let (r, i') := MapString token pos (info w) in
    let w' := {| inout := inout w; info := i';
                 events := record_event (MapStringCall token pos) w |} in
    match r with
    | Some v => (Ok v, w')
    | None => (Throw (PolicyRejected token pos), w')
    end.

(** [inout(row, col) = v].  The matrix keeps its elements by column:
    element [(row, col)] is the one at index [row + col * n_rows] of the
    [n_elem] elements allocated, [n_elem] being the product of the two sizes
    as a [uword].  With the bounds check, an access outside the sizes
    throws.  With the check compiled out the access is the plain one at
    that index: inside the allocation it stores into the element that lives
    there, which is another element of the matrix, and the run goes on;
    beyond the allocation it is undefined.  The index is taken exactly. *)
Definition assign (row col : Z) (v : T) : prog unit :=
  fun w =>
    let m := inout w in
    if ((row <? n_rows m) && (col <? n_cols m))%bool then
      (Ok tt,
       {| inout := {| n_rows := n_rows m; n_cols := n_cols m;
                      elem := fun r c =>
                        if ((r =? row) && (c =? col))%bool then v else elem m r c |};
          info := info w;
          events := record_event (Assign row col) w |})
    else if check_bounds then (Throw (IndexOutOfBounds row col), w)
    else
      let index := row + col * n_rows m in
      if ((0 <=? index) && (index <? wrap (n_rows m * n_cols m)))%bool then
        (Ok tt,
         {| inout := {| n_rows := n_rows m; n_cols := n_cols m;
                        elem := fun r c =>
                          if ((r =? index mod n_rows m)
                              && (c =? index / n_rows m))%bool
                          then v else elem m r c |};
            info := info w;
            events := record_event (Assign row col) w |})
      else (Undefined (UncheckedWriteOutside row col), w).

(** [inout.set_size(rows, cols)]. *)
Definition set_size (rows cols : Z) : prog unit :=
  fun w =>
    (Ok tt,
     {| inout := {| n_rows := rows; n_cols := cols;
                    elem := fresh (inout w) rows cols |};
        info := info w;
        events := record_event (SetSize rows cols) w |}).

(** *** The token loop *)

(** One round of the token loop up to the use of [token]: extraction,
    [trim(token)], the quote test and, when it holds, the joining loop
    followed by [token = tok]. *)
Definition next_token (fuel : nat) (d : ascii) (ls : stringstream)
    (token : string) : outcome (stringstream * string) :=
  let (ls1, token1) := getline ls token d in
  let token2 := trim token1 in
  match snd (opens_quote token2) with
  | None => Undefined (StringIndexPastEnd token2 (decr (size token2)))
  | Some true => join_quoted fuel d ls1 token2 token2
  | Some false => Ok (ls1, token2)
  end.

(** [while (line_stream.good()) { <next token>; <body>; }], where [body]
    uses the token and updates the counter [s] of its site.  [n] bounds the
    rounds of this loop and [fuel] those of each joining loop.  The value
    [token] has after [std::move] does not matter: on a good stream
    [getline] replaces it. *)
Fixpoint token_loop {S : Type} (fuel n : nat) (d : ascii)
    (body : string -> S -> prog S) (ls : stringstream) (token : string)
    (s : S) : prog S :=
  fun w =>
    if good ls then
      match n with
      | O => (OutOfFuel, w)
      | S n' =>
          match next_token fuel d ls token with
          | Ok (ls', token') =>
              bind (body token' s)
                   (fun s' => token_loop fuel n' d body ls' token' s') w
          | Throw e => (Throw e, w)
          | Undefined u => (Undefined u, w)
          | OutOfFuel => (OutOfFuel, w)
          end
      end
    else (Ok s, w).

(** The tokens one line hands on and the outcome that ends its loop. *)
Fixpoint tokens_of (fuel n : nat) (d : ascii) (ls : stringstream)
    (token : string) : list string * outcome unit :=
  if good ls then
    match n with
    | O => ([], OutOfFuel)
    | S n' =>
        match next_token fuel d ls token with
        | Ok (ls', token') =>
            let (ts, o) := tokens_of fuel n' d ls' token' in (token' :: ts, o)
        | Throw e => ([], Throw e)
        | Undefined u => ([], Undefined u)
        | OutOfFuel => ([], OutOfFuel)
        end
    end
  else ([], Ok tt).

(** The tokens of [line] as the four sites read them: a fresh stream on the
    line and a fresh, empty [token]. *)
Definition line_tokens (fuel : nat) (d : ascii) (line : string)
  : list string * outcome unit :=
  tokens_of fuel fuel d (str line) EmptyString.

(** *** The constructor and [CheckOpen] *)

(** [LoadCSV(const std::string& file)]: [open_file] is the file system, it
    gives the lines of a file that can be opened. *)
Definition LoadCSV_new (open_file : string -> option (list string))
    (file : string) : outcome LoadCSV :=
  let extension := Extension file in
  let delim :=
    if String.eqb extension "csv" then Some comma
    else if String.eqb extension "tsv" then Some tab
    else if String.eqb extension "txt" then Some space
    else None in
  let this := {| delim := delim; extension := extension;
                 filename := file; inFile := open_file file |} in
  match inFile this with
  | None => Throw (CannotOpen file)
  | Some _ => Ok this
  end.

(** *** Dimension discovery *)

(** Lines 170-173: [while (std::getline(inFile, line)) ++rows;] *)
Definition count_lines (file : list string) : Z :=
  fold_left (fun rows _ => incr rows) file 0.

(** Lines 176-187, and again 190-201: reset the mapper or compare. *)
Definition reset_info (rows : Z) : prog unit :=
  fun w =>
    if Dimensionality (info w) =? 0 then
      (Ok tt,
       {| inout := inout w; info := SetDimensionality rows (info w);
          events := events w |})
    else if negb (Dimensionality (info w) =? rows) then
      (Throw (DimensionalityMismatch (Dimensionality (info w)) rows), w)
    else (Ok tt, w).

(** Lines 208-277: the second loop of [GetMatrixSize]; [unread] are the
    lines the stream still holds. *)
Fixpoint GetMatrixSize_scan (fuel : nat) (d : ascii) (file unread : list string)
    (rows cols : Z) : prog (Z * Z) :=
  match unread with
  | [] => ret (rows, cols)
  | line :: unread' =>
      let line := trim line in
      let rows := incr rows in
      let cols :=
        if rows =? 1 then snd (GetNonNumericMatSize file unread' d) else cols in
      if NeedsFirstPass then
        if size line =? 0 then ret (rows, cols)
        else
          token_loop fuel fuel d
            (fun token _ => map_first_pass token (decr rows))
            (str line) EmptyString tt ;;;
          GetMatrixSize_scan fuel d file unread' rows cols
      else GetMatrixSize_scan fuel d file unread' rows cols
  end.

Definition GetMatrixSize (fuel : nat) (d : ascii) (file : list string)
  : prog (Z * Z) :=
  let rows := count_lines file in
  reset_info rows ;;;
  reset_info rows ;;;
  GetMatrixSize_scan fuel d file file 0 0.

(** Lines 307-391: the loop of [GetTransposeMatrixSize]. *)
Fixpoint GetTransposeMatrixSize_scan (fuel : nat) (d : ascii)
    (file unread : list string) (rows cols : Z) : prog (Z * Z) :=
  match unread with
  | [] => ret (rows, cols)
  | line :: unread' =>
      let cols := incr cols in
      let line := trim line in
      rows <- (if cols =? 1 then
                 let rows := snd (GetNonNumericMatSize file unread' d) in
                 reset_info rows ;;; ret rows
               else ret rows) ;;
      if NeedsFirstPass then
        if size line =? 0 then ret (rows, cols)
        else
          token_loop fuel fuel d
            (fun token dim => map_first_pass token dim ;;; ret (incr dim))
            (str line) EmptyString 0 ;;;
          GetTransposeMatrixSize_scan fuel d file unread' rows cols
      else GetTransposeMatrixSize_scan fuel d file unread' rows cols
  end.

Definition GetTransposeMatrixSize (fuel : nat) (d : ascii) (file : list string)
  : prog (Z * Z) :=
  GetTransposeMatrixSize_scan fuel d file file 0 0.

(** *** Population *)

(** Lines 435-520: the loop of [NonTransposeParse].  [col] is zero at the
    start of every line.  The right side of the assignment is evaluated
    before the element is accessed.  [canParse] is the constant [true], so
    the branch on it never throws. *)
Fixpoint NonTransposeParse_fill (fuel : nat) (d : ascii) (cols : Z)
    (unread : list string) (row : Z) : prog unit :=
  match unread with
  | [] => ret tt
  | line :: unread' =>
      let line := trim line in
      if size line =? 0 then ret tt
      else
        col <- token_loop fuel fuel d
                 (fun token col =>
                    v <- map_string token row ;;
                    assign row col v ;;;
                    ret (incr col))
                 (str line) EmptyString 0 ;;
        if negb (col =? cols) then throw (NonTransposeWrongDimensions col row cols)
        else NonTransposeParse_fill fuel d cols unread' (incr row)
  end.

Definition NonTransposeParse (fuel : nat) (d : ascii) (file : list string)
  : prog unit :=
  dimen <- GetMatrixSize fuel d file ;;
  set_size (fst dimen) (snd dimen) ;;;
  NonTransposeParse_fill fuel d (snd dimen) file 0.

(** Lines 546-629: the loop of [TransposeParse]; [row] restarts at zero on
    every line. *)
Fixpoint TransposeParse_fill (fuel : nat) (d : ascii) (rows : Z)
    (unread : list string) (col : Z) : prog unit :=
  match unread with
  | [] => ret tt
  | line :: unread' =>
      let line := trim line in
      if size line =? 0 then ret tt
      else
        row <- token_loop fuel fuel d
                 (fun token row =>
                    v <- map_string token row ;;
                    assign row col v ;;;
                    ret (incr row))
                 (str line) EmptyString 0 ;;
        if negb (row =? rows) then throw (TransposeWrongDimensions row col rows)
        else TransposeParse_fill fuel d rows unread' (incr col)
  end.

Definition TransposeParse (fuel : nat) (d : ascii) (file : list string)
  : prog unit :=
  dimen <- GetTransposeMatrixSize fuel d file ;;
  set_size (fst dimen) (snd dimen) ;;;
  TransposeParse_fill fuel d (fst dimen) file 0.

(** *** [Load] *)

(** [CheckOpen] throws when the stream is not open.  The member [delim] is
    first read when the first line has been read, as an argument of
    [GetNonNumericMatSize]: in [GetMatrixSize] (line 215) after the lines
    have been counted and the mapper reset or compared (lines 170-201), in
    [GetTransposeMatrixSize] (line 316) before anything is done with the
    mapper.  So an object whose [delim] was never assigned loads a file
    without lines, and on a file with a line the non-transposed load still
    counts and compares before it reads [delim]. *)
Definition Load (fuel : nat) (this : LoadCSV) (transpose : bool) : prog unit :=
  match inFile this with
  | None => throw (CannotOpen (filename this))
  | Some file =>
      let run d := if transpose then TransposeParse fuel d file
                   else NonTransposeParse fuel d file in
      match delim this, file with
      | Some d, _ => run d
      | None, [] => run nul
      | None, _ :: _ =>
          if transpose then lift (Undefined DelimNotAssigned)
          else
            reset_info (count_lines file) ;;;
            reset_info (count_lines file) ;;;
            lift (Undefined DelimNotAssigned)
      end
  end.

(** *** Vocabulary of the statements *)

(** A relation between the world before a run and the world it leaves,
    whatever the outcome. *)
Definition frames {A : Type} (m : prog A)
    (R : world T M -> world T M -> Prop) : Prop :=
  forall w, R w (snd (m w)).

Definition is_first_pass_call (e : event) : Prop :=
  match e with
  | FirstPassCall _ _ => True
  | _ => False
  end.

(** Dimension discovery leaves the matrix alone and only calls the
    preliminary hook. *)
Definition discovers (w w' : world T M) : Prop :=
  inout w' = inout w /\
  exists es, events w' = events w ++ es /\ Forall is_first_pass_call es.

(** The number of lines before the first one that is empty once trimmed. *)
Fixpoint first_empty (file : list string) : nat :=
  match file with
  | [] => O
  | l :: rest => if size (trim l) =? 0 then O else S (first_empty rest)
  end.

(** The number of lines the second loop of [GetMatrixSize] reads: all of
    them, or, with a first pass, those up to and including the first empty
    one. *)
Fixpoint lines_scanned (file : list string) : nat :=
  match file with
  | [] => O
  | l :: rest =>
      if (NeedsFirstPass && (size (trim l) =? 0))%bool then 1%nat
      else S (lines_scanned rest)
  end.

(** The rows of the cells assigned, one entry per assignment. *)
Fixpoint assigned_rows (es : list event) : list Z :=
  match es with
  | [] => []
  | Assign row _ :: es' => row :: assigned_rows es'
  | _ :: es' => assigned_rows es'
  end.

(** The number of distinct rows among the cells assigned. *)
Definition rows_written (es : list event) : Z :=
  Z.of_nat (List.length (nodup Z.eq_dec (assigned_rows es))).

(** The calls of the preliminary hook for the tokens [ts] of one line, the
    [k]-th of them at position [pos k]. *)
Fixpoint calls_of_line (pos : nat -> Z) (k : nat) (ts : list string) : list event :=
  match ts with
  | [] => []
  | t :: ts' => FirstPassCall t (pos k) :: calls_of_line pos (S k) ts'
  end.

(** The calls for the token lists of consecutive lines, the first of which
    is line [i]; [pos i k] is the position given to token [k] of line [i]. *)
Fixpoint calls_of_lines (pos : nat -> nat -> Z) (i : nat)
    (groups : list (list string)) : list event :=
  match groups with
  | [] => []
  | ts :: groups' => calls_of_line (pos i) O ts ++ calls_of_lines pos (S i) groups'
  end.

(** The token lists of the lines whose tokens discovery hands to the
    mapper when a first pass is needed: the lines before the first empty
    one, up to and including the first whose token loop does not end
    normally. *)
Fixpoint scan_groups (fuel : nat) (d : ascii) (unread : list string)
  : list (list string) :=
  match unread with
  | [] => []
  | line :: rest =>
      if size (trim line) =? 0 then []
      else
        fst (line_tokens fuel d (trim line)) ::
        match snd (line_tokens fuel d (trim line)) with
        | Ok _ => scan_groups fuel d rest
        | _ => []
        end
  end.

(** Two outcomes that end the same way, whatever value they carry. *)
Definition same_end {A B : Type} (o1 : outcome A) (o2 : outcome B) : Prop :=
  match o1, o2 with
  | Ok _, Ok _ => True
  | Throw e1, Throw e2 => e1 = e2
  | Undefined u1, Undefined u2 => u1 = u2
  | OutOfFuel, OutOfFuel => True
  | _, _ => False
  end.

(** Population touches the rows selected by [P] only: the sizes of the
    matrix stay, the elements of the other rows stay, the matrix is not
    resized, and every element assigned lies in a row selected by [P]. *)
Definition writes_rows (P : Z -> Prop) (w w' : world T M) : Prop :=
  n_rows (inout w') = n_rows (inout w) /\
  n_cols (inout w') = n_cols (inout w) /\
  (forall r c, ~ P r -> elem (inout w') r c = elem (inout w) r c) /\
  exists es, events w' = events w ++ es /\
             forall row col, In (Assign row col) es -> P row.

(** The outcome is the dimensionality-mismatch exception. *)
Definition is_mismatch {A : Type} (o : outcome A) : Prop :=
  match o with
  | Throw (DimensionalityMismatch _ _) => True
  | _ => False
  end.

Definition never_mismatch {A : Type} (m : prog A) : Prop :=
  forall w, ~ is_mismatch (fst (m w)).

(** Every exception a run can end with satisfies [P]. *)
Definition only_throws {A : Type} (P : exception -> Prop) (m : prog A) : Prop :=
  forall w e, fst (m w) = Throw e -> P e.


(** The exceptions of one token of population. *)
Definition store_error (e : exception) : Prop :=
  match e with
  | IndexOutOfBounds _ _ | PolicyRejected _ _ => True
  | _ => False
  end.

(** The exceptions of population. *)
Definition population_error (e : exception) : Prop :=
  match e with
  | IndexOutOfBounds _ _ | PolicyRejected _ _
  | NonTransposeWrongDimensions _ _ _ | TransposeWrongDimensions _ _ _ => True
  | _ => False
  end.

(** The dimensionality of the mapper is the same in both worlds. *)
Definition keeps_dimensionality (w w' : world T M) : Prop :=
  Dimensionality (info w') = Dimensionality (info w).

(** The laws of a mapper the statements on its dimensionality rely on:
    what was set is what is read, and the preliminary hook leaves it. *)
Definition lawful_mapper : Prop :=
  (forall d m, Dimensionality (SetDimensionality d m) = d) /\
  (forall t p m, Dimensionality (MapFirstPass t p m) = Dimensionality m).

(** The number of delimiters in a line. *)
Fixpoint occurrences (d : ascii) (s : string) : nat :=
  match s with
  | EmptyString => O
  | String c s' => if Ascii.eqb c d then S (occurrences d s') else occurrences d s'
  end.

(** The pieces of a line: the texts between its delimiters. *)
Definition pieces (d : ascii) (line : string) : list string :=
  split_on (String.length line) d line.

(** Pieces put together again, with the delimiter between them. *)
Fixpoint join_with (d : ascii) (ps : list string) : string :=
  match ps with
  | [] => EmptyString
  | [p] => p
  | p :: rest => (p ++ String d (join_with d rest))%string
  end.




(** Transposed population touches the columns selected by [P] only: the
    sizes of the matrix stay, the elements of the other columns stay, and
    every element assigned lies in a column selected by [P]. *)
Definition writes_cols (P : Z -> Prop) (w w' : world T M) : Prop :=
  n_rows (inout w') = n_rows (inout w) /\
  n_cols (inout w') = n_cols (inout w) /\
  (forall r c, ~ P c -> elem (inout w') r c = elem (inout w) r c) /\
  exists es, events w' = events w ++ es /\
             forall row col, In (Assign row col) es -> P col.

(** The lines population reads all have [width] fields: the token loop of
    every line before the first empty one ends normally after handing on
    [width] tokens. *)
Definition rectangular (fuel : nat) (d : ascii) (width : Z) (file : list string)
  : Prop :=
  Forall (fun l => snd (line_tokens fuel d (trim l)) = Ok tt /\
                   Z.of_nat (List.length (fst (line_tokens fuel d (trim l)))) = width)
         (firstn (first_empty file) file).

(** The width [GetNonNumericMatSize] finds at the first line, zero for a
    file without lines. *)
Definition first_line_width (d : ascii) (file : list string) : Z :=
  match file with
  | [] => 0
  | _ :: rest => snd (GetNonNumericMatSize file rest d)
  end.

(** Every undefined access a run can end in satisfies [P]. *)
Definition only_undefined {A : Type} (P : undefined -> Prop) (m : prog A) : Prop :=
  forall w u, fst (m w) = Undefined u -> P u.

(** What an undefined access that ends [Load] tells about the run. *)
Definition load_undefined (this : LoadCSV) (u : undefined) : Prop :=
  match u with
  | StringIndexPastEnd s pos => s = EmptyString /\ pos = modulus - 1
  | UncheckedWriteOutside _ _ => check_bounds = false
  | DelimNotAssigned =>
      delim this = None /\ exists l rest, inFile this = Some (l :: rest)
  end.

(** ** Properties *)

(** *** Arithmetic on [size_t] and strings *)

Lemma wrap_small (z : Z) : 0 <= z < modulus -> wrap z = z.
Proof. intro H. unfold wrap. apply Z.mod_small. exact H. Qed.

Lemma incr_small (z : Z) : 0 <= z -> z + 1 < modulus -> incr z = z + 1.
Proof. intros H0 H1. unfold incr. apply wrap_small. lia. Qed.

Lemma decr_small (z : Z) : 0 < z < modulus -> decr z = z - 1.
Proof. intro H. unfold decr. apply wrap_small. lia. Qed.

Lemma modulus_pos : 0 < modulus.
Proof. reflexivity. Qed.

Lemma incr_wrap (z : Z) : incr (wrap z) = wrap (z + 1).
Proof. unfold incr, wrap. apply Zplus_mod_idemp_l. Qed.

Lemma decr_incr_wrap (z : Z) : decr (incr (wrap z)) = wrap z.
Proof.
  rewrite incr_wrap. unfold decr, wrap.
  rewrite Zminus_mod_idemp_l. f_equal. lia.
Qed.

Lemma size_nonneg (s : string) : 0 <= size s.
Proof. unfold size. lia. Qed.

Lemma size_zero_empty (s : string) : size s = 0 -> s = EmptyString.
Proof.
  destruct s as [|c s']; [reflexivity|].
  unfold size. simpl String.length. lia.
Qed.

Lemma count_lines_from (file : list string) (a : Z) :
  0 <= a -> a + Z.of_nat (List.length file) < modulus ->
  fold_left (fun rows _ => incr rows) file a = a + Z.of_nat (List.length file).
Proof.
  revert a. induction file as [|l file IH]; intros a Ha Hb.
  - simpl. lia.
  - cbn [fold_left List.length] in *.
    rewrite incr_small by lia.
    rewrite IH by lia. lia.
Qed.

Lemma count_lines_length (file : list string) :
  Z.of_nat (List.length file) < modulus ->
  count_lines file = Z.of_nat (List.length file).
Proof.
  intro H. unfold count_lines. rewrite count_lines_from; lia.
Qed.

(** *** The quote test and the joining loop *)

Lemma get_in_range (s : string) (n : nat) :
  (n < String.length s)%nat -> exists c, String.get n s = Some c.
Proof.
  revert n. induction s as [|c s IH]; intros n Hn; simpl in Hn.
  - lia.
  - destruct n as [|n]; simpl.
    + eauto.
    + apply IH. lia.
Qed.

Lemma str_at_in_range (s : string) (pos : Z) :
  0 <= pos <= size s -> exists c, str_at s pos = Some c.
Proof.
  intros [H0 H1]. unfold str_at.
  destruct (pos <? size s) eqn:Hlt.
  - apply Z.ltb_lt in Hlt. apply get_in_range. unfold size in Hlt. lia.
  - destruct (pos =? size s) eqn:Heq; [eauto|].
    apply Z.ltb_ge in Hlt. apply Z.eqb_neq in Heq. lia.
Qed.

Lemma decr_size_in_range (s : string) :
  0 < size s -> 0 <= decr (size s) < size s.
Proof.
  intro H. unfold decr, wrap.
  pose proof (Z.mod_pos_bound (size s - 1) modulus modulus_pos) as Hb.
  pose proof (Z.mod_le (size s - 1) modulus) as Hle.
  pose proof modulus_pos. lia.
Qed.

Lemma opens_quote_empty : opens_quote EmptyString = ([0], Some false).
Proof. reflexivity. Qed.

(** The quote test reads no position beyond [size()] and always has a
    value. *)
Lemma opens_quote_defined (token : string) :
  Forall (fun pos => 0 <= pos <= size token) (fst (opens_quote token)) /\
  exists b, snd (opens_quote token) = Some b.
Proof.
  pose proof (size_nonneg token) as Hs.
  unfold opens_quote.
  destruct (str_at_in_range token 0 ltac:(lia)) as [c0 Hc0]. rewrite Hc0.
  destruct (Ascii.eqb c0 dquote) eqn:Hq.
  - assert (0 < size token) as Hpos.
    { destruct token as [|c t]; [|unfold size; simpl String.length; lia].
      cbv in Hc0. injection Hc0 as <-. discriminate Hq. }
    pose proof (decr_size_in_range token Hpos) as Hr.
    destruct (str_at_in_range token (decr (size token)) ltac:(lia)) as [c Hc].
    rewrite Hc. simpl. split; [|eauto].
    repeat constructor; lia.
  - simpl. split; [|eauto]. repeat constructor; lia.
Qed.

Lemma join_quoted_not_throw (fuel : nat) (d : ascii) (ls : stringstream)
    (token tok : string) (e : exception) :
  join_quoted fuel d ls token tok <> Throw e.
Proof.
  revert ls token tok. induction fuel as [|fuel IH]; intros ls token tok; simpl.
  - destruct (not_closed token) as [[|]|]; discriminate.
  - destruct (not_closed token) as [[|]|]; try discriminate.
    destruct (getline ls token d) as [ls' token']. apply IH.
Qed.

(** Once the stream is exhausted [getline] leaves [token] as it is, so a
    joining loop whose [token] does not end with a quote runs for ever. *)
Lemma join_quoted_exhausted (fuel : nat) (d : ascii) (ls : stringstream)
    (token tok : string) :
  good ls = false -> not_closed token = Some true ->
  join_quoted fuel d ls token tok = OutOfFuel.
Proof.
  revert ls tok. induction fuel as [|fuel IH]; intros ls tok Hg Hn; simpl.
  - rewrite Hn. reflexivity.
  - rewrite Hn. unfold getline. rewrite Hg.
    apply IH; [|exact Hn].
    unfold good in *. simpl. rewrite andb_false_r. reflexivity.
Qed.

Lemma next_token_not_throw (fuel : nat) (d : ascii) (ls : stringstream)
    (token : string) (e : exception) :
  next_token fuel d ls token <> Throw e.
Proof.
  unfold next_token. destruct (getline ls token d) as [ls1 token1].
  destruct (snd (opens_quote (trim token1))) as [[|]|]; try discriminate.
  apply join_quoted_not_throw.
Qed.

(** *** Frames *)

Lemma frames_ret {A : Type} (a : A) (R : world T M -> world T M -> Prop) :
  (forall w, R w w) -> frames (ret a) R.
Proof. intros Hr w. apply Hr. Qed.

Lemma frames_throw {A : Type} (e : exception) (R : world T M -> world T M -> Prop) :
  (forall w, R w w) -> frames (@throw A e) R.
Proof. intros Hr w. apply Hr. Qed.

Lemma frames_bind {A B : Type} (m : prog A) (k : A -> prog B)
    (R : world T M -> world T M -> Prop) :
  (forall w1 w2 w3, R w1 w2 -> R w2 w3 -> R w1 w3) ->
  frames m R -> (forall a, frames (k a) R) -> frames (bind m k) R.
Proof.
  intros Ht Hm Hk w. unfold bind.
  specialize (Hm w). destruct (m w) as [[a|e|u|] w']; simpl in *; try exact Hm.
  eapply Ht; [exact Hm|]. apply Hk.
Qed.

Lemma frames_token_loop {S : Type} (fuel n : nat) (d : ascii)
    (body : string -> S -> prog S) (R : world T M -> world T M -> Prop) :
  (forall w, R w w) ->
  (forall w1 w2 w3, R w1 w2 -> R w2 w3 -> R w1 w3) ->
  (forall t s, frames (body t s) R) ->
  forall ls token s, frames (token_loop fuel n d body ls token s) R.
Proof.
  intros Hr Ht Hb. induction n as [|n IH]; intros ls token s w; simpl.
  - destruct (good ls); apply Hr.
  - destruct (good ls); [|apply Hr].
    destruct (next_token fuel d ls token) as [[ls' token']|e|u|]; try apply Hr.
    apply (frames_bind _ _ R Ht (Hb token' s) (fun s' => IH ls' token' s')).
Qed.

Lemma discovers_refl (w : world T M) : discovers w w.
Proof.
  split; [reflexivity|]. exists []. rewrite app_nil_r. split; [reflexivity|constructor].
Qed.

Lemma discovers_trans (w1 w2 w3 : world T M) :
  discovers w1 w2 -> discovers w2 w3 -> discovers w1 w3.
Proof.
  intros [Hm1 [es1 [He1 Hf1]]] [Hm2 [es2 [He2 Hf2]]]. split.
  - congruence.
  - exists (es1 ++ es2). split.
    + rewrite He2, He1, app_assoc. reflexivity.
    + apply Forall_app. split; assumption.
Qed.

Lemma map_first_pass_discovers (token : string) (pos : Z) :
  frames (map_first_pass token pos) discovers.
Proof.
  intro w. split; [reflexivity|].
  exists [FirstPassCall token pos]. split; [reflexivity|].
  constructor; [exact I|constructor].
Qed.

Lemma reset_info_discovers (rows : Z) : frames (reset_info rows) discovers.
Proof.
  intro w. unfold reset_info.
  destruct (Dimensionality (info w) =? 0).
  - split; [reflexivity|]. exists []. simpl. rewrite app_nil_r.
    split; [reflexivity|constructor].
  - destruct (negb (Dimensionality (info w) =? rows)); apply discovers_refl.
Qed.

Ltac frame_step :=
  first
    [ apply frames_ret; exact discovers_refl
    | apply frames_throw; exact discovers_refl
    | apply map_first_pass_discovers
    | apply reset_info_discovers
    | apply frames_bind; [exact discovers_trans| |intro]
    | apply frames_token_loop; [exact discovers_refl|exact discovers_trans|intros] ].

Lemma GetMatrixSize_scan_discovers (fuel : nat) (d : ascii)
    (file unread : list string) (rows cols : Z) :
  frames (GetMatrixSize_scan fuel d file unread rows cols) discovers.
Proof.
  revert rows cols. induction unread as [|line unread IH]; intros rows cols; simpl.
  - frame_step.
  - destruct NeedsFirstPass; [|apply IH].
    destruct (size (trim line) =? 0); [frame_step|].
    repeat frame_step. apply IH.
Qed.

Lemma GetMatrixSize_discovers (fuel : nat) (d : ascii) (file : list string) :
  frames (GetMatrixSize fuel d file) discovers.
Proof.
  unfold GetMatrixSize. repeat frame_step. apply GetMatrixSize_scan_discovers.
Qed.

Lemma GetTransposeMatrixSize_scan_discovers (fuel : nat) (d : ascii)
    (file unread : list string) (rows cols : Z) :
  frames (GetTransposeMatrixSize_scan fuel d file unread rows cols) discovers.
Proof.
  revert rows cols. induction unread as [|line unread IH]; intros rows cols; simpl.
  - frame_step.
  - frame_step.
    + destruct (incr cols =? 1); repeat frame_step.
    + destruct NeedsFirstPass; [|apply IH].
      destruct (size (trim line) =? 0); [frame_step|].
      repeat frame_step. apply IH.
Qed.

Lemma GetTransposeMatrixSize_discovers (fuel : nat) (d : ascii) (file : list string) :
  frames (GetTransposeMatrixSize fuel d file) discovers.
Proof. apply GetTransposeMatrixSize_scan_discovers. Qed.

(** *** The exceptions of population *)

Lemma only_throws_bind {A B : Type} (P : exception -> Prop) (m : prog A)
    (k : A -> prog B) :
  only_throws P m -> (forall a, only_throws P (k a)) -> only_throws P (bind m k).
Proof.
  intros Hm Hk w e. unfold bind. specialize (Hm w).
  destruct (m w) as [[a|e'|u|] w']; simpl in *; try discriminate.
  - apply Hk.
  - intros [= <-]. apply Hm. reflexivity.
Qed.

Lemma only_throws_weaken {A : Type} (P Q : exception -> Prop) (m : prog A) :
  (forall e, P e -> Q e) -> only_throws P m -> only_throws Q m.
Proof. intros Hpq Hm w e He. apply Hpq, (Hm w e He). Qed.

Lemma only_throws_token_loop {S : Type} (P : exception -> Prop) (fuel n : nat)
    (d : ascii) (body : string -> S -> prog S) :
  (forall t s, only_throws P (body t s)) ->
  forall ls token s, only_throws P (token_loop fuel n d body ls token s).
Proof.
  intros Hb. induction n as [|n IH]; intros ls token s w e; simpl.
  - destruct (good ls); simpl; discriminate.
  - destruct (good ls); simpl; [|discriminate].
    pose proof (next_token_not_throw fuel d ls token) as Hnt.
    destruct (next_token fuel d ls token) as [[ls' token']|e'|u|]; simpl;
      try discriminate.
    + apply (only_throws_bind P _ _ (Hb token' s) (fun s' => IH ls' token' s')).
    + exfalso. apply (Hnt e'). reflexivity.
Qed.

(** One token of population throws through [MapString] or through the
    element access, and in no other way. *)
Lemma store_only_throws (token : string) (pos row col next : Z) :
  only_throws store_error
    (v <- map_string token pos ;; assign row col v ;;; ret next).
Proof.
  intros w e. unfold bind, map_string, assign, ret.
  destruct (MapString token pos (info w)) as [[v|] i']; simpl.
  - destruct ((row <? n_rows (inout w)) && (col <? n_cols (inout w)))%bool; simpl;
      [discriminate|].
    destruct check_bounds; simpl; [intros [= <-]; exact I|].
    destruct ((0 <=? row + col * n_rows (inout w))
              && (row + col * n_rows (inout w)
                  <? wrap (n_rows (inout w) * n_cols (inout w))))%bool;
      discriminate.
  - intros [= <-]. exact I.
Qed.

Lemma store_error_population (e : exception) : store_error e -> population_error e.
Proof. destruct e; simpl; auto. Qed.

Lemma NonTransposeParse_fill_only_throws (fuel : nat) (d : ascii) (cols : Z)
    (unread : list string) (row : Z) :
  only_throws population_error (NonTransposeParse_fill fuel d cols unread row).
Proof.
  revert row. induction unread as [|line unread IH]; intros row; simpl.
  - intros w e. discriminate.
  - destruct (size (trim line) =? 0); [intros w e; discriminate|].
    apply only_throws_bind.
    + apply only_throws_weaken with (P := store_error);
        [exact store_error_population|].
      apply only_throws_token_loop. intros t s. apply store_only_throws.
    + intros col. destruct (negb (col =? cols)); [|apply IH].
      intros w e [= <-]. exact I.
Qed.

Lemma TransposeParse_fill_only_throws (fuel : nat) (d : ascii) (rows : Z)
    (unread : list string) (col : Z) :
  only_throws population_error (TransposeParse_fill fuel d rows unread col).
Proof.
  revert col. induction unread as [|line unread IH]; intros col; simpl.
  - intros w e. discriminate.
  - destruct (size (trim line) =? 0); [intros w e; discriminate|].
    apply only_throws_bind.
    + apply only_throws_weaken with (P := store_error);
        [exact store_error_population|].
      apply only_throws_token_loop. intros t s. apply store_only_throws.
    + intros row. destruct (negb (row =? rows)); [|apply IH].
      intros w e [= <-]. exact I.
Qed.

Lemma population_never_mismatch {A : Type} (m : prog A) :
  only_throws population_error m -> never_mismatch m.
Proof.
  intros Hm w Hmis. specialize (Hm w).
  destruct (fst (m w)) as [a|e|u|]; try exact Hmis.
  destruct e; try exact Hmis.
  exact (Hm _ eq_refl).
Qed.

Lemma NonTransposeParse_fill_never_mismatch (fuel : nat) (d : ascii) (cols : Z)
    (unread : list string) (row : Z) :
  never_mismatch (NonTransposeParse_fill fuel d cols unread row).
Proof. apply population_never_mismatch, NonTransposeParse_fill_only_throws. Qed.

Lemma TransposeParse_fill_never_mismatch (fuel : nat) (d : ascii) (rows : Z)
    (unread : list string) (col : Z) :
  never_mismatch (TransposeParse_fill fuel d rows unread col).
Proof. apply population_never_mismatch, TransposeParse_fill_only_throws. Qed.

(** A mismatch that surfaces from [m ;; k] was thrown by [m] when [k]
    cannot throw one: the world is the one [m] left. *)
Lemma mismatch_from_first {A B : Type} (m : prog A) (k : A -> prog B)
    (R : world T M -> world T M -> Prop) (w : world T M) :
  frames m R -> (forall a, never_mismatch (k a)) ->
  is_mismatch (fst (bind m k w)) -> R w (snd (bind m k w)).
Proof.
  intros Hm Hk. unfold bind. specialize (Hm w).
  destruct (m w) as [[a|e|u|] w']; simpl in *; intros Hmis; try exact Hm.
  exfalso. exact (Hk a w' Hmis).
Qed.

Lemma set_size_then_never_mismatch {A : Type} (rows cols : Z) (k : prog A) :
  never_mismatch k -> never_mismatch (set_size rows cols ;;; k).
Proof.
  intros Hk w. unfold bind, set_size. simpl. apply Hk.
Qed.

(** *** The comparison of the dimensionality *)

Lemma reset_info_zero (rows : Z) (w : world T M) :
  Dimensionality (info w) = 0 ->
  reset_info rows w =
  (Ok tt, {| inout := inout w; info := SetDimensionality rows (info w);
             events := events w |}).
Proof. intro H. unfold reset_info. rewrite H. reflexivity. Qed.

Lemma reset_info_differs (rows : Z) (w : world T M) :
  Dimensionality (info w) <> 0 -> Dimensionality (info w) <> rows ->
  reset_info rows w =
  (Throw (DimensionalityMismatch (Dimensionality (info w)) rows), w).
Proof.
  intros H0 H1. unfold reset_info.
  apply Z.eqb_neq in H0, H1. rewrite H0, H1. reflexivity.
Qed.

Lemma reset_info_agrees (rows : Z) (w : world T M) :
  Dimensionality (info w) <> 0 -> Dimensionality (info w) = rows ->
  reset_info rows w = (Ok tt, w).
Proof.
  intros H0 H1. unfold reset_info.
  apply Z.eqb_neq in H0. rewrite H0.
  apply Z.eqb_eq in H1. rewrite H1. reflexivity.
Qed.

(** Non-transposed discovery compares before it reads the file again: a
    mapper whose dimensionality is neither zero nor the number of lines
    makes it throw, with both values, in the world it started from. *)
Lemma GetMatrixSize_mismatch (fuel : nat) (d : ascii) (file : list string)
    (w : world T M) :
  Dimensionality (info w) <> 0 ->
  Dimensionality (info w) <> count_lines file ->
  GetMatrixSize fuel d file w =
  (Throw (DimensionalityMismatch (Dimensionality (info w)) (count_lines file)), w).
Proof.
  intros H0 H1. unfold GetMatrixSize, bind.
  rewrite (reset_info_differs _ _ H0 H1). reflexivity.
Qed.

(** Transposed discovery compares when it has read the first line. *)
Lemma GetTransposeMatrixSize_mismatch (fuel : nat) (d : ascii)
    (line : string) (unread : list string) (w : world T M) :
  let found := snd (GetNonNumericMatSize (line :: unread) unread d) in
  Dimensionality (info w) <> 0 ->
  Dimensionality (info w) <> found ->
  GetTransposeMatrixSize fuel d (line :: unread) w =
  (Throw (DimensionalityMismatch (Dimensionality (info w)) found), w).
Proof.
  intros found H0 H1. subst found. unfold GetTransposeMatrixSize. simpl.
  unfold bind. rewrite (reset_info_differs _ _ H0 H1). reflexivity.
Qed.

(** C9.  When a load ends with the dimensionality-mismatch exception, the
    matrix of the caller is the one it passed in, in both orientations: the
    exception comes from dimension discovery, and up to that point the run
    has neither resized the matrix nor assigned an element; all it may have
    done is call the preliminary hook of the mapper. *)
Theorem load_mismatch_leaves_matrix (fuel : nat) (this : LoadCSV)
    (transpose : bool) (w : world T M) (given found : Z) :
  fst (Load fuel this transpose w) = Throw (DimensionalityMismatch given found) ->
  inout (snd (Load fuel this transpose w)) = inout w /\
  exists es, events (snd (Load fuel this transpose w)) = events w ++ es /\
             Forall is_first_pass_call es.
Proof.
  intro Hthrow.
  assert (is_mismatch (fst (Load fuel this transpose w))) as Hmis
    by (rewrite Hthrow; exact I).
  clear Hthrow. change (discovers w (snd (Load fuel this transpose w))).
  assert (forall d file,
             is_mismatch (fst ((if transpose then TransposeParse fuel d file
                                else NonTransposeParse fuel d file) w)) ->
             discovers w (snd ((if transpose then TransposeParse fuel d file
                                else NonTransposeParse fuel d file) w))) as Hrun.
  { intros d file. destruct transpose.
    - apply mismatch_from_first.
      + apply GetTransposeMatrixSize_discovers.
      + intros dimen. apply set_size_then_never_mismatch.
        apply TransposeParse_fill_never_mismatch.
    - apply mismatch_from_first.
      + apply GetMatrixSize_discovers.
      + intros dimen. apply set_size_then_never_mismatch.
        apply NonTransposeParse_fill_never_mismatch. }
  unfold Load in *.
  destruct (inFile this) as [file|]; [|destruct Hmis].
  destruct (delim this) as [d|].
  - apply Hrun. exact Hmis.
  - destruct file as [|l file]; [apply Hrun; exact Hmis|].
    destruct transpose; [destruct Hmis|]. clear Hmis Hrun.
    apply (frames_bind _ _ discovers discovers_trans (reset_info_discovers _)).
    intros _.
    apply (frames_bind _ _ discovers discovers_trans (reset_info_discovers _)).
    intros _ w0. apply discovers_refl.
Qed.

(** *** The calls of the preliminary hook *)

(** In [GetMatrixSize] every token of a line goes to the hook with the
    same position, [rows - 1]. *)
Lemma first_pass_loop_by_line (fuel n : nat) (d : ascii) (p : Z)
    (ls : stringstream) (token : string) (k : nat) (w : world T M) :
  let r := token_loop fuel n d (fun token _ => map_first_pass token p) ls token tt w in
  events (snd r) =
    events w ++ calls_of_line (fun _ => p) k (fst (tokens_of fuel n d ls token)) /\
  same_end (fst r) (snd (tokens_of fuel n d ls token)).
Proof.
  revert ls token k w. induction n as [|n IH]; intros ls token k w; simpl.
  - destruct (good ls); simpl; rewrite app_nil_r; auto.
  - destruct (good ls); simpl; [|rewrite app_nil_r; auto].
    destruct (next_token fuel d ls token) as [[ls' token']|e|u|]; simpl;
      try (rewrite app_nil_r; auto).
    unfold bind, map_first_pass at 1. simpl.
    match goal with
    | |- context [token_loop fuel n d ?b ls' token' tt ?w1] =>
        destruct (IH ls' token' (S k) w1) as [He Ho]
    end.
    destruct (tokens_of fuel n d ls' token') as [ts o]. simpl in *.
    rewrite He. unfold record_event. rewrite <- app_assoc. simpl. auto.
Qed.

(** In [GetTransposeMatrixSize] the position is the counter [dim], which
    starts at zero on every line and grows by one per token. *)
Lemma first_pass_loop_by_field (fuel n : nat) (d : ascii)
    (ls : stringstream) (token : string) (k : nat) (w : world T M) :
  let r := token_loop fuel n d
             (fun token dim => map_first_pass token dim ;;; ret (incr dim))
             ls token (wrap (Z.of_nat k)) w in
  events (snd r) =
    events w ++ calls_of_line (fun k => wrap (Z.of_nat k)) k
                  (fst (tokens_of fuel n d ls token)) /\
  same_end (fst r) (snd (tokens_of fuel n d ls token)).
Proof.
  revert ls token k w. induction n as [|n IH]; intros ls token k w; simpl.
  - destruct (good ls); simpl; rewrite app_nil_r; auto.
  - destruct (good ls); simpl; [|rewrite app_nil_r; auto].
    destruct (next_token fuel d ls token) as [[ls' token']|e|u|]; simpl;
      try (rewrite app_nil_r; auto).
    unfold bind at 1 2, map_first_pass at 1, ret at 1. simpl.
    rewrite incr_wrap.
    replace (Z.of_nat k + 1) with (Z.of_nat (S k)) by lia.
    match goal with
    | |- context [token_loop fuel n d ?b ls' token' _ ?w1] =>
        destruct (IH ls' token' (S k) w1) as [He Ho]
    end.
    destruct (tokens_of fuel n d ls' token') as [ts o]. simpl in *.
    rewrite He. unfold record_event. rewrite <- app_assoc. simpl. auto.
Qed.

Lemma scan_groups_lines (fuel : nat) (d : ascii) (unread : list string) :
  Forall2 (fun line ts => ts = fst (line_tokens fuel d (trim line)))
          (firstn (List.length (scan_groups fuel d unread)) unread)
          (scan_groups fuel d unread).
Proof.
  induction unread as [|line rest IH]; simpl; [constructor|].
  destruct (size (trim line) =? 0); simpl; [constructor|].
  constructor; [reflexivity|].
  destruct (snd (line_tokens fuel d (trim line))); simpl; try constructor.
  exact IH.
Qed.

Lemma GetMatrixSize_scan_events (fuel : nat) (d : ascii)
    (file unread : list string) (i : nat) (cols : Z) (w : world T M) :
  NeedsFirstPass = true ->
  events (snd (GetMatrixSize_scan fuel d file unread (wrap (Z.of_nat i)) cols w)) =
  events w ++ calls_of_lines (fun i _ => wrap (Z.of_nat i)) i (scan_groups fuel d unread).
Proof.
  intros Hfp. revert i cols w.
  induction unread as [|line rest IH]; intros i cols w; simpl.
  - rewrite app_nil_r. reflexivity.
  - rewrite Hfp.
    destruct (size (trim line) =? 0); simpl; [rewrite app_nil_r; reflexivity|].
    rewrite decr_incr_wrap, incr_wrap.
    replace (Z.of_nat i + 1) with (Z.of_nat (S i)) by lia.
    unfold bind at 1.
    pose proof (first_pass_loop_by_line fuel fuel d (wrap (Z.of_nat i))
                  (str (trim line)) EmptyString O w) as [He Ho].
    fold (line_tokens fuel d (trim line)) in He, Ho.
    destruct (token_loop fuel fuel d
                (fun token _ => map_first_pass token (wrap (Z.of_nat i)))
                (str (trim line)) EmptyString tt w) as [o w1] eqn:Hloop.
    simpl in He, Ho.
    destruct o as [[]|e|u|];
      destruct (snd (line_tokens fuel d (trim line))) as [[]|e'|u'|];
      simpl in Ho; try contradiction; simpl;
      try (rewrite app_nil_r; exact He).
    rewrite (IH (S i)). rewrite He, <- app_assoc. reflexivity.
Qed.

Lemma GetTransposeMatrixSize_scan_events (fuel : nat) (d : ascii)
    (file unread : list string) (i : nat) (rows cols : Z) (w : world T M) :
  NeedsFirstPass = true ->
  exists groups,
    Forall2 (fun line ts => ts = fst (line_tokens fuel d (trim line)))
            (firstn (List.length groups) unread) groups /\
    events (snd (GetTransposeMatrixSize_scan fuel d file unread rows cols w)) =
    events w ++ calls_of_lines (fun _ k => wrap (Z.of_nat k)) i groups.
Proof.
  intros Hfp. revert i rows cols w.
  induction unread as [|line rest IH]; intros i rows cols w; simpl.
  - exists []. simpl. rewrite app_nil_r. split; [constructor|reflexivity].
  - rewrite Hfp.
    unfold bind at 1.
    match goal with
    | |- context [(if ?c then ?a else ?b) w] =>
        assert (forall o w1, (if c then a else b) w = (o, w1) ->
                             events w1 = events w) as Hev
    end.
    { intros o w1. destruct (incr cols =? 1).
      - unfold bind, reset_info, ret.
        destruct (Dimensionality (info w) =? 0); simpl.
        + intros [= <- <-]. reflexivity.
        + destruct (negb (Dimensionality (info w) =?
                          snd (GetNonNumericMatSize file rest d))); simpl;
            intros [= <- <-]; reflexivity.
      - unfold ret. intros [= <- <-]. reflexivity. }
    match goal with
    | |- context [(if ?c then ?a else ?b) w] =>
        destruct ((if c then a else b) w) as [o w1] eqn:Hfirst
    end.
    specialize (Hev o w1 eq_refl).
    destruct o as [rows1|e|u|]; simpl;
      try (exists []; simpl; rewrite app_nil_r; split; [constructor|exact Hev]).
    destruct (size (trim line) =? 0); simpl;
      [exists []; simpl; rewrite app_nil_r; split; [constructor|exact Hev]|].
    unfold bind at 1.
    pose proof (first_pass_loop_by_field fuel fuel d
                  (str (trim line)) EmptyString O w1) as [He Ho].
    fold (line_tokens fuel d (trim line)) in He, Ho.
    change (wrap (Z.of_nat 0)) with 0 in He, Ho.
    destruct (token_loop fuel fuel d
                (fun token dim => map_first_pass token dim ;;; ret (incr dim))
                (str (trim line)) EmptyString 0 w1) as [o2 w2] eqn:Hloop.
    simpl in He, Ho.
    destruct o2 as [dim|e|u|];
      destruct (snd (line_tokens fuel d (trim line))) as [[]|e'|u'|] eqn:Hend;
      simpl in Ho; try contradiction; simpl;
      try (exists [fst (line_tokens fuel d (trim line))]; simpl;
           rewrite app_nil_r; split;
           [constructor; [reflexivity|constructor]|rewrite He, Hev; reflexivity]).
    destruct (IH (S i) rows1 (incr cols) w2) as [groups [Hg Hevs]].
    exists (fst (line_tokens fuel d (trim line)) :: groups). split.
    + simpl. constructor; [reflexivity|exact Hg].
    + rewrite Hevs, He, Hev. simpl. rewrite <- app_assoc. reflexivity.
Qed.

Lemma reset_info_events (rows : Z) (w : world T M) :
  events (snd (reset_info rows w)) = events w /\
  forall w', reset_info rows w = (Ok tt, w') -> events w' = events w.
Proof.
  unfold reset_info.
  destruct (Dimensionality (info w) =? 0); simpl.
  - split; [reflexivity|]. intros w' [= <-]. reflexivity.
  - destruct (negb (Dimensionality (info w) =? rows)); simpl.
    + split; [reflexivity|]. intros w' [=].
    + split; [reflexivity|]. intros w' [= <-]. reflexivity.
Qed.

(** C8.  When the policy needs a first pass, the calls of the preliminary
    hook made by discovery fall into one group per line read, in the order
    of the lines, and group [i] holds the tokens of line [i] in their
    order.  In the non-transposed orientation every token of line [i] is
    handed over with position [i], the index of the line counted from zero;
    in the transposed orientation token [k] of a line is handed over with
    position [k], its index within the line counted from zero, whatever
    the line.  Positions are [size_t] values: an index is taken modulo
    [2^64], which leaves every index below [2^64] as it is. *)
Theorem first_pass_positions (fuel : nat) (d : ascii) (file : list string)
    (w : world T M) :
  NeedsFirstPass = true ->
  (exists groups,
     Forall2 (fun line ts => ts = fst (line_tokens fuel d (trim line)))
             (firstn (List.length groups) file) groups /\
     events (snd (GetMatrixSize fuel d file w)) =
     events w ++ calls_of_lines (fun i _ => wrap (Z.of_nat i)) O groups) /\
  (exists groups,
     Forall2 (fun line ts => ts = fst (line_tokens fuel d (trim line)))
             (firstn (List.length groups) file) groups /\
     events (snd (GetTransposeMatrixSize fuel d file w)) =
     events w ++ calls_of_lines (fun _ k => wrap (Z.of_nat k)) O groups) /\
  (forall i : nat, Z.of_nat i < modulus -> wrap (Z.of_nat i) = Z.of_nat i).
Proof.
  intros Hfp. split; [|split].
  - unfold GetMatrixSize, bind.
    destruct (reset_info_events (count_lines file) w) as [He1 Hok1].
    destruct (reset_info (count_lines file) w) as [[[]|e|u|] w1]; simpl in He1;
      try (exists []; simpl; rewrite app_nil_r; split; [constructor|exact He1]).
    destruct (reset_info_events (count_lines file) w1) as [He2 Hok2].
    destruct (reset_info (count_lines file) w1) as [[[]|e|u|] w2]; simpl in He2;
      try (exists []; simpl; rewrite app_nil_r; split;
           [constructor|congruence]).
    exists (scan_groups fuel d file). split; [apply scan_groups_lines|].
    change 0 with (wrap (Z.of_nat O)) at 1.
    rewrite GetMatrixSize_scan_events by assumption.
    congruence.
  - unfold GetTransposeMatrixSize.
    apply GetTransposeMatrixSize_scan_events; assumption.
  - intros i Hi. apply wrap_small. lia.
Qed.

(** *** What discovery returns *)

Lemma GetMatrixSize_scan_keeps (fuel : nat) (d : ascii)
    (file unread : list string) (rows cols : Z) :
  lawful_mapper ->
  frames (GetMatrixSize_scan fuel d file unread rows cols) keeps_dimensionality.
Proof.
  intros [_ Hlaw].
  assert (forall w, keeps_dimensionality w w) as Hr by (intro; reflexivity).
  assert (forall w1 w2 w3, keeps_dimensionality w1 w2 -> keeps_dimensionality w2 w3 ->
                           keeps_dimensionality w1 w3) as Ht
    by (unfold keeps_dimensionality; intros; congruence).
  revert rows cols. induction unread as [|line unread IH]; intros rows cols; simpl.
  - apply frames_ret, Hr.
  - destruct NeedsFirstPass; [|apply IH].
    destruct (size (trim line) =? 0); [apply frames_ret, Hr|].
    apply frames_bind; [exact Ht| |intro; apply IH].
    apply frames_token_loop; [exact Hr|exact Ht|].
    intros t s w. unfold keeps_dimensionality. simpl. apply Hlaw.
Qed.

Lemma GetMatrixSize_scan_returns (fuel : nat) (d : ascii)
    (file unread : list string) (i : nat) (cols : Z) (w w' : world T M)
    (rows' cols' : Z) :
  Z.of_nat i + Z.of_nat (List.length unread) < modulus ->
  GetMatrixSize_scan fuel d file unread (Z.of_nat i) cols w = (Ok (rows', cols'), w') ->
  rows' = Z.of_nat (i + lines_scanned unread) /\
  cols' = match i, unread with
          | O, _ :: rest => snd (GetNonNumericMatSize file rest d)
          | _, _ => cols
          end.
Proof.
  revert i cols w. induction unread as [|line rest IH]; intros i cols w Hi; simpl.
  - unfold ret. intros [= <- <-]. split; [f_equal; lia|]. destruct i; reflexivity.
  - cbn [List.length] in Hi. rewrite incr_small by lia.
    replace (Z.of_nat i + 1) with (Z.of_nat (S i)) by lia.
    assert ((if Z.of_nat (S i) =? 1 then snd (GetNonNumericMatSize file rest d) else cols)
            = match i with O => snd (GetNonNumericMatSize file rest d) | _ => cols end)
      as Hc.
    { destruct i as [|i]; [reflexivity|].
      destruct (Z.of_nat (S (S i)) =? 1) eqn:E; [apply Z.eqb_eq in E; lia|reflexivity]. }
    rewrite Hc. clear Hc.
    destruct NeedsFirstPass; simpl.
    + destruct (size (trim line) =? 0); simpl.
      * unfold ret. intros [= <- <-]. split; [f_equal; lia|reflexivity].
      * unfold bind at 1.
        destruct (token_loop fuel fuel d _ (str (trim line)) EmptyString tt w)
          as [[[]|e|u|] w1]; try discriminate.
        intro Hscan. apply (IH (S i)) in Hscan; [|lia].
        destruct Hscan as [-> ->]. split; [f_equal; lia|reflexivity].
    + intro Hscan. apply (IH (S i)) in Hscan; [|lia].
      destruct Hscan as [-> ->]. split; [f_equal; lia|reflexivity].
Qed.

Lemma reset_info_ok (rows : Z) (w w' : world T M) :
  lawful_mapper ->
  reset_info rows w = (Ok tt, w') -> Dimensionality (info w') = rows.
Proof.
  intros [Hlaw _]. unfold reset_info.
  destruct (Dimensionality (info w) =? 0) eqn:E0.
  - intros [= <-]. simpl. apply Hlaw.
  - destruct (Dimensionality (info w) =? rows) eqn:E1; simpl.
    + intros [= <-]. apply Z.eqb_eq. exact E1.
    + discriminate.
Qed.

(** What [GetMatrixSize] returns: [rows] is the number of lines its second
    loop read, and [cols] is the answer that [GetNonNumericMatSize] gave
    when the first line had been read. *)
Lemma GetMatrixSize_sizes (fuel : nat) (d : ascii) (file : list string)
    (w w' : world T M) (rows cols : Z) :
  Z.of_nat (List.length file) < modulus ->
  GetMatrixSize fuel d file w = (Ok (rows, cols), w') ->
  rows = Z.of_nat (lines_scanned file) /\
  cols = match file with
         | [] => 0
         | _ :: rest => snd (GetNonNumericMatSize file rest d)
         end.
Proof.
  intros Hlen. unfold GetMatrixSize, bind.
  destruct (reset_info (count_lines file) w) as [[[]|e|u|] w1]; try discriminate.
  destruct (reset_info (count_lines file) w1) as [[[]|e|u|] w2]; try discriminate.
  intro Hscan. change 0 with (Z.of_nat O) in Hscan at 1.
  apply GetMatrixSize_scan_returns in Hscan; [|simpl; lia].
  destruct Hscan as [-> ->]. split; [reflexivity|].
  destruct file; reflexivity.
Qed.

(** With a lawful mapper, the dimensionality it has when [GetMatrixSize]
    returns is the number of lines of the file. *)
Lemma GetMatrixSize_dimensionality (fuel : nat) (d : ascii) (file : list string)
    (w w' : world T M) (dimen : Z * Z) :
  lawful_mapper ->
  Z.of_nat (List.length file) < modulus ->
  GetMatrixSize fuel d file w = (Ok dimen, w') ->
  Dimensionality (info w') = Z.of_nat (List.length file).
Proof.
  intros Hlaw Hlen. unfold GetMatrixSize, bind.
  rewrite (count_lines_length file Hlen).
  destruct (reset_info (Z.of_nat (List.length file)) w) as [[[]|e|u|] w1] eqn:H1;
    try discriminate.
  destruct (reset_info (Z.of_nat (List.length file)) w1) as [[[]|e|u|] w2] eqn:H2;
    try discriminate.
  apply (reset_info_ok _ _ _ Hlaw) in H2.
  intro Hscan.
  pose proof (GetMatrixSize_scan_keeps fuel d file file 0 0 Hlaw w2) as Hk.
  rewrite Hscan in Hk. unfold keeps_dimensionality in Hk. simpl in Hk.
  congruence.
Qed.

Lemma lines_scanned_without_first_pass (file : list string) :
  NeedsFirstPass = false -> lines_scanned file = List.length file.
Proof.
  intro H. induction file as [|l file IH]; simpl; [reflexivity|].
  rewrite H. simpl. f_equal. exact IH.
Qed.

Lemma lines_scanned_with_first_pass (file : list string) :
  NeedsFirstPass = true ->
  lines_scanned file = Nat.min (S (first_empty file)) (List.length file).
Proof.
  intro H. induction file as [|l file IH]; simpl; [reflexivity|].
  rewrite H. simpl. destruct (size (trim l) =? 0); simpl; [reflexivity|].
  f_equal. exact IH.
Qed.

(** With a first pass and an empty line before the last line of the file,
    [GetMatrixSize] returns the number of lines up to and including the
    empty one, which is less than the dimensionality it has given to a
    lawful mapper. *)
Lemma rows_stop_at_empty_line (fuel : nat) (d : ascii) (file : list string)
    (w w' : world T M) (rows cols : Z) :
  lawful_mapper ->
  NeedsFirstPass = true ->
  Z.of_nat (List.length file) < modulus ->
  (S (first_empty file) < List.length file)%nat ->
  GetMatrixSize fuel d file w = (Ok (rows, cols), w') ->
  rows = Z.of_nat (S (first_empty file)) /\
  Dimensionality (info w') = Z.of_nat (List.length file) /\
  rows < Dimensionality (info w').
Proof.
  intros Hlaw Hfp Hlen Hempty Hret.
  pose proof (GetMatrixSize_dimensionality _ _ _ _ _ _ Hlaw Hlen Hret) as Hdim.
  destruct (GetMatrixSize_sizes _ _ _ _ _ _ _ Hlen Hret) as [Hrows _].
  rewrite (lines_scanned_with_first_pass file Hfp) in Hrows.
  rewrite Nat.min_l in Hrows by lia.
  split; [exact Hrows|]. split; [exact Hdim|]. rewrite Hdim, Hrows. lia.
Qed.

(** *** The rows population writes *)

Lemma frames_weaken {A : Type} (m : prog A) (R R' : world T M -> world T M -> Prop) :
  (forall w w', R w w' -> R' w w') -> frames m R -> frames m R'.
Proof. intros Hi Hm w. apply Hi, Hm. Qed.

Lemma writes_rows_refl (P : Z -> Prop) (w : world T M) : writes_rows P w w.
Proof.
  repeat split; try reflexivity.
  exists []. rewrite app_nil_r. split; [reflexivity|]. intros row col [].
Qed.

Lemma writes_rows_trans (P : Z -> Prop) (w1 w2 w3 : world T M) :
  writes_rows P w1 w2 -> writes_rows P w2 w3 -> writes_rows P w1 w3.
Proof.
  intros (Hr1 & Hc1 & He1 & es1 & Hv1 & Ha1) (Hr2 & Hc2 & He2 & es2 & Hv2 & Ha2).
  repeat split; try congruence.
  - intros r c Hn. rewrite He2, He1 by assumption. reflexivity.
  - exists (es1 ++ es2). split.
    + rewrite Hv2, Hv1, app_assoc. reflexivity.
    + intros row col Hin. apply in_app_or in Hin. destruct Hin; eauto.
Qed.

Lemma writes_rows_mono (P Q : Z -> Prop) (w w' : world T M) :
  (forall r, P r -> Q r) -> writes_rows P w w' -> writes_rows Q w w'.
Proof.
  intros Hpq (Hr & Hc & He & es & Hv & Ha).
  repeat split; try assumption.
  - intros r c Hn. apply He. intro Hp. apply Hn, Hpq, Hp.
  - exists es. split; [assumption|]. intros row col Hin. eapply Hpq, Ha, Hin.
Qed.

(** One token of population: [inout(row, col) = MapString(token, pos)].
    When [row] is a row of the matrix, the element accessed lies in that
    row whatever [col] is and whether or not the access is checked: index
    [row + col * n_rows] is in row [row]. *)
Lemma store_writes_row (token : string) (pos row col : Z) (next : Z)
    (w : world T M) :
  0 <= row < n_rows (inout w) ->
  writes_rows (fun r => r = row) w
    (snd ((v <- map_string token pos ;; assign row col v ;;; ret next) w)).
Proof.
  intro Hrow. unfold bind, map_string, assign, ret.
  destruct (MapString token pos (info w)) as [[v|] i']; simpl.
  - destruct ((row <? n_rows (inout w)) && (col <? n_cols (inout w)))%bool; simpl.
    + repeat split; try reflexivity.
      * intros r c Hn. simpl.
        destruct (r =? row) eqn:E; [apply Z.eqb_eq in E; contradiction|reflexivity].
      * exists [MapStringCall token pos; Assign row col]. split.
        -- unfold record_event. simpl. rewrite <- app_assoc. reflexivity.
        -- intros row' col' [H|[H|[]]]; [discriminate|].
           injection H as <- _. reflexivity.
    + destruct check_bounds; simpl.
      * repeat split; try reflexivity.
        exists [MapStringCall token pos]. split; [reflexivity|].
        intros row' col' [H|[]]; discriminate.
      * destruct ((0 <=? row + col * n_rows (inout w))
                  && (row + col * n_rows (inout w)
                      <? wrap (n_rows (inout w) * n_cols (inout w))))%bool; simpl.
        -- repeat split; try reflexivity.
           ++ intros r c Hn. simpl.
              rewrite Z.mod_add by lia. rewrite Z.mod_small by lia.
              destruct (r =? row) eqn:E;
                [apply Z.eqb_eq in E; contradiction|reflexivity].
           ++ exists [MapStringCall token pos; Assign row col]. split.
              ** unfold record_event. simpl. rewrite <- app_assoc. reflexivity.
              ** intros row' col' [H|[H|[]]]; [discriminate|].
                 injection H as <- _. reflexivity.
        -- repeat split; try reflexivity.
           exists [MapStringCall token pos]. split; [reflexivity|].
           intros row' col' [H|[]]; discriminate.
  - repeat split; try reflexivity.
    exists [MapStringCall token pos]. split; [reflexivity|].
    intros row' col' [H|[]]; discriminate.
Qed.

(** The token loop of a line of [NonTransposeParse] writes the row of that
    line only, when it is a row of the matrix. *)
Lemma NonTransposeParse_line_rows (fuel n : nat) (d : ascii) (row : Z)
    (ls : stringstream) (token : string) (col : Z) (w : world T M) :
  0 <= row < n_rows (inout w) ->
  writes_rows (fun r => r = row) w
    (snd (token_loop fuel n d
            (fun token col =>
               v <- map_string token row ;; assign row col v ;;; ret (incr col))
            ls token col w)).
Proof.
  apply (frames_token_loop fuel n d
           (fun token col =>
              v <- map_string token row ;; assign row col v ;;; ret (incr col))
           (fun w w' => 0 <= row < n_rows (inout w) ->
                        writes_rows (fun r => r = row) w w')).
  - intros w0 _. apply writes_rows_refl.
  - intros w1 w2 w3 H12 H23 Hrow. specialize (H12 Hrow).
    apply (writes_rows_trans _ w1 w2 w3 H12). apply H23.
    destruct H12 as [Hr _]. rewrite Hr. exact Hrow.
  - intros t s w0. apply store_writes_row.
Qed.

(** The loop of [NonTransposeParse] started on line [i] writes the rows of
    the lines from [i] up to the first empty one, and no other, in a matrix
    that has these rows. *)
Lemma NonTransposeParse_fill_rows (fuel : nat) (d : ascii) (cols : Z)
    (unread : list string) (i : nat) (w : world T M) :
  Z.of_nat i + Z.of_nat (List.length unread) < modulus ->
  Z.of_nat (i + first_empty unread) <= n_rows (inout w) ->
  writes_rows (fun r => Z.of_nat i <= r < Z.of_nat (i + first_empty unread)) w
    (snd (NonTransposeParse_fill fuel d cols unread (Z.of_nat i) w)).
Proof.
  revert i w. induction unread as [|line rest IH]; intros i w Hi;
    cbn [NonTransposeParse_fill first_empty].
  - intros _. apply writes_rows_refl.
  - cbn [List.length] in Hi.
    destruct (size (trim line) =? 0); [intros _; apply writes_rows_refl|].
    intro Hrows. unfold bind at 1.
    pose proof (NonTransposeParse_line_rows fuel fuel d (Z.of_nat i)
                  (str (trim line)) EmptyString 0 w ltac:(lia)) as Hline.
    destruct (token_loop fuel fuel d _ (str (trim line)) EmptyString 0 w)
      as [[col|e|u|] w1]; cbn [snd] in Hline |- *.
    2-4: revert Hline; apply writes_rows_mono; intros r ->; lia.
    destruct (negb (col =? cols)).
    + revert Hline. apply writes_rows_mono. intros r ->. lia.
    + rewrite incr_small by lia.
      replace (Z.of_nat i + 1) with (Z.of_nat (S i)) by lia.
      apply (writes_rows_trans _ w w1).
      * revert Hline. apply writes_rows_mono. intros r ->. lia.
      * apply writes_rows_mono
          with (P := fun r => Z.of_nat (S i) <= r
                              < Z.of_nat (S i + first_empty rest)).
        -- intros r. lia.
        -- apply IH; [lia|]. destruct Hline as [Hr _]. rewrite Hr. lia.
Qed.


Lemma first_empty_le_scanned (file : list string) :
  (first_empty file <= lines_scanned file)%nat.
Proof.
  induction file as [|l file IH]; simpl; [lia|].
  destruct (size (trim l) =? 0); [lia|].
  rewrite andb_false_r. lia.
Qed.

Lemma first_empty_last (init : list string) (l : string) :
  size (trim l) = 0 ->
  (first_empty (init ++ [l]) < List.length (init ++ [l]))%nat.
Proof.
  intro Hl. induction init as [|x init IH]; simpl.
  - rewrite Hl. simpl. lia.
  - destruct (size (trim x) =? 0); lia.
Qed.

Lemma distinct_below (l : list Z) (k : nat) :
  NoDup l -> (forall x, In x l -> 0 <= x < Z.of_nat k) -> (List.length l <= k)%nat.
Proof.
  intros Hnd Hin.
  assert (List.length (map Z.of_nat (seq 0 k)) = k) as Hk
    by (rewrite length_map, length_seq; reflexivity).
  rewrite <- Hk.
  apply NoDup_incl_length; [exact Hnd|].
  intros x Hx. specialize (Hin x Hx).
  apply in_map_iff. exists (Z.to_nat x). split; [lia|].
  apply in_seq. lia.
Qed.

Lemma assigned_rows_in (es : list event) (row : Z) :
  In row (assigned_rows es) -> exists col, In (Assign row col) es.
Proof.
  induction es as [|e es IH]; simpl; [intros []|].
  destruct e as [t p|t p|r c|r c]; simpl.
  - intro H. destruct (IH H) as [col Hc]. eauto.
  - intro H. destruct (IH H) as [col Hc]. eauto.
  - intros [<-|H]; [eauto|]. destruct (IH H) as [col Hc]. eauto.
  - intro H. destruct (IH H) as [col Hc]. eauto.
Qed.

Lemma rows_written_below (es : list event) (k : nat) :
  (forall row col, In (Assign row col) es -> 0 <= row < Z.of_nat k) ->
  rows_written es <= Z.of_nat k.
Proof.
  intro H. unfold rows_written. apply inj_le.
  apply distinct_below; [apply NoDup_nodup|].
  intros x Hx. apply nodup_In in Hx.
  destruct (assigned_rows_in es x Hx) as [col Hc]. eapply H, Hc.
Qed.

(** C10, as amended.  Take a non-transposed load of a file whose final
    line is empty once trimmed, and let discovery return [rows] and [cols].
    [rows] is the number of lines the second loop of discovery read: all
    the lines, empty ones included, when no first pass is needed, and the
    lines up to and including the first empty one when a first pass is
    needed.  Population stops at the first empty line, at index [k], before
    it assigns any element of that line.  Hence the matrix has [rows] rows,
    at least one more than the rows population assigns to, all of which lie
    before [k]; and every row from [k] on, the last row among them, holds
    what [set_size] left there. *)
Theorem last_row_left_as_allocated (fuel : nat) (d : ascii)
    (init : list string) (l : string) (w w1 : world T M) (rows cols : Z) :
  let file := init ++ [l] in
  size (trim l) = 0 ->
  Z.of_nat (List.length file) < modulus ->
  GetMatrixSize fuel d file w = (Ok (rows, cols), w1) ->
  let r := NonTransposeParse fuel d file w in
  let k := Z.of_nat (first_empty file) in
  (NeedsFirstPass = false -> rows = Z.of_nat (List.length file)) /\
  (NeedsFirstPass = true -> rows = k + 1) /\
  n_rows (inout (snd r)) = rows /\
  k + 1 <= rows /\
  (exists es,
     events (snd r) = events w1 ++ SetSize rows cols :: es /\
     (forall row col, In (Assign row col) es -> 0 <= row < k) /\
     rows_written es + 1 <= rows) /\
  (forall row col, k <= row ->
     elem (inout (snd r)) row col = fresh (inout w) rows cols row col).
Proof.
  intros file Hl Hlen Hdisc r k.
  pose proof (first_empty_last init l Hl) as Hfe. fold file in Hfe.
  destruct (GetMatrixSize_sizes fuel d file w w1 rows cols Hlen Hdisc) as [Hrows _].
  assert (NeedsFirstPass = false -> rows = Z.of_nat (List.length file)) as Hall.
  { intro Hfp. rewrite Hrows, (lines_scanned_without_first_pass file Hfp). reflexivity. }
  assert (NeedsFirstPass = true -> rows = k + 1) as Hone.
  { intro Hfp. rewrite Hrows, (lines_scanned_with_first_pass file Hfp). subst k. lia. }
  assert (k + 1 <= rows) as Hk.
  { destruct NeedsFirstPass; [rewrite Hone by reflexivity; lia|].
    rewrite Hall by reflexivity. subst k. lia. }
  pose proof (GetMatrixSize_discovers fuel d file w) as [Hsame _].
  rewrite Hdisc in Hsame. simpl in Hsame.
  set (w2 := {| inout := {| n_rows := rows; n_cols := cols;
                            elem := fresh (inout w1) rows cols |};
                info := info w1;
                events := record_event (SetSize rows cols) w1 |}).
  assert (NonTransposeParse fuel d file w =
          NonTransposeParse_fill fuel d cols file 0 w2) as Hrun.
  { unfold NonTransposeParse, bind. rewrite Hdisc. reflexivity. }
  subst r. rewrite Hrun.
  pose proof (NonTransposeParse_fill_rows fuel d cols file O w2
                ltac:(simpl; lia) ltac:(subst w2 k; simpl; lia))
    as (Hr & Hc & He & es & Hv & Ha).
  change (Z.of_nat 0) with 0 in *.
  destruct (NonTransposeParse_fill fuel d cols file 0 w2) as [o w3].
  subst w2. cbn [fst snd inout info n_rows n_cols elem events] in *.
  assert (forall row col, In (Assign row col) es -> 0 <= row < k) as Hbelow.
  { intros row col Hin. specialize (Ha row col Hin). subst k. simpl in Ha. lia. }
  split; [exact Hall|]. split; [exact Hone|]. split; [exact Hr|].
  split; [exact Hk|]. split.
  - exists es. split; [|split].
    + rewrite Hv. unfold record_event. rewrite <- app_assoc. reflexivity.
    + exact Hbelow.
    + pose proof (rows_written_below es (first_empty file) Hbelow). lia.
  - intros row col Hrow. rewrite He by (subst k; simpl; lia).
    rewrite Hsame. reflexivity.
Qed.

(** *** The quote test on an empty field *)

(** C2, as amended.  When the field extracted from the line is empty once
    trimmed, the tokenizer tests its first character directly, with no
    test of the length before: the only position it reads is [0], which is
    [size()], where the string yields the null character.  That is not a
    quote, so the test is false, the position [size() - 1] is not read, and
    the round hands on the empty token.  On no token does the test read a
    position beyond [size()]. *)
Theorem empty_field_quote_test (fuel : nat) (d : ascii) (ls : stringstream)
    (token : string) :
  size (trim (snd (getline ls token d))) = 0 ->
  let field := trim (snd (getline ls token d)) in
  fst (opens_quote field) = [0] /\
  str_at field 0 = Some nul /\
  snd (opens_quote field) = Some false /\
  next_token fuel d ls token = Ok (fst (getline ls token d), field) /\
  forall t, Forall (fun pos => 0 <= pos <= size t) (fst (opens_quote t)).
Proof.
  intros Hsize field.
  assert (field = EmptyString) as Hf by (apply size_zero_empty; exact Hsize).
  unfold next_token. destruct (getline ls token d) as [ls1 token1]. simpl in *.
  fold field. rewrite Hf. repeat split; try reflexivity.
  intro t. apply opens_quote_defined.
Qed.

(** *** The delimiter the constructor selects *)

(** C3, as amended.  A loader constructed on a file has the comma as its
    delimiter when the extension is csv, the tab when it is tsv and the
    space when it is txt; for any other extension no branch of the
    constructor assigns the delimiter. *)
Theorem constructor_delimiter (open_file : string -> option (list string))
    (file : string) (this : LoadCSV) :
  LoadCSV_new open_file file = Ok this ->
  (Extension file = "csv"%string -> delim this = Some comma) /\
  (Extension file = "tsv"%string -> delim this = Some tab) /\
  (Extension file = "txt"%string -> delim this = Some space) /\
  (Extension file <> "csv"%string -> Extension file <> "tsv"%string ->
   Extension file <> "txt"%string -> delim this = None).
Proof.
  unfold LoadCSV_new. cbn [inFile].
  destruct (open_file file) as [lines|]; [|discriminate].
  intros [= <-]. cbn [delim].
  repeat split.
  - intros ->. reflexivity.
  - intros ->. reflexivity.
  - intros ->. reflexivity.
  - intros H1 H2 H3.
    apply String.eqb_neq in H1, H2, H3. rewrite H1, H2, H3. reflexivity.
Qed.

(** *** A line with too few fields *)

(** When the token loop of a line of [NonTransposeParse] ends normally with
    a count that is not [cols], the load throws the wrong-dimension
    exception with the count, the index of the line and [cols]. *)
Lemma NonTransposeParse_fill_count (fuel : nat) (d : ascii) (cols : Z)
    (line : string) (unread : list string) (row col : Z) (w w1 : world T M) :
  size (trim line) <> 0 ->
  token_loop fuel fuel d
    (fun token col => v <- map_string token row ;; assign row col v ;;; ret (incr col))
    (str (trim line)) EmptyString 0 w = (Ok col, w1) ->
  col <> cols ->
  NonTransposeParse_fill fuel d cols (line :: unread) row w =
  (Throw (NonTransposeWrongDimensions col row cols), w1).
Proof.
  intros Hne Hloop Hcol. simpl.
  apply Z.eqb_neq in Hne. rewrite Hne.
  unfold bind at 1. rewrite Hloop.
  apply Z.eqb_neq in Hcol. rewrite Hcol. reflexivity.
Qed.

(** The same for [TransposeParse], with the index of the column. *)
Lemma TransposeParse_fill_count (fuel : nat) (d : ascii) (rows : Z)
    (line : string) (unread : list string) (row col : Z) (w w1 : world T M) :
  size (trim line) <> 0 ->
  token_loop fuel fuel d
    (fun token row => v <- map_string token row ;; assign row col v ;;; ret (incr row))
    (str (trim line)) EmptyString 0 w = (Ok row, w1) ->
  row <> rows ->
  TransposeParse_fill fuel d rows (line :: unread) col w =
  (Throw (TransposeWrongDimensions row col rows), w1).
Proof.
  intros Hne Hloop Hrow. simpl.
  apply Z.eqb_neq in Hne. rewrite Hne.
  unfold bind at 1. rewrite Hloop.
  apply Z.eqb_neq in Hrow. rewrite Hrow. reflexivity.
Qed.

(** *** Which counts the wrong-dimension exception reports *)

Lemma wrap_le (z : Z) : 0 <= z -> 0 <= wrap z <= z.
Proof.
  intro H. unfold wrap. split.
  - apply Z.mod_pos_bound, modulus_pos.
  - apply Z.mod_le; [exact H|exact modulus_pos].
Qed.

(** A token of population leaves the sizes of the matrix as they are,
    however it ends. *)
Lemma store_sizes (token : string) (pos row col next : Z) (w : world T M) :
  n_rows (inout (snd ((v <- map_string token pos ;; assign row col v ;;;
                       ret next) w))) = n_rows (inout w) /\
  n_cols (inout (snd ((v <- map_string token pos ;; assign row col v ;;;
                       ret next) w))) = n_cols (inout w).
Proof.
  unfold bind, map_string, assign, ret.
  destruct (MapString token pos (info w)) as [[v|] i']; simpl;
    [|split; reflexivity].
  destruct ((row <? n_rows (inout w)) && (col <? n_cols (inout w)))%bool; simpl;
    [split; reflexivity|].
  destruct check_bounds; simpl; [split; reflexivity|].
  destruct ((0 <=? row + col * n_rows (inout w))
            && (row + col * n_rows (inout w)
                <? wrap (n_rows (inout w) * n_cols (inout w))))%bool;
    split; reflexivity.
Qed.

(** The token loops of population leave the sizes of the matrix as they
    are, however they end. *)
Lemma store_loop_sizes (fuel n : nat) (d : ascii)
    (body : string -> Z -> prog Z) (ls : stringstream) (token : string) (s : Z)
    (w : world T M) :
  (forall t k, exists pos row col next,
      body t k = (v <- map_string t pos ;; assign row col v ;;; ret next)) ->
  n_rows (inout (snd (token_loop fuel n d body ls token s w))) = n_rows (inout w) /\
  n_cols (inout (snd (token_loop fuel n d body ls token s w))) = n_cols (inout w).
Proof.
  intro Hbody.
  apply (frames_token_loop fuel n d body
           (fun w w' => n_rows (inout w') = n_rows (inout w) /\
                        n_cols (inout w') = n_cols (inout w))).
  - intros w0. split; reflexivity.
  - intros w1 w2 w3 [H1 H2] [H3 H4]. split; congruence.
  - intros t k w0. destruct (Hbody t k) as (pos & row & col & next & ->).
    apply store_sizes.
Qed.


(** A token of population that ends normally was assigned inside the
    matrix, or, with the check compiled out, at an index inside the
    allocation. *)
Lemma store_ok_index (token : string) (pos row col next r : Z)
    (w w1 : world T M) :
  (v <- map_string token pos ;; assign row col v ;;; ret next) w = (Ok r, w1) ->
  r = next /\
  n_rows (inout w1) = n_rows (inout w) /\ n_cols (inout w1) = n_cols (inout w) /\
  events w1 = events w ++ [MapStringCall token pos; Assign row col] /\
  ((row < n_rows (inout w) /\ col < n_cols (inout w)) \/
   (check_bounds = false /\
    0 <= row + col * n_rows (inout w)
    < wrap (n_rows (inout w) * n_cols (inout w)))).
Proof.
  unfold bind, map_string, assign, ret.
  destruct (MapString token pos (info w)) as [[v|] i']; simpl; [|discriminate].
  destruct ((row <? n_rows (inout w)) && (col <? n_cols (inout w)))%bool eqn:E;
    simpl.
  - intros [= <- <-]. simpl. apply andb_true_iff in E. destruct E as [Hr Hc].
    apply Z.ltb_lt in Hr, Hc. unfold record_event. simpl.
    rewrite <- app_assoc. repeat split; auto.
  - destruct check_bounds; [discriminate|].
    destruct ((0 <=? row + col * n_rows (inout w))
              && (row + col * n_rows (inout w)
                  <? wrap (n_rows (inout w) * n_cols (inout w))))%bool eqn:E';
      [|discriminate].
    intros [= <- <-]. simpl. apply andb_true_iff in E'. destruct E' as [H0 H1].
    apply Z.leb_le in H0. apply Z.ltb_lt in H1. unfold record_event. simpl.
    rewrite <- app_assoc. repeat split; auto.
Qed.

(** With the bounds check, or when [row] is a row of a matrix whose number
    of columns is not negative, a token that ends normally was assigned
    inside the matrix: index [row + col * n_rows] with [col] past the last
    column lies beyond the allocation. *)
Lemma store_ok (token : string) (pos row col next r : Z) (w w1 : world T M) :
  check_bounds = true \/
  (0 <= row < n_rows (inout w) /\ 0 <= n_cols (inout w)) ->
  (v <- map_string token pos ;; assign row col v ;;; ret next) w = (Ok r, w1) ->
  r = next /\ row < n_rows (inout w) /\ col < n_cols (inout w) /\
  n_rows (inout w1) = n_rows (inout w) /\ n_cols (inout w1) = n_cols (inout w).
Proof.
  intros Hcase Hbody. apply store_ok_index in Hbody.
  destruct Hbody as (-> & Hnr & Hnc & _ & [[Hr Hc]|[Hcb Hin]]).
  - repeat split; assumption.
  - destruct Hcase as [Hcb'|[Hrow Hcols]]; [congruence|].
    assert (col < n_cols (inout w)) as Hc.
    { destruct (Z_lt_le_dec col (n_cols (inout w))) as [Hlt|Hge]; [exact Hlt|].
      exfalso.
      pose proof (wrap_le (n_rows (inout w) * n_cols (inout w)) ltac:(nia)) as Hw.
      nia. }
    repeat split; try assumption. lia.
Qed.













(** *** The dimensionality after transposed discovery *)

(** X2.  Transposed discovery, when it returns on a file with a first line
    and a lawful mapper: [rows] is the answer of [GetNonNumericMatSize] at
    the first line, and it is the dimensionality of the mapper. *)
Lemma GetTransposeMatrixSize_dimensionality (fuel : nat) (d : ascii)
    (line : string) (rest : list string) (w w' : world T M) (rows cols : Z) :
  lawful_mapper ->
  Z.of_nat (List.length (line :: rest)) < modulus ->
  GetTransposeMatrixSize fuel d (line :: rest) w = (Ok (rows, cols), w') ->
  rows = snd (GetNonNumericMatSize (line :: rest) rest d) /\
  Dimensionality (info w') = rows.
Proof.
  intros Hlaw Hlen.
  assert (forall unread i rows0 w0,
             Z.of_nat (S i) + Z.of_nat (List.length unread) < modulus ->
             GetTransposeMatrixSize_scan fuel d (line :: rest) unread rows0
               (Z.of_nat (S i)) w0 = (Ok (rows, cols), w') ->
             rows = rows0 /\ Dimensionality (info w') = Dimensionality (info w0))
    as Hlater.
  { induction unread as [|l unread IH]; intros i rows0 w0 Hi;
      cbn [GetTransposeMatrixSize_scan].
    - unfold ret. intros [= <- _ <-]. auto.
    - cbn [List.length] in Hi. rewrite incr_small by lia.
      replace (Z.of_nat (S i) + 1 =? 1) with false
        by (symmetry; apply Z.eqb_neq; lia).
      unfold bind at 1, ret at 1.
      replace (Z.of_nat (S i) + 1) with (Z.of_nat (S (S i))) by lia.
      destruct NeedsFirstPass; [|apply (IH (S i)); lia].
      destruct (size (trim l) =? 0); [unfold ret; intros [= <- _ <-]; auto|].
      unfold bind at 1.
      pose proof (frames_token_loop fuel fuel d
                    (fun token dim => map_first_pass token dim ;;; ret (incr dim))
                    keeps_dimensionality
                    (fun w1 => eq_refl)
                    (fun w1 w2 w3 H12 H23 => eq_trans H23 H12)) as Hkeep.
      specialize (Hkeep (fun t s w1 => proj2 Hlaw t s (info w1))
                        (str (trim l)) EmptyString 0 w0).
      destruct (token_loop fuel fuel d _ (str (trim l)) EmptyString 0 w0)
        as [[dim|e|u|] w1]; try discriminate.
      unfold keeps_dimensionality in Hkeep. simpl in Hkeep.
      intro Hscan. apply (IH (S i)) in Hscan; [|lia].
      destruct Hscan as [-> ->]. auto. }
  unfold GetTransposeMatrixSize. cbn [GetTransposeMatrixSize_scan].
  change (incr 0 =? 1) with true. cbv iota.
  unfold bind at 1 2, ret at 1.
  destruct (reset_info (snd (GetNonNumericMatSize (line :: rest) rest d)) w)
    as [[[]|e|u|] w1] eqn:Hreset; try discriminate.
  apply (reset_info_ok _ _ _ Hlaw) in Hreset.
  change (incr 0) with (Z.of_nat 1).
  cbn [List.length] in Hlen.
  destruct NeedsFirstPass.
  - destruct (size (trim line) =? 0); [unfold ret; intros [= <- _ <-]; auto|].
    unfold bind at 1.
    pose proof (frames_token_loop fuel fuel d
                  (fun token dim => map_first_pass token dim ;;; ret (incr dim))
                  keeps_dimensionality
                  (fun w1 => eq_refl)
                  (fun w1 w2 w3 H12 H23 => eq_trans H23 H12)) as Hkeep.
    specialize (Hkeep (fun t s w1 => proj2 Hlaw t s (info w1))
                      (str (trim line)) EmptyString 0 w1).
    destruct (token_loop fuel fuel d _ (str (trim line)) EmptyString 0 w1)
      as [[dim|e|u|] w2]; try discriminate.
    unfold keeps_dimensionality in Hkeep. simpl in Hkeep.
    intro Hscan. apply (Hlater rest O) in Hscan; [|lia].
    destruct Hscan as [-> ->]. split; [reflexivity|congruence].
  - intro Hscan. apply (Hlater rest O) in Hscan; [|lia].
    destruct Hscan as [-> ->]. split; [reflexivity|congruence].
Qed.

(** *** Iteration budgets

    A run that ends otherwise than by exhausting its budget is the same run
    under every larger budget. *)

Lemma join_quoted_mono (fuel fuel' : nat) (d : ascii) (ls : stringstream)
    (token tok : string) :
  (fuel <= fuel')%nat ->
  join_quoted fuel d ls token tok <> OutOfFuel ->
  join_quoted fuel' d ls token tok = join_quoted fuel d ls token tok.
Proof.
  revert fuel' ls token tok.
  induction fuel as [|fuel IH]; intros fuel' ls token tok Hle Hends.
  - destruct fuel'; simpl in *; destruct (not_closed token) as [[|]|];
      try reflexivity; contradiction.
  - destruct fuel' as [|fuel']; [lia|]. simpl in *.
    destruct (not_closed token) as [[|]|]; try reflexivity.
    destruct (getline ls token d) as [ls' token'].
    apply IH; [lia|exact Hends].
Qed.

Lemma next_token_mono (fuel fuel' : nat) (d : ascii) (ls : stringstream)
    (token : string) :
  (fuel <= fuel')%nat ->
  next_token fuel d ls token <> OutOfFuel ->
  next_token fuel' d ls token = next_token fuel d ls token.
Proof.
  intros Hle. unfold next_token. destruct (getline ls token d) as [ls1 token1].
  destruct (snd (opens_quote (trim token1))) as [[|]|]; try reflexivity.
  apply join_quoted_mono. exact Hle.
Qed.

Lemma bind_mono {A B : Type} (m m' : prog A) (k k' : A -> prog B) (w : world T M) :
  (fst (m w) <> OutOfFuel -> m' w = m w) ->
  (forall a w1, fst (k a w1) <> OutOfFuel -> k' a w1 = k a w1) ->
  fst (bind m k w) <> OutOfFuel ->
  bind m' k' w = bind m k w.
Proof.
  intros Hm Hk. unfold bind.
  destruct (m w) as [[a|e|u|] w1] eqn:Hmw; simpl; intro Hends.
  - rewrite Hm by discriminate. apply Hk. exact Hends.
  - rewrite Hm by discriminate. reflexivity.
  - rewrite Hm by discriminate. reflexivity.
  - contradiction.
Qed.

Lemma token_loop_mono {S : Type} (fuel fuel' n n' : nat) (d : ascii)
    (body : string -> S -> prog S) (ls : stringstream) (token : string) (s : S)
    (w : world T M) :
  (fuel <= fuel')%nat -> (n <= n')%nat ->
  fst (token_loop fuel n d body ls token s w) <> OutOfFuel ->
  token_loop fuel' n' d body ls token s w = token_loop fuel n d body ls token s w.
Proof.
  intros Hf. revert n' ls token s w.
  induction n as [|n IH]; intros n' ls token s w Hn.
  - destruct n'; simpl; destruct (good ls); simpl; try reflexivity; contradiction.
  - destruct n' as [|n']; [lia|]. simpl.
    destruct (good ls); [|reflexivity].
    destruct (next_token fuel d ls token) as [[ls' token']|e|u|] eqn:Hnext;
      simpl; intro Hends.
    + rewrite (next_token_mono fuel fuel' d ls token Hf) by (rewrite Hnext; discriminate).
      rewrite Hnext.
      apply bind_mono; [reflexivity| |exact Hends].
      intros s' w1. apply IH. lia.
    + rewrite (next_token_mono fuel fuel' d ls token Hf) by (rewrite Hnext; discriminate).
      rewrite Hnext. reflexivity.
    + rewrite (next_token_mono fuel fuel' d ls token Hf) by (rewrite Hnext; discriminate).
      rewrite Hnext. reflexivity.
    + contradiction.
Qed.

Lemma GetMatrixSize_mono (fuel fuel' : nat) (d : ascii) (file : list string)
    (w : world T M) :
  (fuel <= fuel')%nat ->
  fst (GetMatrixSize fuel d file w) <> OutOfFuel ->
  GetMatrixSize fuel' d file w = GetMatrixSize fuel d file w.
Proof.
  intro Hle.
  assert (forall unread rows cols w0,
             fst (GetMatrixSize_scan fuel d file unread rows cols w0) <> OutOfFuel ->
             GetMatrixSize_scan fuel' d file unread rows cols w0
             = GetMatrixSize_scan fuel d file unread rows cols w0) as Hscan.
  { induction unread as [|l unread IH]; intros rows cols w0; simpl.
    - reflexivity.
    - destruct NeedsFirstPass; [|apply IH].
      destruct (size (trim l) =? 0); [reflexivity|].
      apply bind_mono.
      + apply token_loop_mono; exact Hle.
      + intros _ w1. apply IH. }
  unfold GetMatrixSize.
  apply bind_mono; [reflexivity|]. intros _ w1.
  apply bind_mono; [reflexivity|]. intros _ w2.
  apply Hscan.
Qed.

Lemma GetTransposeMatrixSize_mono (fuel fuel' : nat) (d : ascii) (file : list string)
    (w : world T M) :
  (fuel <= fuel')%nat ->
  fst (GetTransposeMatrixSize fuel d file w) <> OutOfFuel ->
  GetTransposeMatrixSize fuel' d file w = GetTransposeMatrixSize fuel d file w.
Proof.
  intro Hle.
  assert (forall unread rows cols w0,
             fst (GetTransposeMatrixSize_scan fuel d file unread rows cols w0)
             <> OutOfFuel ->
             GetTransposeMatrixSize_scan fuel' d file unread rows cols w0
             = GetTransposeMatrixSize_scan fuel d file unread rows cols w0) as Hscan.
  { induction unread as [|l unread IH]; intros rows cols w0; simpl.
    - reflexivity.
    - apply bind_mono; [reflexivity|]. intros rows1 w1.
      destruct NeedsFirstPass; [|apply IH].
      destruct (size (trim l) =? 0); [reflexivity|].
      apply bind_mono.
      + apply token_loop_mono; exact Hle.
      + intros _ w2. apply IH. }
  apply Hscan.
Qed.

Lemma NonTransposeParse_fill_mono (fuel fuel' : nat) (d : ascii) (cols : Z)
    (unread : list string) (row : Z) (w : world T M) :
  (fuel <= fuel')%nat ->
  fst (NonTransposeParse_fill fuel d cols unread row w) <> OutOfFuel ->
  NonTransposeParse_fill fuel' d cols unread row w
  = NonTransposeParse_fill fuel d cols unread row w.
Proof.
  intro Hle. revert row w.
  induction unread as [|l unread IH]; intros row w; simpl.
  - reflexivity.
  - destruct (size (trim l) =? 0); [reflexivity|].
    apply bind_mono.
    + apply token_loop_mono; exact Hle.
    + intros col w1. destruct (negb (col =? cols)); [reflexivity|apply IH].
Qed.

Lemma TransposeParse_fill_mono (fuel fuel' : nat) (d : ascii) (rows : Z)
    (unread : list string) (col : Z) (w : world T M) :
  (fuel <= fuel')%nat ->
  fst (TransposeParse_fill fuel d rows unread col w) <> OutOfFuel ->
  TransposeParse_fill fuel' d rows unread col w
  = TransposeParse_fill fuel d rows unread col w.
Proof.
  intro Hle. revert col w.
  induction unread as [|l unread IH]; intros col w; simpl.
  - reflexivity.
  - destruct (size (trim l) =? 0); [reflexivity|].
    apply bind_mono.
    + apply token_loop_mono; exact Hle.
    + intros row w1. destruct (negb (row =? rows)); [reflexivity|apply IH].
Qed.

(** A load that ends otherwise than by exhausting its budget ends in the
    same way, in the same world, under every larger budget. *)
Lemma Load_mono (fuel fuel' : nat) (this : LoadCSV) (transpose : bool)
    (w : world T M) :
  (fuel <= fuel')%nat ->
  fst (Load fuel this transpose w) <> OutOfFuel ->
  Load fuel' this transpose w = Load fuel this transpose w.
Proof.
  intro Hle.
  assert (forall d file,
             fst ((if transpose then TransposeParse fuel d file
                   else NonTransposeParse fuel d file) w) <> OutOfFuel ->
             (if transpose then TransposeParse fuel' d file
              else NonTransposeParse fuel' d file) w
             = (if transpose then TransposeParse fuel d file
                else NonTransposeParse fuel d file) w) as Hrun.
  { intros d file. destruct transpose.
    - unfold TransposeParse. apply bind_mono.
      + apply GetTransposeMatrixSize_mono. exact Hle.
      + intros dimen w1. apply bind_mono; [reflexivity|].
        intros _ w2. apply TransposeParse_fill_mono. exact Hle.
    - unfold NonTransposeParse. apply bind_mono.
      + apply GetMatrixSize_mono. exact Hle.
      + intros dimen w1. apply bind_mono; [reflexivity|].
        intros _ w2. apply NonTransposeParse_fill_mono. exact Hle. }
  unfold Load. destruct (inFile this) as [file|]; [|reflexivity].
  destruct (delim this) as [d|]; [apply Hrun|].
  destruct file; [apply Hrun|reflexivity].
Qed.

(** *** The tokenizer raises no error *)

(** Whatever the line, its token loop does not end with an exception: it
    ends normally, in an undefined access or by exhausting its budget. *)
Lemma tokens_of_not_throw (fuel n : nat) (d : ascii) (ls : stringstream)
    (token : string) (e : exception) :
  snd (tokens_of fuel n d ls token) <> Throw e.
Proof.
  revert ls token. induction n as [|n IH]; intros ls token; simpl.
  - destruct (good ls); discriminate.
  - destruct (good ls); [|discriminate].
    pose proof (next_token_not_throw fuel d ls token) as Hnt.
    destruct (next_token fuel d ls token) as [[ls' token']|e'|u|]; simpl;
      try discriminate.
    + specialize (IH ls' token').
      destruct (tokens_of fuel n d ls' token') as [ts o]. exact IH.
    + intros _. apply (Hnt e'). reflexivity.
Qed.

(** *** A file without lines *)

(** The transposed load of a file without lines compares nothing: the loop
    that holds the comparison is not entered, whatever the mapper. *)
Lemma TransposeParse_no_line (fuel : nat) (d : ascii) (w : world T M) :
  TransposeParse fuel d [] w =
  (Ok tt, {| inout := {| n_rows := 0; n_cols := 0; elem := fresh (inout w) 0 0 |};
             info := info w;
             events := events w ++ [SetSize 0 0] |}).
Proof. reflexivity. Qed.

(** The non-transposed load of the same file compares with zero. *)
Lemma NonTransposeParse_no_line (fuel : nat) (d : ascii) (w : world T M) :
  Dimensionality (info w) <> 0 ->
  NonTransposeParse fuel d [] w =
  (Throw (DimensionalityMismatch (Dimensionality (info w)) 0), w).
Proof.
  intro H. unfold NonTransposeParse, bind.
  rewrite GetMatrixSize_mismatch; [reflexivity|exact H|exact H].
Qed.

(** *** The tokens of a line and its pieces *)

Lemma extract_found (d : ascii) (s t rest : string) :
  extract d s = (t, Some rest) ->
  s = (t ++ String d rest)%string /\
  (String.length rest < String.length s)%nat /\
  occurrences d s = S (occurrences d rest).
Proof.
  revert t rest. induction s as [|c s IH]; intros t rest; simpl.
  - discriminate.
  - destruct (Ascii.eqb c d) eqn:E.
    + apply Ascii.eqb_eq in E. subst c. intros [= <- <-]. simpl.
      repeat split; lia.
    + destruct (extract d s) as [t0 r0]. intros [= <- ->].
      destruct (IH t0 rest eq_refl) as (-> & Hlen & Hocc). simpl.
      repeat split; [lia|exact Hocc].
Qed.

Lemma extract_end (d : ascii) (s t : string) :
  extract d s = (t, None) -> s = t /\ occurrences d s = O.
Proof.
  revert t. induction s as [|c s IH]; intros t; simpl.
  - intros [= <-]. auto.
  - destruct (Ascii.eqb c d); [discriminate|].
    destruct (extract d s) as [t0 r0]. intros [= <- ->].
    destruct (IH t0 eq_refl) as [-> Hocc]. auto.
Qed.

Lemma split_on_length (d : ascii) (m : nat) (s : string) :
  (String.length s <= m)%nat ->
  List.length (split_on m d s) = S (occurrences d s).
Proof.
  revert s. induction m as [|m IH]; intros s Hlen; simpl.
  - destruct s; [reflexivity|simpl in Hlen; lia].
  - destruct (extract d s) as [t [rest|]] eqn:Hx.
    + destruct (extract_found d s t rest Hx) as (_ & Hshort & ->).
      simpl. rewrite IH by lia. reflexivity.
    + destruct (extract_end d s t Hx) as [_ ->]. reflexivity.
Qed.

Lemma tokens_of_exhausted (fuel n : nat) (d : ascii) (ls : stringstream)
    (token : string) :
  good ls = false -> tokens_of fuel n d ls token = ([], Ok tt).
Proof. intro Hg. destruct n; simpl; rewrite Hg; reflexivity. Qed.

Lemma tokens_of_plain (fuel : nat) (d : ascii) (m : nat) (s : string) (n : nat)
    (token : string) :
  (String.length s <= m)%nat ->
  Forall (fun p => snd (opens_quote (trim p)) = Some false) (split_on m d s) ->
  (List.length (split_on m d s) <= n)%nat ->
  tokens_of fuel n d {| buf := s; eofbit := false; failbit := false |} token
  = (map trim (split_on m d s), Ok tt).
Proof.
  revert s n token. induction m as [|m IH]; intros s n token Hlen Hplain Hn.
  - simpl in *. destruct n as [|n]; [lia|].
    destruct s; [|simpl in Hlen; lia].
    inversion Hplain as [|p ps Hp _]; subst.
    simpl. unfold next_token, getline. simpl.
    rewrite Hp. rewrite tokens_of_exhausted by reflexivity. reflexivity.
  - simpl in Hplain, Hn |- *.
    destruct (extract d s) as [t [rest|]] eqn:Hx.
    + destruct (extract_found d s t rest Hx) as (_ & Hshort & _).
      inversion Hplain as [|p ps Hp Hps]; subst.
      simpl in Hn. destruct n as [|n]; [lia|].
      simpl. unfold next_token, getline. simpl. rewrite Hx, Hp.
      rewrite (IH rest n (trim t)) by (assumption || lia). reflexivity.
    + inversion Hplain as [|p ps Hp _]; subst.
      simpl in Hn. destruct n as [|n]; [lia|].
      simpl. unfold next_token, getline. simpl. rewrite Hx, Hp.
      rewrite tokens_of_exhausted by reflexivity. reflexivity.
Qed.

(** X3.  A line none of whose pieces, once trimmed, begins with a quote
    without ending with one is split at every delimiter: its tokens are its
    pieces, trimmed, in their order, one more than it has delimiters; a
    delimiter at the end of the line is followed by an empty token.  The
    budget only has to cover the number of pieces. *)
Theorem plain_line_tokens (fuel : nat) (d : ascii) (line : string) :
  Forall (fun p => snd (opens_quote (trim p)) = Some false) (pieces d line) ->
  (occurrences d line < fuel)%nat ->
  line_tokens fuel d line = (map trim (pieces d line), Ok tt) /\
  List.length (fst (line_tokens fuel d line)) = S (occurrences d line).
Proof.
  intros Hplain Hfuel.
  assert (List.length (pieces d line) = S (occurrences d line)) as Hcount
    by (apply split_on_length; lia).
  assert (line_tokens fuel d line = (map trim (pieces d line), Ok tt)) as Htok.
  { unfold line_tokens, str, pieces.
    apply tokens_of_plain; [lia|exact Hplain|].
    fold (pieces d line). lia. }
  split; [exact Htok|].
  rewrite Htok. simpl. rewrite length_map. exact Hcount.
Qed.

(** *** A quoted field keeps the text of the line *)

Lemma append_assoc (a b c : string) : ((a ++ b) ++ c = a ++ (b ++ c))%string.
Proof. induction a as [|x a IH]; simpl; [reflexivity|]. rewrite IH. reflexivity. Qed.

Lemma join_quoted_closed (fuel : nat) (d : ascii) (ls : stringstream)
    (token tok : string) :
  not_closed token = Some false -> join_quoted fuel d ls token tok = Ok (ls, tok).
Proof. intro H. destruct fuel; simpl; rewrite H; reflexivity. Qed.

Lemma join_quoted_undefined (fuel : nat) (d : ascii) (ls : stringstream)
    (token tok : string) :
  not_closed token = None ->
  join_quoted fuel d ls token tok
  = Undefined (StringIndexPastEnd token (decr (size token))).
Proof. intro H. destruct fuel; simpl; rewrite H; reflexivity. Qed.

Lemma opens_quote_not_closed (token : string) :
  snd (opens_quote token) = Some true -> not_closed token = Some true.
Proof.
  unfold opens_quote, not_closed.
  destruct (str_at token 0) as [c0|]; [|discriminate].
  destruct (Ascii.eqb c0 dquote); [|discriminate].
  destruct (str_at token (decr (size token))) as [c|]; [|discriminate].
  simpl. auto.
Qed.

Lemma extract_piece (d : ascii) (s t : string) (r : option string) :
  extract d s = (t, r) -> occurrences d t = O.
Proof.
  revert t r. induction s as [|c s IH]; intros t r; simpl.
  - intros [= <- _]. reflexivity.
  - destruct (Ascii.eqb c d) eqn:E; [intros [= <- _]; reflexivity|].
    destruct (extract d s) as [t0 r0]. intros [= <- _]. simpl.
    rewrite E. exact (IH t0 r0 eq_refl).
Qed.

Lemma join_with_cons (d : ascii) (p : string) (ps : list string) (last : string) :
  join_with d (p :: ps ++ [last])
  = (p ++ String d (join_with d (ps ++ [last])))%string.
Proof. destruct ps; reflexivity. Qed.

(** The joining loop, when it returns, has read the pieces that follow in
    the stream up to the first one that ends with a quote, none of the
    pieces before it being empty, and has appended to [tok] the delimiter
    and these pieces with their delimiters; the stream continues behind
    the piece that ends with a quote. *)
Lemma join_quoted_verbatim (fuel : nat) (d : ascii) (ls ls' : stringstream)
    (token tok t : string) :
  not_closed token = Some true ->
  join_quoted fuel d ls token tok = Ok (ls', t) ->
  exists (ps : list string) (last : string),
    Forall (fun p => occurrences d p = O /\ not_closed p = Some true) ps /\
    occurrences d last = O /\ not_closed last = Some false /\
    t = (tok ++ String d (join_with d (ps ++ [last])))%string /\
    ((buf ls = (join_with d (ps ++ [last]) ++ String d (buf ls'))%string /\
      good ls' = true) \/
     (buf ls = join_with d (ps ++ [last]) /\ good ls' = false)).
Proof.
  revert ls token tok. induction fuel as [|fuel IH]; intros ls token tok Hopen; simpl.
  - rewrite Hopen. discriminate.
  - rewrite Hopen. unfold getline. destruct (good ls) eqn:Hg.
    + destruct (extract d (buf ls)) as [p [rest|]] eqn:Hx.
      * destruct (extract_found d _ _ _ Hx) as (Hbuf & _ & _).
        pose proof (extract_piece d _ _ _ Hx) as Hpiece.
        destruct (not_closed p) as [[|]|] eqn:Hp.
        -- intro Hjoin. apply IH in Hjoin; [|exact Hp].
           destruct Hjoin as (ps & last & Hps & Hl0 & Hl1 & -> & Hrest).
           simpl buf in Hrest.
           exists (p :: ps), last.
           split; [constructor; [split; assumption|exact Hps]|].
           split; [exact Hl0|]. split; [exact Hl1|].
           cbn [app]. rewrite join_with_cons. split.
           ++ unfold push_back. rewrite !append_assoc. reflexivity.
           ++ rewrite Hbuf. destruct Hrest as [[-> Hg']|[-> Hg']].
              ** left. split; [|exact Hg']. rewrite append_assoc. reflexivity.
              ** right. split; [reflexivity|exact Hg'].
        -- rewrite join_quoted_closed by exact Hp. intros [= <- <-].
           exists [], p. split; [constructor|].
           split; [exact Hpiece|]. split; [exact Hp|]. split.
           ++ unfold push_back. rewrite append_assoc. reflexivity.
           ++ left. split; [exact Hbuf|reflexivity].
        -- rewrite join_quoted_undefined by exact Hp. discriminate.
      * destruct (extract_end d _ _ Hx) as [Hbuf _].
        pose proof (extract_piece d _ _ _ Hx) as Hpiece.
        destruct (not_closed p) as [[|]|] eqn:Hp.
        -- rewrite join_quoted_exhausted by (reflexivity || exact Hp). discriminate.
        -- rewrite join_quoted_closed by exact Hp. intros [= <- <-].
           exists [], p. split; [constructor|].
           split; [exact Hpiece|]. split; [exact Hp|]. split.
           ++ unfold push_back. rewrite append_assoc. reflexivity.
           ++ right. split; [exact Hbuf|reflexivity].
        -- rewrite join_quoted_undefined by exact Hp. discriminate.
    + rewrite join_quoted_exhausted; [discriminate| |exact Hopen].
      unfold good in *. simpl. rewrite andb_false_r. reflexivity.
Qed.

(** X4.  One round of the tokenizer on a good stream, when it returns a
    token.  Either the first piece, trimmed, does not open a quoted field,
    and the token is that piece, trimmed.  Or it does, and the token is that
    piece, trimmed, then the delimiter, then the pieces that follow in the
    line, as they stand and with their delimiters, up to and including the
    first piece that ends with a quote; none of the pieces before that one
    is empty or ends with a quote, and the stream continues behind it. *)
Theorem quoted_field_verbatim (fuel : nat) (d : ascii) (ls ls' : stringstream)
    (token t : string) :
  good ls = true ->
  next_token fuel d ls token = Ok (ls', t) ->
  let piece := fst (extract d (buf ls)) in
  (snd (opens_quote (trim piece)) = Some false /\ t = trim piece) \/
  (snd (opens_quote (trim piece)) = Some true /\
   exists (rest : string) (ps : list string) (last : string),
     snd (extract d (buf ls)) = Some rest /\
     Forall (fun p => occurrences d p = O /\ not_closed p = Some true) ps /\
     occurrences d last = O /\ not_closed last = Some false /\
     t = (trim piece ++ String d (join_with d (ps ++ [last])))%string /\
     ((rest = (join_with d (ps ++ [last]) ++ String d (buf ls'))%string /\
       good ls' = true) \/
      (rest = join_with d (ps ++ [last]) /\ good ls' = false))).
Proof.
  intros Hg. unfold next_token, getline. rewrite Hg.
  destruct (extract d (buf ls)) as [p [rest|]] eqn:Hx; simpl.
  - destruct (snd (opens_quote (trim p))) as [[|]|] eqn:Hq.
    + intro Hjoin. right. split; [reflexivity|].
      apply join_quoted_verbatim in Hjoin; [|apply opens_quote_not_closed, Hq].
      destruct Hjoin as (ps & last & Hps & Hl0 & Hl1 & Ht & Hrest).
      simpl buf in Hrest.
      exists rest, ps, last. auto 10.
    + intros [= <- <-]. left. auto.
    + discriminate.
  - destruct (snd (opens_quote (trim p))) as [[|]|] eqn:Hq.
    + rewrite join_quoted_exhausted;
        [discriminate|reflexivity|apply opens_quote_not_closed, Hq].
    + intros [= <- <-]. left. auto.
    + discriminate.
Qed.

(** *** What a successful population has done *)













Lemma GetTransposeMatrixSize_scan_returns (fuel : nat) (d : ascii)
    (file unread : list string) (i : nat) (rows : Z) (w w' : world T M)
    (rows' cols' : Z) :
  Z.of_nat i + Z.of_nat (List.length unread) < modulus ->
  GetTransposeMatrixSize_scan fuel d file unread rows (Z.of_nat i) w
  = (Ok (rows', cols'), w') ->
  cols' = Z.of_nat (i + lines_scanned unread) /\
  rows' = match i, unread with
          | O, _ :: rest => snd (GetNonNumericMatSize file rest d)
          | _, _ => rows
          end.
Proof.
  revert i rows w. induction unread as [|line rest IH]; intros i rows w Hi;
    cbn [GetTransposeMatrixSize_scan lines_scanned].
  - unfold ret. intros [= <- <-]. split; [f_equal; lia|]. destruct i; reflexivity.
  - cbn [List.length] in Hi. rewrite incr_small by lia.
    replace (Z.of_nat i + 1) with (Z.of_nat (S i)) by lia.
    unfold bind at 1.
    assert (forall r1 w1,
               (if NeedsFirstPass
                then if size (trim line) =? 0 then ret (r1, Z.of_nat (S i))
                     else token_loop fuel fuel d
                            (fun token dim => map_first_pass token dim ;;; ret (incr dim))
                            (str (trim line)) EmptyString 0 ;;;
                          GetTransposeMatrixSize_scan fuel d file rest r1 (Z.of_nat (S i))
                else GetTransposeMatrixSize_scan fuel d file rest r1 (Z.of_nat (S i))) w1
               = (Ok (rows', cols'), w') ->
               cols' = Z.of_nat
                         (i + (if (NeedsFirstPass && (size (trim line) =? 0))%bool
                               then 1 else S (lines_scanned rest))) /\
               rows' = r1) as Hrest.
    { intros r1 w1. destruct NeedsFirstPass; simpl.
      - destruct (size (trim line) =? 0); simpl.
        + unfold ret. intros [= <- <-]. split; [f_equal; lia|reflexivity].
        + unfold bind at 1.
          destruct (token_loop fuel fuel d _ (str (trim line)) EmptyString 0 w1)
            as [[dim|e|u|] w2]; try discriminate.
          intro Hscan. apply (IH (S i)) in Hscan; [|lia].
          destruct Hscan as [-> ->]. split; [f_equal; lia|reflexivity].
      - intro Hscan. apply (IH (S i)) in Hscan; [|lia].
        destruct Hscan as [-> ->]. split; [f_equal; lia|reflexivity]. }
    destruct i as [|i].
    + change (Z.of_nat 1 =? 1) with true. cbv iota.
      unfold bind at 1, ret at 1.
      destruct (reset_info (snd (GetNonNumericMatSize file rest d)) w)
        as [[[]|e|u|] w1]; try discriminate.
      apply Hrest.
    + replace (Z.of_nat (S (S i)) =? 1) with false
        by (symmetry; apply Z.eqb_neq; lia).
      unfold ret at 1. apply Hrest.
Qed.

Lemma GetTransposeMatrixSize_sizes (fuel : nat) (d : ascii) (file : list string)
    (w w' : world T M) (rows cols : Z) :
  Z.of_nat (List.length file) < modulus ->
  GetTransposeMatrixSize fuel d file w = (Ok (rows, cols), w') ->
  cols = Z.of_nat (lines_scanned file) /\
  rows = match file with
         | [] => 0
         | _ :: rest => snd (GetNonNumericMatSize file rest d)
         end.
Proof.
  intros Hlen. unfold GetTransposeMatrixSize.
  intro Hscan. change 0 with (Z.of_nat O) in Hscan at 2.
  apply GetTransposeMatrixSize_scan_returns in Hscan; [|simpl; lia].
  destruct Hscan as [-> ->]. split; [reflexivity|].
  destruct file; reflexivity.
Qed.


(** X7.  The two orientations discover the same two numbers, swapped:
    whenever both discoveries return on the same file, whatever the mapper
    states they start from, the rows of one are the columns of the other. *)
Theorem orientations_discover_swapped_sizes (fuel fuel' : nat) (d : ascii)
    (file : list string) (w w1 v v1 : world T M) (rows cols rows' cols' : Z) :
  Z.of_nat (List.length file) < modulus ->
  GetMatrixSize fuel d file w = (Ok (rows, cols), w1) ->
  GetTransposeMatrixSize fuel' d file v = (Ok (rows', cols'), v1) ->
  rows' = cols /\ cols' = rows.
Proof.
  intros Hlen H1 H2.
  destruct (GetMatrixSize_sizes fuel d file w w1 rows cols Hlen H1) as [-> ->].
  destruct (GetTransposeMatrixSize_sizes fuel' d file v v1 rows' cols' Hlen H2)
    as [-> ->].
  split; reflexivity.
Qed.

(** X9.  A load of a file with a first line into a mapper whose
    dimensionality is set (not zero) and differs from the one of the data
    ends with the dimensionality mismatch that names both; the data has as
    many dimensions as the file has lines, or, transposed, as
    [GetNonNumericMatSize] finds at the first line.  The non-transposed
    load compares before it reads the delimiter, so it reports the mismatch
    whether or not the constructor assigned one; the transposed load needs
    the delimiter to find the width.  The error comes before any token is
    read: matrix, mapper and log of calls are as before. *)
Theorem load_reports_mismatch (fuel : nat) (this : LoadCSV) (transpose : bool)
    (d : ascii) (line : string) (rest : list string) (w : world T M) :
  inFile this = Some (line :: rest) ->
  (transpose = true -> delim this = Some d) ->
  Z.of_nat (List.length (line :: rest)) < modulus ->
  Dimensionality (info w) <> 0 ->
  Dimensionality (info w) <>
    (if transpose then snd (GetNonNumericMatSize (line :: rest) rest d)
     else Z.of_nat (List.length (line :: rest))) ->
  Load fuel this transpose w =
  (Throw (DimensionalityMismatch (Dimensionality (info w))
            (if transpose then snd (GetNonNumericMatSize (line :: rest) rest d)
             else Z.of_nat (List.length (line :: rest)))), w).
Proof.
  intros Hfile Hdelim Hlen H0 Hne. unfold Load. rewrite Hfile.
  destruct transpose.
  - rewrite (Hdelim eq_refl).
    unfold TransposeParse, bind at 1.
    rewrite (GetTransposeMatrixSize_mismatch fuel d line rest w H0 Hne).
    reflexivity.
  - rewrite <- (count_lines_length (line :: rest)) in Hne |- * by exact Hlen.
    destruct (delim this) as [d'|].
    + unfold NonTransposeParse, bind at 1.
      rewrite (GetMatrixSize_mismatch fuel d' (line :: rest) w H0 Hne).
      reflexivity.
    + unfold bind at 1. rewrite (reset_info_differs _ _ H0 Hne). reflexivity.
Qed.

Lemma discovery_calls_no_hook (fuel : nat) (d : ascii) (file : list string) :
  NeedsFirstPass = false ->
  frames (GetMatrixSize fuel d file) (fun w w' => events w' = events w) /\
  frames (GetTransposeMatrixSize fuel d file) (fun w w' => events w' = events w).
Proof.
  intro Hnone.
  assert (forall w1 w2 w3 : world T M,
             events w2 = events w1 -> events w3 = events w2 ->
             events w3 = events w1) as Htrans by (intros; congruence).
  assert (forall rows, frames (reset_info rows)
                         (fun w w' => events w' = events w)) as Hreset
    by (intros rows w; apply reset_info_events).
  split.
  - assert (forall unread rows cols,
               frames (GetMatrixSize_scan fuel d file unread rows cols)
                 (fun w w' => events w' = events w)) as Hscan.
    { induction unread as [|l unread IH]; intros rows cols; simpl.
      - intro w. reflexivity.
      - rewrite Hnone. apply IH. }
    unfold GetMatrixSize.
    apply frames_bind; [exact Htrans|apply Hreset|intros _].
    apply frames_bind; [exact Htrans|apply Hreset|intros _].
    apply Hscan.
  - assert (forall unread rows cols,
               frames (GetTransposeMatrixSize_scan fuel d file unread rows cols)
                 (fun w w' => events w' = events w)) as Hscan.
    { induction unread as [|l unread IH]; intros rows cols; simpl.
      - intro w. reflexivity.
      - apply frames_bind; [exact Htrans| |].
        + destruct (incr cols =? 1); [|intro w; reflexivity].
          apply frames_bind; [exact Htrans|apply Hreset|intros _ w; reflexivity].
        + intros rows1. rewrite Hnone. apply IH. }
    apply Hscan.
Qed.

(** X10.  With a policy that needs no first pass, dimension discovery hands
    no token to the mapper in either orientation: the log of calls is as
    before however the run ends.  When discovery returns, the sizes are the
    number of lines of the file, empty ones included, and what
    [GetNonNumericMatSize] found at the first line. *)
Theorem discovery_without_first_pass (fuel : nat) (d : ascii) (file : list string)
    (w : world T M) :
  NeedsFirstPass = false ->
  Z.of_nat (List.length file) < modulus ->
  (events (snd (GetMatrixSize fuel d file w)) = events w /\
   forall rows cols w1,
     GetMatrixSize fuel d file w = (Ok (rows, cols), w1) ->
     rows = Z.of_nat (List.length file) /\ cols = first_line_width d file) /\
  (events (snd (GetTransposeMatrixSize fuel d file w)) = events w /\
   forall rows cols w1,
     GetTransposeMatrixSize fuel d file w = (Ok (rows, cols), w1) ->
     rows = first_line_width d file /\ cols = Z.of_nat (List.length file)).
Proof.
  intros Hnone Hlen.
  destruct (discovery_calls_no_hook fuel d file Hnone) as [H1 H2].
  split; (split; [apply H1 || apply H2|]); intros rows cols w1 Hdisc.
  - destruct (GetMatrixSize_sizes fuel d file w w1 rows cols Hlen Hdisc) as [-> ->].
    rewrite (lines_scanned_without_first_pass file Hnone). split; reflexivity.
  - destruct (GetTransposeMatrixSize_sizes fuel d file w w1 rows cols Hlen Hdisc)
      as [-> ->].
    rewrite (lines_scanned_without_first_pass file Hnone). split; reflexivity.
Qed.

Lemma store_out_of_bounds (token : string) (pos row col next r c : Z)
    (w w1 : world T M) :
  (v <- map_string token pos ;; assign row col v ;;; ret next) w
  = (Throw (IndexOutOfBounds r c), w1) ->
  r = row /\ c = col /\ ~ (row < n_rows (inout w) /\ col < n_cols (inout w)).
Proof.
  unfold bind, map_string, assign, ret.
  destruct (MapString token pos (info w)) as [[v|] i']; simpl; [|discriminate].
  destruct ((row <? n_rows (inout w)) && (col <? n_cols (inout w)))%bool eqn:E;
    simpl; [discriminate|].
  destruct check_bounds.
  - intros [= <- <- _]. repeat split.
    intros [H1 H2]. apply Z.ltb_lt in H1, H2. rewrite H1, H2 in E. discriminate.
  - destruct ((0 <=? row + col * n_rows (inout w))
              && (row + col * n_rows (inout w)
                  <? wrap (n_rows (inout w) * n_cols (inout w))))%bool;
      discriminate.
Qed.

(** The bounds error is thrown by the checked access only. *)
Lemma store_bounds_checked (token : string) (pos row col next : Z) :
  only_throws (fun e => match e with
                        | IndexOutOfBounds _ _ => check_bounds = true
                        | _ => True
                        end)
    (v <- map_string token pos ;; assign row col v ;;; ret next).
Proof.
  intros w e. unfold bind, map_string, assign, ret.
  destruct (MapString token pos (info w)) as [[v|] i']; simpl;
    [|intros [= <-]; exact I].
  destruct ((row <? n_rows (inout w)) && (col <? n_cols (inout w)))%bool; simpl;
    [discriminate|].
  destruct check_bounds; [intros [= <-]; reflexivity|].
  destruct ((0 <=? row + col * n_rows (inout w))
            && (row + col * n_rows (inout w)
                <? wrap (n_rows (inout w) * n_cols (inout w))))%bool;
    discriminate.
Qed.

Lemma fill_bounds_checked (fuel : nat) (d : ascii) (width : Z)
    (unread : list string) (k : Z) :
  only_throws (fun e => match e with
                        | IndexOutOfBounds _ _ => check_bounds = true
                        | _ => True
                        end)
    (NonTransposeParse_fill fuel d width unread k) /\
  only_throws (fun e => match e with
                        | IndexOutOfBounds _ _ => check_bounds = true
                        | _ => True
                        end)
    (TransposeParse_fill fuel d width unread k).
Proof.
  split; revert k; induction unread as [|line unread IH]; intros k; simpl.
  - intros w e. discriminate.
  - destruct (size (trim line) =? 0); [intros w e; discriminate|].
    apply only_throws_bind.
    + apply only_throws_token_loop. intros t s. apply store_bounds_checked.
    + intros col. destruct (negb (col =? width)); [|apply IH].
      intros w e [= <-]. exact I.
  - intros w e. discriminate.
  - destruct (size (trim line) =? 0); [intros w e; discriminate|].
    apply only_throws_bind.
    + apply only_throws_token_loop. intros t s. apply store_bounds_checked.
    + intros row. destruct (negb (row =? width)); [|apply IH].
      intros w e [= <-]. exact I.
Qed.

Lemma NonTransposeParse_line_bounds (fuel n : nat) (d : ascii) (row : Z)
    (ls : stringstream) (token : string) (k : nat) (r c : Z) (w w' : world T M) :
  check_bounds = true ->
  row < n_rows (inout w) ->
  Z.of_nat k <= n_cols (inout w) -> n_cols (inout w) < modulus ->
  token_loop fuel n d
    (fun token col => v <- map_string token row ;; assign row col v ;;; ret (incr col))
    ls token (Z.of_nat k) w = (Throw (IndexOutOfBounds r c), w') ->
  r = row /\ c = n_cols (inout w) /\
  n_cols (inout w) < Z.of_nat (k + List.length (fst (tokens_of fuel n d ls token))).
Proof.
  intro Hcb. revert ls token k w.
  induction n as [|n IH]; intros ls token k w Hr Hk Hb; simpl.
  - destruct (good ls); discriminate.
  - destruct (good ls); simpl; [|discriminate].
    destruct (next_token fuel d ls token) as [[ls' token']|e|u|] eqn:Hnext;
      try discriminate; [|destruct (next_token_not_throw _ _ _ _ _ Hnext)].
    unfold bind at 1.
    destruct ((v <- map_string token' row ;; assign row (Z.of_nat k) v ;;;
               ret (incr (Z.of_nat k))) w) as [[c1|e|u|] w1] eqn:Hbody;
      try discriminate.
    + apply store_ok in Hbody; [|left; exact Hcb].
      destruct Hbody as (-> & _ & Hlt & Hnr & Hnc).
      rewrite incr_small by lia.
      replace (Z.of_nat k + 1) with (Z.of_nat (S k)) by lia.
      intro Hloop. apply IH in Hloop; [|rewrite Hnr; exact Hr|lia|lia].
      destruct (tokens_of fuel n d ls' token') as [ts o]. simpl in *.
      destruct Hloop as (-> & -> & Hlen). repeat split; [congruence|lia].
    + intros [= -> <-]. apply store_out_of_bounds in Hbody.
      destruct Hbody as (-> & -> & Hout).
      destruct (tokens_of fuel n d ls' token') as [ts o]. simpl.
      repeat split; lia.
Qed.

Lemma TransposeParse_line_bounds (fuel n : nat) (d : ascii) (col : Z)
    (ls : stringstream) (token : string) (k : nat) (r c : Z) (w w' : world T M) :
  check_bounds = true ->
  col < n_cols (inout w) ->
  Z.of_nat k <= n_rows (inout w) -> n_rows (inout w) < modulus ->
  token_loop fuel n d
    (fun token row => v <- map_string token row ;; assign row col v ;;; ret (incr row))
    ls token (Z.of_nat k) w = (Throw (IndexOutOfBounds r c), w') ->
  r = n_rows (inout w) /\ c = col /\
  n_rows (inout w) < Z.of_nat (k + List.length (fst (tokens_of fuel n d ls token))).
Proof.
  intro Hcb. revert ls token k w.
  induction n as [|n IH]; intros ls token k w Hc Hk Hb; simpl.
  - destruct (good ls); discriminate.
  - destruct (good ls); simpl; [|discriminate].
    destruct (next_token fuel d ls token) as [[ls' token']|e|u|] eqn:Hnext;
      try discriminate; [|destruct (next_token_not_throw _ _ _ _ _ Hnext)].
    unfold bind at 1.
    destruct ((v <- map_string token' (Z.of_nat k) ;; assign (Z.of_nat k) col v ;;;
               ret (incr (Z.of_nat k))) w) as [[c1|e|u|] w1] eqn:Hbody;
      try discriminate.
    + apply store_ok in Hbody; [|left; exact Hcb].
      destruct Hbody as (-> & Hlt & _ & Hnr & Hnc).
      rewrite incr_small by lia.
      replace (Z.of_nat k + 1) with (Z.of_nat (S k)) by lia.
      intro Hloop. apply IH in Hloop; [|rewrite Hnc; exact Hc|lia|lia].
      destruct (tokens_of fuel n d ls' token') as [ts o]. simpl in *.
      destruct Hloop as (-> & -> & Hlen). repeat split; [congruence|lia].
    + intros [= -> <-]. apply store_out_of_bounds in Hbody.
      destruct Hbody as (-> & -> & Hout).
      destruct (tokens_of fuel n d ls' token') as [ts o]. simpl.
      repeat split; lia.
Qed.

Lemma NonTransposeParse_fill_bounds (fuel : nat) (d : ascii) (cols : Z)
    (unread : list string) (i : nat) (r c : Z) (w w' : world T M) :
  check_bounds = true ->
  Z.of_nat i + Z.of_nat (List.length unread) < modulus ->
  n_cols (inout w) = cols -> 0 <= cols < modulus ->
  Z.of_nat (i + first_empty unread) <= n_rows (inout w) ->
  NonTransposeParse_fill fuel d cols unread (Z.of_nat i) w
  = (Throw (IndexOutOfBounds r c), w') ->
  c = cols /\
  exists (j : nat) (line : string),
    r = Z.of_nat (i + j) /\ (j < first_empty unread)%nat /\
    nth_error unread j = Some line /\
    cols < Z.of_nat (List.length (fst (line_tokens fuel d (trim line)))).
Proof.
  intros Hcb Hi Hn Hc. revert i w Hi Hn.
  induction unread as [|l unread IH]; intros i w Hi Hn;
    cbn [NonTransposeParse_fill first_empty].
  - discriminate.
  - cbn [List.length] in Hi.
    destruct (size (trim l) =? 0); [discriminate|].
    intro Hrows. unfold bind at 1.
    pose proof (store_loop_sizes fuel fuel d
                  (fun token col =>
                     v <- map_string token (Z.of_nat i) ;;
                     assign (Z.of_nat i) col v ;;; ret (incr col))
                  (str (trim l)) EmptyString 0 w) as Hsizes.
    destruct (token_loop fuel fuel d _ (str (trim l)) EmptyString 0 w)
      as [[col|e|u|] w1] eqn:Hloop; try discriminate.
    + destruct Hsizes as [Hnr Hnc].
      { intros t k. exists (Z.of_nat i), (Z.of_nat i), k, (incr k). reflexivity. }
      simpl in Hnr, Hnc.
      destruct (negb (col =? cols)); [discriminate|].
      rewrite incr_small by lia.
      replace (Z.of_nat i + 1) with (Z.of_nat (S i)) by lia.
      intro Hfill. apply (IH (S i)) in Hfill; [|lia|congruence|lia].
      destruct Hfill as (-> & j & line & -> & Hj & Hnth & Hlen).
      split; [reflexivity|]. exists (S j), line.
      repeat split; [f_equal; lia|lia|exact Hnth|exact Hlen].
    + intros [= -> <-]. change 0 with (Z.of_nat O) in Hloop at 1.
      apply NonTransposeParse_line_bounds in Hloop; [|exact Hcb|lia|simpl; lia|lia].
      destruct Hloop as (-> & -> & Hlen).
      split; [exact Hn|]. exists O, l.
      repeat split; [f_equal; lia|lia|].
      rewrite <- Hn. exact Hlen.
Qed.

Lemma TransposeParse_fill_bounds (fuel : nat) (d : ascii) (rows : Z)
    (unread : list string) (i : nat) (r c : Z) (w w' : world T M) :
  check_bounds = true ->
  Z.of_nat i + Z.of_nat (List.length unread) < modulus ->
  n_rows (inout w) = rows -> 0 <= rows < modulus ->
  Z.of_nat (i + first_empty unread) <= n_cols (inout w) ->
  TransposeParse_fill fuel d rows unread (Z.of_nat i) w
  = (Throw (IndexOutOfBounds r c), w') ->
  r = rows /\
  exists (j : nat) (line : string),
    c = Z.of_nat (i + j) /\ (j < first_empty unread)%nat /\
    nth_error unread j = Some line /\
    rows < Z.of_nat (List.length (fst (line_tokens fuel d (trim line)))).
Proof.
  intros Hcb Hi Hn Hc. revert i w Hi Hn.
  induction unread as [|l unread IH]; intros i w Hi Hn;
    cbn [TransposeParse_fill first_empty].
  - discriminate.
  - cbn [List.length] in Hi.
    destruct (size (trim l) =? 0); [discriminate|].
    intro Hcols. unfold bind at 1.
    pose proof (store_loop_sizes fuel fuel d
                  (fun token row =>
                     v <- map_string token row ;;
                     assign row (Z.of_nat i) v ;;; ret (incr row))
                  (str (trim l)) EmptyString 0 w) as Hsizes.
    destruct (token_loop fuel fuel d _ (str (trim l)) EmptyString 0 w)
      as [[row|e|u|] w1] eqn:Hloop; try discriminate.
    + destruct Hsizes as [Hnr Hnc].
      { intros t k. exists k, k, (Z.of_nat i), (incr k). reflexivity. }
      simpl in Hnr, Hnc.
      destruct (negb (row =? rows)); [discriminate|].
      rewrite incr_small by lia.
      replace (Z.of_nat i + 1) with (Z.of_nat (S i)) by lia.
      intro Hfill. apply (IH (S i)) in Hfill; [|lia|congruence|lia].
      destruct Hfill as (-> & j & line & -> & Hj & Hnth & Hlen).
      split; [reflexivity|]. exists (S j), line.
      repeat split; [f_equal; lia|lia|exact Hnth|exact Hlen].
    + intros [= -> <-]. change 0 with (Z.of_nat O) in Hloop at 1.
      apply TransposeParse_line_bounds in Hloop; [|exact Hcb|lia|simpl; lia|lia].
      destruct Hloop as (-> & -> & Hlen).
      split; [exact Hn|]. exists O, l.
      repeat split; [f_equal; lia|lia|].
      rewrite <- Hn. exact Hlen.
Qed.

(** X11.  A bounds error that ends a non-transposed load is the report of a
    line with too many fields: it names the column just past the last one,
    and its row is the index of a line before the first empty one whose
    token loop hands on more than [cols] tokens. *)
Theorem out_of_bounds_is_excess_field (fuel : nat) (d : ascii) (file : list string)
    (w w1 : world T M) (rows cols r c : Z) :
  GetMatrixSize fuel d file w = (Ok (rows, cols), w1) ->
  0 <= cols < modulus ->
  Z.of_nat (List.length file) < modulus ->
  fst (NonTransposeParse fuel d file w) = Throw (IndexOutOfBounds r c) ->
  c = cols /\
  exists (j : nat) (line : string),
    r = Z.of_nat j /\ (j < first_empty file)%nat /\
    nth_error file j = Some line /\
    cols < Z.of_nat (List.length (fst (line_tokens fuel d (trim line)))).
Proof.
  intros Hdisc Hc Hlen. unfold NonTransposeParse, bind at 1. rewrite Hdisc.
  unfold bind at 1, set_size. cbn [fst snd].
  match goal with
  | |- fst (?m ?x) = _ -> _ => destruct (m x) as [o w'] eqn:Hfill
  end.
  simpl. intros ->.
  pose proof (proj1 (fill_bounds_checked fuel d cols file 0) _ _
                (f_equal fst Hfill)) as Hcb.
  change 0 with (Z.of_nat O) in Hfill at 1.
  apply NonTransposeParse_fill_bounds in Hfill;
    [exact Hfill|exact Hcb|simpl; lia|reflexivity|exact Hc|].
  destruct (GetMatrixSize_sizes fuel d file w w1 rows cols Hlen Hdisc) as [-> _].
  pose proof (first_empty_le_scanned file). simpl. lia.
Qed.

(** X12.  The same for a transposed load: the bounds error names the row
    just past the last one, and its column is the index of a line before the
    first empty one whose token loop hands on more than [rows] tokens. *)
Theorem transposed_out_of_bounds_is_excess_field (fuel : nat) (d : ascii)
    (file : list string) (w w1 : world T M) (rows cols r c : Z) :
  GetTransposeMatrixSize fuel d file w = (Ok (rows, cols), w1) ->
  0 <= rows < modulus ->
  Z.of_nat (List.length file) < modulus ->
  fst (TransposeParse fuel d file w) = Throw (IndexOutOfBounds r c) ->
  r = rows /\
  exists (j : nat) (line : string),
    c = Z.of_nat j /\ (j < first_empty file)%nat /\
    nth_error file j = Some line /\
    rows < Z.of_nat (List.length (fst (line_tokens fuel d (trim line)))).
Proof.
  intros Hdisc Hr Hlen. unfold TransposeParse, bind at 1. rewrite Hdisc.
  unfold bind at 1, set_size. cbn [fst snd].
  match goal with
  | |- fst (?m ?x) = _ -> _ => destruct (m x) as [o w'] eqn:Hfill
  end.
  simpl. intros ->.
  pose proof (proj2 (fill_bounds_checked fuel d rows file 0) _ _
                (f_equal fst Hfill)) as Hcb.
  change 0 with (Z.of_nat O) in Hfill at 1.
  apply TransposeParse_fill_bounds in Hfill;
    [exact Hfill|exact Hcb|simpl; lia|reflexivity|exact Hr|].
  destruct (GetTransposeMatrixSize_sizes fuel d file w w1 rows cols Hlen Hdisc)
    as [-> _].
  pose proof (first_empty_le_scanned file). simpl. lia.
Qed.

Lemma writes_cols_refl (P : Z -> Prop) (w : world T M) : writes_cols P w w.
Proof.
  repeat split; try reflexivity.
  exists []. rewrite app_nil_r. split; [reflexivity|]. intros row col [].
Qed.

Lemma writes_cols_trans (P : Z -> Prop) (w1 w2 w3 : world T M) :
  writes_cols P w1 w2 -> writes_cols P w2 w3 -> writes_cols P w1 w3.
Proof.
  intros (Hr1 & Hc1 & He1 & es1 & Hv1 & Ha1) (Hr2 & Hc2 & He2 & es2 & Hv2 & Ha2).
  repeat split; try congruence.
  - intros r c Hn. rewrite He2, He1 by assumption. reflexivity.
  - exists (es1 ++ es2). split.
    + rewrite Hv2, Hv1, app_assoc. reflexivity.
    + intros row col Hin. apply in_app_or in Hin. destruct Hin; eauto.
Qed.

Lemma writes_cols_mono (P Q : Z -> Prop) (w w' : world T M) :
  (forall c, P c -> Q c) -> writes_cols P w w' -> writes_cols Q w w'.
Proof.
  intros Hpq (Hr & Hc & He & es & Hv & Ha).
  repeat split; try assumption.
  - intros r c Hn. apply He. intro Hp. apply Hn, Hpq, Hp.
  - exists es. split; [assumption|]. intros row col Hin. eapply Hpq, Ha, Hin.
Qed.

(** With the bounds check, one token of population touches the column it
    names and no other. *)
Lemma store_writes_col (token : string) (pos row col : Z) (next : Z) :
  check_bounds = true ->
  frames (v <- map_string token pos ;; assign row col v ;;; ret next)
         (writes_cols (fun c => c = col)).
Proof.
  intros Hcb w. unfold bind, map_string, assign, ret.
  destruct (MapString token pos (info w)) as [[v|] i']; simpl.
  - destruct ((row <? n_rows (inout w)) && (col <? n_cols (inout w)))%bool; simpl.
    + repeat split; try reflexivity.
      * intros r c Hn. simpl.
        destruct (c =? col) eqn:E; [apply Z.eqb_eq in E; contradiction|].
        rewrite andb_false_r. reflexivity.
      * exists [MapStringCall token pos; Assign row col]. split.
        -- unfold record_event. simpl. rewrite <- app_assoc. reflexivity.
        -- intros row' col' [H|[H|[]]]; [discriminate|].
           injection H as _ <-. reflexivity.
    + rewrite Hcb. simpl. repeat split; try reflexivity.
      exists [MapStringCall token pos]. split; [reflexivity|].
      intros row' col' [H|[]]; discriminate.
  - repeat split; try reflexivity.
    exists [MapStringCall token pos]. split; [reflexivity|].
    intros row' col' [H|[]]; discriminate.
Qed.

Lemma TransposeParse_fill_cols (fuel : nat) (d : ascii) (rows : Z)
    (unread : list string) (i : nat) :
  check_bounds = true ->
  Z.of_nat i + Z.of_nat (List.length unread) < modulus ->
  frames (TransposeParse_fill fuel d rows unread (Z.of_nat i))
         (writes_cols (fun c => Z.of_nat i <= c < Z.of_nat (i + first_empty unread))).
Proof.
  intro Hcb. revert i. induction unread as [|line rest IH]; intros i Hi; simpl.
  - apply frames_ret, writes_cols_refl.
  - cbn [List.length] in Hi.
    destruct (size (trim line) =? 0); [apply frames_ret, writes_cols_refl|].
    apply frames_bind; [apply writes_cols_trans| |].
    + apply frames_weaken with (R := writes_cols (fun c => c = Z.of_nat i)).
      * intros w w'. apply writes_cols_mono. intros c ->. lia.
      * apply frames_token_loop;
          [apply writes_cols_refl|apply writes_cols_trans|].
        intros t s. apply store_writes_col, Hcb.
    + intros row. destruct (negb (row =? rows)).
      * apply frames_throw, writes_cols_refl.
      * rewrite incr_small by lia.
        replace (Z.of_nat i + 1) with (Z.of_nat (S i)) by lia.
        apply frames_weaken
          with (R := writes_cols
                       (fun c => Z.of_nat (S i) <= c < Z.of_nat (S i + first_empty rest))).
        -- intros w w'. apply writes_cols_mono. intros c. lia.
        -- apply IH. lia.
Qed.

Lemma lines_scanned_past_empty (file : list string) :
  (first_empty file < List.length file)%nat ->
  (S (first_empty file) <= lines_scanned file)%nat.
Proof.
  induction file as [|l file IH]; simpl; [lia|].
  destruct (size (trim l) =? 0).
  - destruct NeedsFirstPass; simpl; lia.
  - rewrite andb_false_r. intro H. apply Nat.succ_lt_mono in H.
    specialize (IH H). lia.
Qed.

(** X13.  With the bounds check of the element access, a transposed load
    whose discovery returns [rows] and [cols] sizes the matrix so and then
    assigns to the columns before the first empty line, at index [k], only:
    however the load ends, every column from [k] on holds what [set_size]
    left there, and when the file has an empty line there is at least one
    such column.  (Without the check a token past the last row is stored
    into the next column.) *)
Theorem columns_from_empty_line_left_as_allocated (fuel : nat) (d : ascii)
    (file : list string) (w w1 : world T M) (rows cols : Z) :
  check_bounds = true ->
  Z.of_nat (List.length file) < modulus ->
  GetTransposeMatrixSize fuel d file w = (Ok (rows, cols), w1) ->
  n_rows (inout (snd (TransposeParse fuel d file w))) = rows /\
  n_cols (inout (snd (TransposeParse fuel d file w))) = cols /\
  Z.of_nat (first_empty file) <= cols /\
  ((first_empty file < List.length file)%nat ->
   Z.of_nat (first_empty file) + 1 <= cols) /\
  (exists es,
     events (snd (TransposeParse fuel d file w))
     = events w1 ++ SetSize rows cols :: es /\
     forall row col, In (Assign row col) es ->
       0 <= col < Z.of_nat (first_empty file)) /\
  (forall row col, Z.of_nat (first_empty file) <= col ->
     elem (inout (snd (TransposeParse fuel d file w))) row col
     = fresh (inout w) rows cols row col).
Proof.
  intros Hcb Hlen Hdisc.
  destruct (GetTransposeMatrixSize_sizes fuel d file w w1 rows cols Hlen Hdisc)
    as [Hcols _].
  pose proof (GetTransposeMatrixSize_discovers fuel d file w) as [Hsame _].
  rewrite Hdisc in Hsame. simpl in Hsame.
  set (w2 := {| inout := {| n_rows := rows; n_cols := cols;
                            elem := fresh (inout w1) rows cols |};
                info := info w1;
                events := record_event (SetSize rows cols) w1 |}).
  assert (TransposeParse fuel d file w =
          TransposeParse_fill fuel d rows file 0 w2) as Hrun.
  { unfold TransposeParse, bind. rewrite Hdisc. reflexivity. }
  rewrite Hrun.
  pose proof (TransposeParse_fill_cols fuel d rows file O Hcb
                ltac:(simpl; lia) w2) as (Hr & Hc & He & es & Hv & Ha).
  change (Z.of_nat 0) with 0 in *.
  destruct (TransposeParse_fill fuel d rows file 0 w2) as [o w3].
  subst w2. cbn [fst snd inout info n_rows n_cols elem events] in *.
  split; [exact Hr|]. split; [exact Hc|]. split; [|split; [|split]].
  - pose proof (first_empty_le_scanned file). lia.
  - intro Hlt. pose proof (lines_scanned_past_empty file Hlt). lia.
  - exists es. split.
    + rewrite Hv. unfold record_event. rewrite <- app_assoc. reflexivity.
    + intros row col Hin. specialize (Ha row col Hin). simpl in Ha. lia.
  - intros row col Hcol. rewrite He by (simpl; lia).
    rewrite Hsame. reflexivity.
Qed.

Lemma rectangular_tail (fuel : nat) (d : ascii) (width : Z) (l : string)
    (rest : list string) :
  (size (trim l) =? 0) = false ->
  rectangular fuel d width (l :: rest) ->
  (snd (line_tokens fuel d (trim l)) = Ok tt /\
   Z.of_nat (List.length (fst (line_tokens fuel d (trim l)))) = width) /\
  rectangular fuel d width rest.
Proof.
  unfold rectangular. simpl. intros ->. simpl. intro H.
  inversion H; subst. split; assumption.
Qed.

Lemma GetMatrixSize_scan_no_pass (fuel : nat) (d : ascii)
    (file unread : list string) (rows cols : Z) (w : world T M) :
  NeedsFirstPass = false ->
  exists dimen, GetMatrixSize_scan fuel d file unread rows cols w = (Ok dimen, w).
Proof.
  intro Hfp. revert rows cols.
  induction unread as [|l unread IH]; intros rows cols; cbn [GetMatrixSize_scan].
  - eexists. reflexivity.
  - rewrite Hfp. apply IH.
Qed.

Lemma GetMatrixSize_scan_returns_ok (fuel : nat) (d : ascii) (width : Z)
    (file unread : list string) (rows cols : Z) (w : world T M) :
  rectangular fuel d width unread ->
  exists dimen w', GetMatrixSize_scan fuel d file unread rows cols w = (Ok dimen, w').
Proof.
  destruct NeedsFirstPass eqn:Hfp.
  2:{ intros _.
      destruct (GetMatrixSize_scan_no_pass fuel d file unread rows cols w Hfp)
        as [dimen H].
      exists dimen, w. exact H. }
  revert rows cols w. induction unread as [|l unread IH]; intros rows cols w Hrect;
    cbn [GetMatrixSize_scan].
  - eexists. eexists. reflexivity.
  - rewrite Hfp.
    destruct (size (trim l) =? 0) eqn:Hsize; [eexists; eexists; reflexivity|].
    destruct (rectangular_tail fuel d width l unread Hsize Hrect) as [[Hok _] Hrest].
    unfold bind at 1.
    destruct (first_pass_loop_by_line fuel fuel d (decr (incr rows))
                (str (trim l)) EmptyString O w) as [_ Hend].
    unfold line_tokens in Hok. rewrite Hok in Hend.
    destruct (token_loop fuel fuel d _ (str (trim l)) EmptyString tt w)
      as [[[]|e|u|] w1]; simpl in Hend; try contradiction.
    apply IH, Hrest.
Qed.

Lemma reset_info_returns (rows : Z) (w : world T M) :
  lawful_mapper ->
  Dimensionality (info w) = 0 \/ Dimensionality (info w) = rows ->
  exists w', reset_info rows w = (Ok tt, w') /\ Dimensionality (info w') = rows.
Proof.
  intros Hlaw Hdim. unfold reset_info.
  destruct (Dimensionality (info w) =? 0) eqn:E0.
  - eexists. split; [reflexivity|]. simpl. apply (proj1 Hlaw).
  - apply Z.eqb_neq in E0. destruct Hdim as [H|H]; [contradiction|].
    rewrite H, Z.eqb_refl. simpl. exists w. split; [reflexivity|exact H].
Qed.

Lemma GetMatrixSize_returns_ok (fuel : nat) (d : ascii) (width : Z)
    (file : list string) (w : world T M) :
  lawful_mapper ->
  Z.of_nat (List.length file) < modulus ->
  Dimensionality (info w) = 0 \/
  Dimensionality (info w) = Z.of_nat (List.length file) ->
  rectangular fuel d width file ->
  exists dimen w', GetMatrixSize fuel d file w = (Ok dimen, w').
Proof.
  intros Hlaw Hlen Hdim Hrect. unfold GetMatrixSize.
  rewrite (count_lines_length file Hlen). unfold bind.
  destruct (reset_info_returns _ w Hlaw Hdim) as (w1 & -> & Hd1).
  destruct (reset_info_returns _ w1 Hlaw (or_intror Hd1)) as (w2 & -> & _).
  apply (GetMatrixSize_scan_returns_ok fuel d width), Hrect.
Qed.

Lemma GetTransposeMatrixSize_scan_later_ok (fuel : nat) (d : ascii) (width : Z)
    (file unread : list string) (i : nat) (rows : Z) (w : world T M) :
  Z.of_nat (S i) + Z.of_nat (List.length unread) < modulus ->
  (NeedsFirstPass = true -> rectangular fuel d width unread) ->
  exists dimen w',
    GetTransposeMatrixSize_scan fuel d file unread rows (Z.of_nat (S i)) w
    = (Ok dimen, w').
Proof.
  revert i w. induction unread as [|l unread IH]; intros i w Hi Hrect;
    cbn [GetTransposeMatrixSize_scan].
  - eexists. eexists. reflexivity.
  - cbn [List.length] in Hi. rewrite incr_small by lia.
    replace (Z.of_nat (S i) + 1 =? 1) with false
      by (symmetry; apply Z.eqb_neq; lia).
    unfold bind at 1, ret at 1.
    replace (Z.of_nat (S i) + 1) with (Z.of_nat (S (S i))) by lia.
    destruct NeedsFirstPass eqn:Hfp.
    + destruct (size (trim l) =? 0) eqn:Hsize; [eexists; eexists; reflexivity|].
      destruct (rectangular_tail fuel d width l unread Hsize (Hrect eq_refl))
        as [[Hok _] Hrest].
      unfold bind at 1.
      destruct (first_pass_loop_by_field fuel fuel d
                  (str (trim l)) EmptyString O w) as [_ Hend].
      change (wrap (Z.of_nat 0)) with 0 in Hend.
      unfold line_tokens in Hok. rewrite Hok in Hend.
      destruct (token_loop fuel fuel d _ (str (trim l)) EmptyString 0 w)
        as [[dim|e|u|] w1]; simpl in Hend; try contradiction.
      apply (IH (S i)); [lia|intros _; exact Hrest].
    + apply (IH (S i)); [lia|intro H; discriminate].
Qed.

Lemma GetTransposeMatrixSize_returns_ok (fuel : nat) (d : ascii)
    (file : list string) (w : world T M) :
  lawful_mapper ->
  Z.of_nat (List.length file) < modulus ->
  Dimensionality (info w) = 0 \/
  Dimensionality (info w) = first_line_width d file ->
  rectangular fuel d (first_line_width d file) file ->
  exists dimen w', GetTransposeMatrixSize fuel d file w = (Ok dimen, w').
Proof.
  intros Hlaw Hlen Hdim Hrect. unfold GetTransposeMatrixSize.
  destruct file as [|l rest]; cbn [GetTransposeMatrixSize_scan].
  - eexists. eexists. reflexivity.
  - change (incr 0 =? 1) with true. cbv iota.
    unfold bind at 1 2, ret at 1. simpl in Hdim.
    destruct (reset_info_returns _ w Hlaw Hdim) as (w1 & -> & _).
    change (incr 0) with (Z.of_nat 1). cbn [List.length] in Hlen.
    destruct NeedsFirstPass eqn:Hfp.
    + destruct (size (trim l) =? 0) eqn:Hsize; [eexists; eexists; reflexivity|].
      destruct (rectangular_tail fuel d _ l rest Hsize Hrect) as [[Hok _] Hrest].
      unfold bind at 1.
      destruct (first_pass_loop_by_field fuel fuel d
                  (str (trim l)) EmptyString O w1) as [_ Hend].
      change (wrap (Z.of_nat 0)) with 0 in Hend.
      unfold line_tokens in Hok. rewrite Hok in Hend.
      destruct (token_loop fuel fuel d _ (str (trim l)) EmptyString 0 w1)
        as [[dim|e|u|] w2]; simpl in Hend; try contradiction.
      apply (GetTransposeMatrixSize_scan_later_ok fuel d (first_line_width d (l :: rest)));
        [lia|intros _; exact Hrest].
    + apply (GetTransposeMatrixSize_scan_later_ok fuel d (first_line_width d (l :: rest)));
        [lia|intro H; congruence].
Qed.

Lemma store_returns (token : string) (pos row col next : Z) (w : world T M) :
  (forall t p m, fst (MapString t p m) <> None) ->
  row < n_rows (inout w) -> col < n_cols (inout w) ->
  fst ((v <- map_string token pos ;; assign row col v ;;; ret next) w) = Ok next.
Proof.
  intros Htotal Hr Hc. unfold bind, map_string, assign, ret.
  pose proof (Htotal token pos (info w)) as Hsome.
  destruct (MapString token pos (info w)) as [[v|] i']; simpl in *; [|congruence].
  apply Z.ltb_lt in Hr, Hc. rewrite Hr, Hc. reflexivity.
Qed.

Lemma NonTransposeParse_line_returns (fuel n : nat) (d : ascii) (row : Z)
    (ls : stringstream) (token : string) (k : nat) (w : world T M) :
  (forall t p m, fst (MapString t p m) <> None) ->
  snd (tokens_of fuel n d ls token) = Ok tt ->
  row < n_rows (inout w) ->
  Z.of_nat (k + List.length (fst (tokens_of fuel n d ls token))) <= n_cols (inout w) ->
  n_cols (inout w) < modulus ->
  fst (token_loop fuel n d
         (fun token col => v <- map_string token row ;; assign row col v ;;;
                           ret (incr col))
         ls token (Z.of_nat k) w)
  = Ok (Z.of_nat (k + List.length (fst (tokens_of fuel n d ls token)))).
Proof.
  intro Htotal. revert ls token k w.
  induction n as [|n IH]; intros ls token k w; simpl.
  - destruct (good ls); [discriminate|]. intros _ _ _ _. simpl. f_equal. f_equal. lia.
  - destruct (good ls); simpl; [|intros _ _ _ _; f_equal; f_equal; lia].
    destruct (next_token fuel d ls token) as [[ls' token']|e|u|]; try discriminate.
    destruct (tokens_of fuel n d ls' token') as [ts o] eqn:Htok. simpl.
    intros Ho Hr Hk Hb. unfold bind at 1.
    pose proof (store_returns token' row row (Z.of_nat k) (incr (Z.of_nat k)) w
                  Htotal Hr ltac:(lia)) as Hstore.
    destruct ((v <- map_string token' row ;; assign row (Z.of_nat k) v ;;;
               ret (incr (Z.of_nat k))) w) as [o1 w1] eqn:Hbody.
    simpl in Hstore. subst o1.
    apply store_ok_index in Hbody. destruct Hbody as (_ & Hnr & Hnc & _).
    rewrite incr_small by lia.
    replace (Z.of_nat k + 1) with (Z.of_nat (S k)) by lia.
    specialize (IH ls' token' (S k) w1). rewrite Htok in IH. cbn [fst snd] in IH.
    rewrite IH; [f_equal; f_equal; lia|exact Ho|lia|lia|lia].
Qed.

Lemma TransposeParse_line_returns (fuel n : nat) (d : ascii) (col : Z)
    (ls : stringstream) (token : string) (k : nat) (w : world T M) :
  (forall t p m, fst (MapString t p m) <> None) ->
  snd (tokens_of fuel n d ls token) = Ok tt ->
  col < n_cols (inout w) ->
  Z.of_nat (k + List.length (fst (tokens_of fuel n d ls token))) <= n_rows (inout w) ->
  n_rows (inout w) < modulus ->
  fst (token_loop fuel n d
         (fun token row => v <- map_string token row ;; assign row col v ;;;
                           ret (incr row))
         ls token (Z.of_nat k) w)
  = Ok (Z.of_nat (k + List.length (fst (tokens_of fuel n d ls token)))).
Proof.
  intro Htotal. revert ls token k w.
  induction n as [|n IH]; intros ls token k w; simpl.
  - destruct (good ls); [discriminate|]. intros _ _ _ _. simpl. f_equal. f_equal. lia.
  - destruct (good ls); simpl; [|intros _ _ _ _; f_equal; f_equal; lia].
    destruct (next_token fuel d ls token) as [[ls' token']|e|u|]; try discriminate.
    destruct (tokens_of fuel n d ls' token') as [ts o] eqn:Htok. simpl.
    intros Ho Hc Hk Hb. unfold bind at 1.
    pose proof (store_returns token' (Z.of_nat k) (Z.of_nat k) col
                  (incr (Z.of_nat k)) w Htotal ltac:(lia) Hc) as Hstore.
    destruct ((v <- map_string token' (Z.of_nat k) ;; assign (Z.of_nat k) col v ;;;
               ret (incr (Z.of_nat k))) w) as [o1 w1] eqn:Hbody.
    simpl in Hstore. subst o1.
    apply store_ok_index in Hbody. destruct Hbody as (_ & Hnr & Hnc & _).
    rewrite incr_small by lia.
    replace (Z.of_nat k + 1) with (Z.of_nat (S k)) by lia.
    specialize (IH ls' token' (S k) w1). rewrite Htok in IH. cbn [fst snd] in IH.
    rewrite IH; [f_equal; f_equal; lia|exact Ho|lia|lia|lia].
Qed.

Lemma NonTransposeParse_fill_returns (fuel : nat) (d : ascii) (cols : Z)
    (unread : list string) (i : nat) (w : world T M) :
  (forall t p m, fst (MapString t p m) <> None) ->
  Z.of_nat i + Z.of_nat (List.length unread) < modulus ->
  n_cols (inout w) = cols -> cols < modulus ->
  Z.of_nat (i + first_empty unread) <= n_rows (inout w) ->
  rectangular fuel d cols unread ->
  fst (NonTransposeParse_fill fuel d cols unread (Z.of_nat i) w) = Ok tt.
Proof.
  intros Htotal Hi Hn Hc. revert i w Hi Hn.
  induction unread as [|l unread IH]; intros i w Hi Hn;
    cbn [NonTransposeParse_fill first_empty].
  - reflexivity.
  - cbn [List.length] in Hi.
    destruct (size (trim l) =? 0) eqn:Hsize; [reflexivity|].
    intros Hrows Hrect.
    destruct (rectangular_tail fuel d cols l unread Hsize Hrect) as [[Hok Hw] Hrest].
    unfold line_tokens in Hok, Hw. unfold bind at 1.
    pose proof (NonTransposeParse_line_returns fuel fuel d (Z.of_nat i)
                  (str (trim l)) EmptyString O w Htotal Hok
                  ltac:(lia) ltac:(cbn [Nat.add]; lia) ltac:(lia)) as Hline.
    cbn [Nat.add] in Hline. rewrite Hw in Hline.
    change (Z.of_nat 0) with 0 in Hline.
    destruct (store_loop_sizes fuel fuel d
                (fun token col =>
                   v <- map_string token (Z.of_nat i) ;;
                   assign (Z.of_nat i) col v ;;; ret (incr col))
                (str (trim l)) EmptyString 0 w) as [Hnr Hnc].
    { intros t k. exists (Z.of_nat i), (Z.of_nat i), k, (incr k). reflexivity. }
    destruct (token_loop fuel fuel d _ (str (trim l)) EmptyString 0 w) as [o w1].
    cbn [fst snd] in Hline, Hnr, Hnc. subst o.
    rewrite Z.eqb_refl. cbn [negb].
    rewrite incr_small by lia.
    replace (Z.of_nat i + 1) with (Z.of_nat (S i)) by lia.
    apply (IH (S i)); [lia|congruence|lia|exact Hrest].
Qed.

Lemma TransposeParse_fill_returns (fuel : nat) (d : ascii) (rows : Z)
    (unread : list string) (i : nat) (w : world T M) :
  (forall t p m, fst (MapString t p m) <> None) ->
  Z.of_nat i + Z.of_nat (List.length unread) < modulus ->
  n_rows (inout w) = rows -> rows < modulus ->
  Z.of_nat (i + first_empty unread) <= n_cols (inout w) ->
  rectangular fuel d rows unread ->
  fst (TransposeParse_fill fuel d rows unread (Z.of_nat i) w) = Ok tt.
Proof.
  intros Htotal Hi Hn Hc. revert i w Hi Hn.
  induction unread as [|l unread IH]; intros i w Hi Hn;
    cbn [TransposeParse_fill first_empty].
  - reflexivity.
  - cbn [List.length] in Hi.
    destruct (size (trim l) =? 0) eqn:Hsize; [reflexivity|].
    intros Hcols Hrect.
    destruct (rectangular_tail fuel d rows l unread Hsize Hrect) as [[Hok Hw] Hrest].
    unfold line_tokens in Hok, Hw. unfold bind at 1.
    pose proof (TransposeParse_line_returns fuel fuel d (Z.of_nat i)
                  (str (trim l)) EmptyString O w Htotal Hok
                  ltac:(lia) ltac:(cbn [Nat.add]; lia) ltac:(lia)) as Hline.
    cbn [Nat.add] in Hline. rewrite Hw in Hline.
    change (Z.of_nat 0) with 0 in Hline.
    destruct (store_loop_sizes fuel fuel d
                (fun token row =>
                   v <- map_string token row ;;
                   assign row (Z.of_nat i) v ;;; ret (incr row))
                (str (trim l)) EmptyString 0 w) as [Hnr Hnc].
    { intros t k. exists k, k, (Z.of_nat i), (incr k). reflexivity. }
    destruct (token_loop fuel fuel d _ (str (trim l)) EmptyString 0 w) as [o w1].
    cbn [fst snd] in Hline, Hnr, Hnc. subst o.
    rewrite Z.eqb_refl. cbn [negb].
    rewrite incr_small by lia.
    replace (Z.of_nat i + 1) with (Z.of_nat (S i)) by lia.
    apply (IH (S i)); [lia|congruence|lia|exact Hrest].
Qed.

(** X14.  A rectangular file loads.  Take an open file read with delimiter
    [d], a mapper that keeps the dimensionality it is given, rejects no
    token and is either unset (dimensionality zero) or set to the
    dimensionality of the data, and let every line before the first empty
    one tokenize normally into as many tokens as [GetNonNumericMatSize]
    finds at the first line.  Then [Load] returns normally, in either
    orientation. *)
Theorem rectangular_file_loads (fuel : nat) (this : LoadCSV) (transpose : bool)
    (d : ascii) (file : list string) (w : world T M) :
  inFile this = Some file -> delim this = Some d ->
  lawful_mapper ->
  (forall t p m, fst (MapString t p m) <> None) ->
  Z.of_nat (List.length file) < modulus ->
  first_line_width d file < modulus ->
  Dimensionality (info w) = 0 \/
  Dimensionality (info w) = (if transpose then first_line_width d file
                             else Z.of_nat (List.length file)) ->
  rectangular fuel d (first_line_width d file) file ->
  fst (Load fuel this transpose w) = Ok tt.
Proof.
  intros Hfile Hdelim Hlaw Htotal Hlen Hwidth Hdim Hrect.
  unfold Load. rewrite Hfile, Hdelim. destruct transpose.
  - destruct (GetTransposeMatrixSize_returns_ok fuel d file w Hlaw Hlen Hdim Hrect)
      as ([rows cols] & w1 & Hdisc).
    destruct (GetTransposeMatrixSize_sizes fuel d file w w1 rows cols Hlen Hdisc)
      as [Hcols Hrows].
    fold (first_line_width d file) in Hrows.
    unfold TransposeParse, bind at 1. rewrite Hdisc.
    unfold bind at 1, set_size. cbn [fst snd].
    change 0 with (Z.of_nat O) at 1.
    apply TransposeParse_fill_returns;
      [exact Htotal|simpl; lia|reflexivity|lia| |rewrite Hrows; exact Hrect].
    pose proof (first_empty_le_scanned file). simpl. lia.
  - destruct (GetMatrixSize_returns_ok fuel d (first_line_width d file) file w
                Hlaw Hlen Hdim Hrect) as ([rows cols] & w1 & Hdisc).
    destruct (GetMatrixSize_sizes fuel d file w w1 rows cols Hlen Hdisc)
      as [Hrows Hcols].
    fold (first_line_width d file) in Hcols.
    unfold NonTransposeParse, bind at 1. rewrite Hdisc.
    unfold bind at 1, set_size. cbn [fst snd].
    change 0 with (Z.of_nat O) at 1.
    apply NonTransposeParse_fill_returns;
      [exact Htotal|simpl; lia|reflexivity|lia| |rewrite Hcols; exact Hrect].
    pose proof (first_empty_le_scanned file). simpl. lia.
Qed.

Lemma not_closed_undefined (token : string) :
  not_closed token = None -> token = EmptyString.
Proof.
  destruct token as [|c t]; [reflexivity|].
  assert (0 < size (String c t)) as Hpos by (unfold size; simpl String.length; lia).
  pose proof (decr_size_in_range _ Hpos) as Hr.
  destruct (str_at_in_range (String c t) (decr (size (String c t))) ltac:(lia))
    as [x Hx].
  unfold not_closed. rewrite Hx. discriminate.
Qed.

Lemma join_quoted_undefined_empty (fuel : nat) (d : ascii) (ls : stringstream)
    (token tok : string) (u : undefined) :
  join_quoted fuel d ls token tok = Undefined u ->
  u = StringIndexPastEnd EmptyString (modulus - 1).
Proof.
  revert ls token tok. induction fuel as [|fuel IH]; intros ls token tok; simpl.
  - destruct (not_closed token) as [[|]|] eqn:Hn; try discriminate.
    apply not_closed_undefined in Hn. subst token.
    intros [= <-]. reflexivity.
  - destruct (not_closed token) as [[|]|] eqn:Hn; try discriminate.
    + destruct (getline ls token d) as [ls' token']. apply IH.
    + apply not_closed_undefined in Hn. subst token.
      intros [= <-]. reflexivity.
Qed.

Lemma next_token_undefined (fuel : nat) (d : ascii) (ls : stringstream)
    (token : string) (u : undefined) :
  next_token fuel d ls token = Undefined u ->
  u = StringIndexPastEnd EmptyString (modulus - 1).
Proof.
  unfold next_token. destruct (getline ls token d) as [ls1 token1].
  destruct (opens_quote_defined (trim token1)) as [_ [b Hb]]. rewrite Hb.
  destruct b; [apply join_quoted_undefined_empty|discriminate].
Qed.

Lemma only_undefined_bind {A B : Type} (P : undefined -> Prop) (m : prog A)
    (k : A -> prog B) :
  only_undefined P m -> (forall a, only_undefined P (k a)) ->
  only_undefined P (bind m k).
Proof.
  intros Hm Hk w u. unfold bind. specialize (Hm w).
  destruct (m w) as [[a|e|u'|] w']; simpl in *; try discriminate.
  - apply Hk.
  - intros [= <-]. apply Hm. reflexivity.
Qed.

Lemma only_undefined_token_loop {S : Type} (this : LoadCSV) (fuel n : nat)
    (d : ascii) (body : string -> S -> prog S) :
  (forall t s, only_undefined (load_undefined this) (body t s)) ->
  forall ls token s,
    only_undefined (load_undefined this) (token_loop fuel n d body ls token s).
Proof.
  intro Hbody. induction n as [|n IH]; intros ls token s w u; simpl.
  - destruct (good ls); discriminate.
  - destruct (good ls); [|discriminate].
    destruct (next_token fuel d ls token) as [[ls' token']|e|u'|] eqn:Hnext;
      try discriminate.
    + apply (only_undefined_bind (load_undefined this) (body token' s)
               (fun s' => token_loop fuel n d body ls' token' s')).
      * apply Hbody.
      * intro s'. apply IH.
    + simpl. intros [= <-]. apply next_token_undefined in Hnext. subst u'.
      split; reflexivity.
Qed.

Lemma only_undefined_ret {A : Type} (P : undefined -> Prop) (a : A) :
  only_undefined P (ret a).
Proof. intros w u. discriminate. Qed.

Lemma only_undefined_reset_info (P : undefined -> Prop) (rows : Z) :
  only_undefined P (reset_info rows).
Proof.
  intros w u. unfold reset_info.
  destruct (Dimensionality (info w) =? 0); [discriminate|].
  destruct (negb (Dimensionality (info w) =? rows)); discriminate.
Qed.

Lemma only_undefined_store (this : LoadCSV) (token : string)
    (pos row col next : Z) :
  only_undefined (load_undefined this)
    (v <- map_string token pos ;; assign row col v ;;; ret next).
Proof.
  intros w u. unfold bind, map_string, assign, ret.
  destruct (MapString token pos (info w)) as [[v|] i']; simpl; [|discriminate].
  destruct ((row <? n_rows (inout w)) && (col <? n_cols (inout w)))%bool; simpl;
    [discriminate|].
  destruct check_bounds eqn:Hcb; simpl; [discriminate|].
  destruct ((0 <=? row + col * n_rows (inout w))
            && (row + col * n_rows (inout w)
                <? wrap (n_rows (inout w) * n_cols (inout w))))%bool;
    [discriminate|].
  intros [= <-]. exact Hcb.
Qed.

Lemma only_undefined_discovery (this : LoadCSV) (fuel : nat) (d : ascii)
    (file : list string) :
  only_undefined (load_undefined this) (GetMatrixSize fuel d file) /\
  only_undefined (load_undefined this) (GetTransposeMatrixSize fuel d file).
Proof.
  split.
  - assert (forall unread rows cols,
               only_undefined (load_undefined this)
                 (GetMatrixSize_scan fuel d file unread rows cols)) as Hscan.
    { induction unread as [|l unread IH]; intros rows cols; simpl.
      - apply only_undefined_ret.
      - destruct NeedsFirstPass; [|apply IH].
        destruct (size (trim l) =? 0); [apply only_undefined_ret|].
        apply only_undefined_bind; [|intros _; apply IH].
        apply only_undefined_token_loop. intros t s w u. discriminate. }
    unfold GetMatrixSize.
    apply only_undefined_bind; [apply only_undefined_reset_info|intros _].
    apply only_undefined_bind; [apply only_undefined_reset_info|intros _].
    apply Hscan.
  - assert (forall unread rows cols,
               only_undefined (load_undefined this)
                 (GetTransposeMatrixSize_scan fuel d file unread rows cols)) as Hscan.
    { induction unread as [|l unread IH]; intros rows cols; simpl.
      - apply only_undefined_ret.
      - apply only_undefined_bind.
        + destruct (incr cols =? 1); [|apply only_undefined_ret].
          apply only_undefined_bind; [apply only_undefined_reset_info|intros _].
          apply only_undefined_ret.
        + intros rows1. destruct NeedsFirstPass; [|apply IH].
          destruct (size (trim l) =? 0); [apply only_undefined_ret|].
          apply only_undefined_bind; [|intros _; apply IH].
          apply only_undefined_token_loop. intros t s w u. discriminate. }
    apply Hscan.
Qed.

Lemma only_undefined_population (this : LoadCSV) (fuel : nat) (d : ascii)
    (width : Z) (unread : list string) (k : Z) :
  only_undefined (load_undefined this)
    (NonTransposeParse_fill fuel d width unread k) /\
  only_undefined (load_undefined this)
    (TransposeParse_fill fuel d width unread k).
Proof.
  split; revert k; induction unread as [|line unread IH]; intros k; simpl.
  - apply only_undefined_ret.
  - destruct (size (trim line) =? 0); [apply only_undefined_ret|].
    apply only_undefined_bind.
    + apply only_undefined_token_loop. intros t s. apply only_undefined_store.
    + intros col. destruct (negb (col =? width)); [|apply IH].
      intros w u. discriminate.
  - apply only_undefined_ret.
  - destruct (size (trim line) =? 0); [apply only_undefined_ret|].
    apply only_undefined_bind.
    + apply only_undefined_token_loop. intros t s. apply only_undefined_store.
    + intros row. destruct (negb (row =? width)); [|apply IH].
      intros w u. discriminate.
Qed.

(** X15.  Every undefined access that can end [Load] is accounted for.  A
    string is indexed past its end only at position [size() - 1] of an empty
    string, which is what the joining loop of a quoted field tests when a
    piece it reads is empty.  An element outside the matrix is written only
    when the bounds check is compiled out.  The member [delim] is read
    unassigned only when the constructor assigned none and the file has a
    line. *)
Theorem load_undefined_provenance (fuel : nat) (this : LoadCSV) (transpose : bool)
    (w : world T M) (u : undefined) :
  fst (Load fuel this transpose w) = Undefined u -> load_undefined this u.
Proof.
  unfold Load. destruct (inFile this) as [file|] eqn:Hfile; [|discriminate].
  assert (forall d,
             only_undefined (load_undefined this)
               (if transpose then TransposeParse fuel d file
                else NonTransposeParse fuel d file)) as Hrun.
  { intro d. destruct transpose.
    - unfold TransposeParse.
      apply only_undefined_bind;
        [apply (only_undefined_discovery this fuel d file)|intros dimen].
      apply only_undefined_bind; [intros w0 u0; discriminate|intros _].
      apply (only_undefined_population this fuel d (fst dimen) file 0).
    - unfold NonTransposeParse.
      apply only_undefined_bind;
        [apply (only_undefined_discovery this fuel d file)|intros dimen].
      apply only_undefined_bind; [intros w0 u0; discriminate|intros _].
      apply (only_undefined_population this fuel d (snd dimen) file 0). }
  destruct (delim this) as [d|] eqn:Hdelim.
  - intro H. exact (Hrun d w u H).
  - destruct file as [|l rest].
    + intro H. exact (Hrun nul w u H).
    + assert (load_undefined this DelimNotAssigned) as Hdone.
      { simpl. split; [exact Hdelim|]. exists l, rest. exact Hfile. }
      destruct transpose; [intros [= <-]; exact Hdone|].
      apply (only_undefined_bind _ _ _ (only_undefined_reset_info _ _)).
      intros _.
      apply (only_undefined_bind _ _ _ (only_undefined_reset_info _ _)).
      intros _ w0 u0 [= <-]. exact Hdone.
Qed.

Lemma NonTransposeParse_fill_short (fuel : nat) (d : ascii) (cols : Z)
    (pre : list string) (l : string) (post : list string) (i : nat)
    (w : world T M) :
  (forall t p m, fst (MapString t p m) <> None) ->
  Z.of_nat i + Z.of_nat (List.length (pre ++ l :: post)) < modulus ->
  n_cols (inout w) = cols -> cols < modulus ->
  Z.of_nat (i + List.length pre) < n_rows (inout w) ->
  first_empty pre = List.length pre ->
  rectangular fuel d cols pre ->
  size (trim l) <> 0 ->
  snd (line_tokens fuel d (trim l)) = Ok tt ->
  Z.of_nat (List.length (fst (line_tokens fuel d (trim l)))) < cols ->
  fst (NonTransposeParse_fill fuel d cols (pre ++ l :: post) (Z.of_nat i) w)
  = Throw (NonTransposeWrongDimensions
             (Z.of_nat (List.length (fst (line_tokens fuel d (trim l)))))
             (Z.of_nat (i + List.length pre)) cols).
Proof.
  intros Htotal Hi Hn Hc Hrows Hfull Hrect Hsize Hok Hshort.
  revert i w Hi Hn Hrows Hfull Hrect.
  induction pre as [|p pre IH]; intros i w Hi Hn Hrows Hfull Hrect;
    cbn [app NonTransposeParse_fill].
  - apply Z.eqb_neq in Hsize. rewrite Hsize.
    unfold line_tokens in Hok, Hshort. unfold bind at 1.
    cbn [List.length] in Hrows. rewrite Nat.add_0_r in Hrows.
    pose proof (NonTransposeParse_line_returns fuel fuel d (Z.of_nat i)
                  (str (trim l)) EmptyString O w Htotal Hok
                  Hrows ltac:(cbn [Nat.add]; lia) ltac:(lia)) as Hline.
    cbn [Nat.add] in Hline. change (Z.of_nat 0) with 0 in Hline.
    destruct (token_loop fuel fuel d _ (str (trim l)) EmptyString 0 w) as [o w1].
    cbn [fst] in Hline. subst o.
    replace (Z.of_nat (List.length (fst (tokens_of fuel fuel d (str (trim l))
                                           EmptyString))) =? cols)
      with false by (symmetry; apply Z.eqb_neq; lia).
    cbn [negb List.length]. rewrite Nat.add_0_r. reflexivity.
  - cbn [first_empty List.length] in Hfull.
    destruct (size (trim p) =? 0) eqn:Hp; [discriminate|].
    injection Hfull as Hfull.
    destruct (rectangular_tail fuel d cols p pre Hp Hrect) as [[Hpok Hpw] Hrest].
    unfold line_tokens in Hpok, Hpw. unfold bind at 1.
    cbn [app List.length] in Hi, Hrows.
    pose proof (NonTransposeParse_line_returns fuel fuel d (Z.of_nat i)
                  (str (trim p)) EmptyString O w Htotal Hpok
                  ltac:(lia) ltac:(cbn [Nat.add]; lia) ltac:(lia)) as Hline.
    cbn [Nat.add] in Hline. rewrite Hpw in Hline.
    change (Z.of_nat 0) with 0 in Hline.
    destruct (store_loop_sizes fuel fuel d
                (fun token col =>
                   v <- map_string token (Z.of_nat i) ;;
                   assign (Z.of_nat i) col v ;;; ret (incr col))
                (str (trim p)) EmptyString 0 w) as [Hnr Hnc].
    { intros t k. exists (Z.of_nat i), (Z.of_nat i), k, (incr k). reflexivity. }
    destruct (token_loop fuel fuel d _ (str (trim p)) EmptyString 0 w) as [o w1].
    cbn [fst snd] in Hline, Hnr, Hnc. subst o.
    rewrite Z.eqb_refl. cbn [negb].
    rewrite incr_small by lia.
    replace (Z.of_nat i + 1) with (Z.of_nat (S i)) by lia.
    replace (i + List.length (p :: pre))%nat with (S i + List.length pre)%nat
      by (cbn [List.length]; lia).
    apply (IH (S i)); [lia|congruence|lia|exact Hfull|exact Hrest].
Qed.

Lemma TransposeParse_fill_short (fuel : nat) (d : ascii) (rows : Z)
    (pre : list string) (l : string) (post : list string) (i : nat)
    (w : world T M) :
  (forall t p m, fst (MapString t p m) <> None) ->
  Z.of_nat i + Z.of_nat (List.length (pre ++ l :: post)) < modulus ->
  n_rows (inout w) = rows -> rows < modulus ->
  Z.of_nat (i + List.length pre) < n_cols (inout w) ->
  first_empty pre = List.length pre ->
  rectangular fuel d rows pre ->
  size (trim l) <> 0 ->
  snd (line_tokens fuel d (trim l)) = Ok tt ->
  Z.of_nat (List.length (fst (line_tokens fuel d (trim l)))) < rows ->
  fst (TransposeParse_fill fuel d rows (pre ++ l :: post) (Z.of_nat i) w)
  = Throw (TransposeWrongDimensions
             (Z.of_nat (List.length (fst (line_tokens fuel d (trim l)))))
             (Z.of_nat (i + List.length pre)) rows).
Proof.
  intros Htotal Hi Hn Hc Hcols Hfull Hrect Hsize Hok Hshort.
  revert i w Hi Hn Hcols Hfull Hrect.
  induction pre as [|p pre IH]; intros i w Hi Hn Hcols Hfull Hrect;
    cbn [app TransposeParse_fill].
  - apply Z.eqb_neq in Hsize. rewrite Hsize.
    unfold line_tokens in Hok, Hshort. unfold bind at 1.
    cbn [List.length] in Hcols. rewrite Nat.add_0_r in Hcols.
    pose proof (TransposeParse_line_returns fuel fuel d (Z.of_nat i)
                  (str (trim l)) EmptyString O w Htotal Hok
                  Hcols ltac:(cbn [Nat.add]; lia) ltac:(lia)) as Hline.
    cbn [Nat.add] in Hline. change (Z.of_nat 0) with 0 in Hline.
    destruct (token_loop fuel fuel d _ (str (trim l)) EmptyString 0 w) as [o w1].
    cbn [fst] in Hline. subst o.
    replace (Z.of_nat (List.length (fst (tokens_of fuel fuel d (str (trim l))
                                           EmptyString))) =? rows)
      with false by (symmetry; apply Z.eqb_neq; lia).
    cbn [negb List.length]. rewrite Nat.add_0_r. reflexivity.
  - cbn [first_empty List.length] in Hfull.
    destruct (size (trim p) =? 0) eqn:Hp; [discriminate|].
    injection Hfull as Hfull.
    destruct (rectangular_tail fuel d rows p pre Hp Hrect) as [[Hpok Hpw] Hrest].
    unfold line_tokens in Hpok, Hpw. unfold bind at 1.
    cbn [app List.length] in Hi, Hcols.
    pose proof (TransposeParse_line_returns fuel fuel d (Z.of_nat i)
                  (str (trim p)) EmptyString O w Htotal Hpok
                  ltac:(lia) ltac:(cbn [Nat.add]; lia) ltac:(lia)) as Hline.
    cbn [Nat.add] in Hline. rewrite Hpw in Hline.
    change (Z.of_nat 0) with 0 in Hline.
    destruct (store_loop_sizes fuel fuel d
                (fun token row =>
                   v <- map_string token row ;;
                   assign row (Z.of_nat i) v ;;; ret (incr row))
                (str (trim p)) EmptyString 0 w) as [Hnr Hnc].
    { intros t k. exists k, k, (Z.of_nat i), (incr k). reflexivity. }
    destruct (token_loop fuel fuel d _ (str (trim p)) EmptyString 0 w) as [o w1].
    cbn [fst snd] in Hline, Hnr, Hnc. subst o.
    rewrite Z.eqb_refl. cbn [negb].
    rewrite incr_small by lia.
    replace (Z.of_nat i + 1) with (Z.of_nat (S i)) by lia.
    replace (i + List.length (p :: pre))%nat with (S i + List.length pre)%nat
      by (cbn [List.length]; lia).
    apply (IH (S i)); [lia|congruence|lia|exact Hfull|exact Hrest].
Qed.

Lemma first_empty_app (pre : list string) (l : string) (post : list string) :
  first_empty pre = List.length pre -> size (trim l) <> 0 ->
  (List.length pre < first_empty (pre ++ l :: post))%nat.
Proof.
  intros Hfull Hsize. induction pre as [|p pre IH]; cbn [app first_empty].
  - apply Z.eqb_neq in Hsize. rewrite Hsize. simpl. lia.
  - cbn [first_empty List.length] in Hfull |- *.
    destruct (size (trim p) =? 0); [discriminate|].
    injection Hfull as Hfull. specialize (IH Hfull). lia.
Qed.

(** X16.  The first line with too few fields is reported with its index.
    Take a non-transposed load whose discovery returns [rows] and [cols], a
    mapper that rejects no token, and a file in which the lines before line
    [l] are not empty and have [cols] tokens each, while [l] is not empty
    and has fewer.  Then the load ends with the wrong-dimension error, which
    names the number of tokens of [l], the index of [l] counted from zero,
    and [cols]. *)
Theorem short_line_is_reported (fuel : nat) (d : ascii)
    (pre : list string) (l : string) (post : list string)
    (w w1 : world T M) (rows cols : Z) :
  GetMatrixSize fuel d (pre ++ l :: post) w = (Ok (rows, cols), w1) ->
  (forall t p m, fst (MapString t p m) <> None) ->
  Z.of_nat (List.length (pre ++ l :: post)) < modulus ->
  cols < modulus ->
  first_empty pre = List.length pre ->
  rectangular fuel d cols pre ->
  size (trim l) <> 0 ->
  snd (line_tokens fuel d (trim l)) = Ok tt ->
  Z.of_nat (List.length (fst (line_tokens fuel d (trim l)))) < cols ->
  fst (NonTransposeParse fuel d (pre ++ l :: post) w)
  = Throw (NonTransposeWrongDimensions
             (Z.of_nat (List.length (fst (line_tokens fuel d (trim l)))))
             (Z.of_nat (List.length pre)) cols).
Proof.
  intros Hdisc Htotal Hlen Hwidth Hfull Hrect Hsize Hok Hshort.
  pose proof (first_empty_app pre l post Hfull Hsize) as Hfe.
  pose proof (first_empty_le_scanned (pre ++ l :: post)) as Hscanned.
  destruct (GetMatrixSize_sizes fuel d _ w w1 rows cols Hlen Hdisc) as [Hrows _].
  unfold NonTransposeParse, bind at 1. rewrite Hdisc.
  unfold bind at 1, set_size. cbn [fst snd].
  change 0 with (Z.of_nat O) at 1.
  rewrite NonTransposeParse_fill_short;
    [reflexivity|exact Htotal|simpl Z.of_nat at 1; lia|reflexivity|exact Hwidth
    |simpl; lia|exact Hfull|exact Hrect|exact Hsize|exact Hok|exact Hshort].
Qed.

(** X17.  The same for a transposed load: the lines before [l] have [rows]
    tokens each, [l] has fewer, and the wrong-dimension error of the
    transposed load names the number of tokens of [l], the index of [l]
    counted from zero, and [rows]. *)
Theorem transposed_short_line_is_reported (fuel : nat) (d : ascii)
    (pre : list string) (l : string) (post : list string)
    (w w1 : world T M) (rows cols : Z) :
  GetTransposeMatrixSize fuel d (pre ++ l :: post) w = (Ok (rows, cols), w1) ->
  (forall t p m, fst (MapString t p m) <> None) ->
  Z.of_nat (List.length (pre ++ l :: post)) < modulus ->
  rows < modulus ->
  first_empty pre = List.length pre ->
  rectangular fuel d rows pre ->
  size (trim l) <> 0 ->
  snd (line_tokens fuel d (trim l)) = Ok tt ->
  Z.of_nat (List.length (fst (line_tokens fuel d (trim l)))) < rows ->
  fst (TransposeParse fuel d (pre ++ l :: post) w)
  = Throw (TransposeWrongDimensions
             (Z.of_nat (List.length (fst (line_tokens fuel d (trim l)))))
             (Z.of_nat (List.length pre)) rows).
Proof.
  intros Hdisc Htotal Hlen Hwidth Hfull Hrect Hsize Hok Hshort.
  pose proof (first_empty_app pre l post Hfull Hsize) as Hfe.
  pose proof (first_empty_le_scanned (pre ++ l :: post)) as Hscanned.
  destruct (GetTransposeMatrixSize_sizes fuel d _ w w1 rows cols Hlen Hdisc)
    as [Hcols _].
  unfold TransposeParse, bind at 1. rewrite Hdisc.
  unfold bind at 1, set_size. cbn [fst snd].
  change 0 with (Z.of_nat O) at 1.
  rewrite TransposeParse_fill_short;
    [reflexivity|exact Htotal|simpl Z.of_nat at 1; lia|reflexivity|exact Hwidth
    |simpl; lia|exact Hfull|exact Hrect|exact Hsize|exact Hok|exact Hshort].
Qed.

End Loader.

(** ** The model on concrete files *)

Lemma categorical_lawful : @lawful_mapper Z dictionary categorical.
Proof.
  split.
  - intros d m. reflexivity.
  - intros t p m. simpl. unfold learn.
    destruct (code_of t (seen m) 0); reflexivity.
Qed.

(** The lines of a file are those between its line feeds; a final line
    feed ends the last line and starts no other. *)
Example file_lines_two :
  file_lines ("1,2" ++ String newline ("3,4,5" ++ String newline EmptyString))
  = ["1,2"; "3,4,5"]%string.
Proof. reflexivity. Qed.

Example file_lines_final_empty :
  file_lines ("1" ++ String newline (String newline (String newline EmptyString)))
  = ["1"; EmptyString; EmptyString]%string.
Proof. reflexivity. Qed.

(** *** Unterminated quotes *)

Lemma next_token_open (n : nat) (token : string) :
  next_token trim_ws (S n) comma (str (String dquote "a,b")) token = OutOfFuel.
Proof.
  unfold next_token.
  change (getline (str (String dquote "a,b")) token comma)
    with ({| buf := "b"; eofbit := false; failbit := false |}, String dquote "a").
  cbv beta iota.
  change (trim_ws (String dquote "a")) with (String dquote "a").
  change (snd (opens_quote (String dquote "a"))) with (Some true).
  cbv iota. cbn [join_quoted].
  change (not_closed (String dquote "a")) with (Some true). cbv iota.
  change (getline {| buf := "b"; eofbit := false; failbit := false |}
                  (String dquote "a") comma)
    with ({| buf := EmptyString; eofbit := true; failbit := false |}, "b"%string).
  cbv beta iota.
  apply join_quoted_exhausted; reflexivity.
Qed.

Lemma next_token_cut (n : nat) (token : string) :
  next_token trim_ws (S n) comma (str (String dquote "a,")) token
  = Undefined (StringIndexPastEnd EmptyString (modulus - 1)).
Proof.
  unfold next_token.
  change (getline (str (String dquote "a,")) token comma)
    with ({| buf := EmptyString; eofbit := false; failbit := false |}, String dquote "a").
  cbv beta iota.
  change (trim_ws (String dquote "a")) with (String dquote "a").
  change (snd (opens_quote (String dquote "a"))) with (Some true).
  cbv iota. cbn [join_quoted].
  change (not_closed (String dquote "a")) with (Some true). cbv iota.
  change (getline {| buf := EmptyString; eofbit := false; failbit := false |}
                  (String dquote "a") comma)
    with ({| buf := EmptyString; eofbit := true; failbit := true |}, EmptyString).
  cbv beta iota.
  destruct n; reflexivity.
Qed.

(** C1.  The code at a line whose quoted field is never closed.  On the
    line made of a quote and [a,b] the joining loop never ends: whatever
    the iteration budget, population in both orientations and discovery
    with a first pass in both orientations exhaust it.  On the line made of
    a quote and [a,] the joining loop indexes the empty string at
    [size() - 1], which is [2^64 - 1].  No run ends with an exception, and
    [exception] has no constructor for an unterminated quoted field. *)
Theorem unterminated_quote_never_reported (fuel : nat) (cb : bool) :
  let open_line := String dquote "a,b" in
  let cut_line := String dquote "a," in
  fst (NonTransposeParse (policy := lengths) trim_ws first_line_size residue cb
         fuel comma [open_line] (start 0)) = OutOfFuel /\
  fst (TransposeParse (policy := lengths) trim_ws first_line_size residue cb
         fuel comma [open_line] (start 0)) = OutOfFuel /\
  fst (GetMatrixSize (policy := categorical) trim_ws first_line_size
         fuel comma [open_line] (start (mkDict 0 []))) = OutOfFuel /\
  fst (GetTransposeMatrixSize (policy := categorical) trim_ws first_line_size
         fuel comma [open_line] (start (mkDict 0 []))) = OutOfFuel /\
  fst (NonTransposeParse (policy := lengths) trim_ws first_line_size residue cb
         (S fuel) comma [cut_line] (start 0))
  = Undefined (StringIndexPastEnd EmptyString (modulus - 1)).
Proof.
  repeat split.
  1-4: destruct fuel as [|n]; [reflexivity|].
  1-4: unfold NonTransposeParse, TransposeParse, GetMatrixSize,
         GetTransposeMatrixSize, bind; simpl.
  1-4: change (trim_ws (String dquote "a,b")) with (String dquote "a,b").
  1-4: rewrite next_token_open; reflexivity.
  unfold NonTransposeParse, bind; simpl.
  change (trim_ws (String dquote "a,")) with (String dquote "a,").
  rewrite next_token_cut. reflexivity.
Qed.

(** *** The quote test without a length test *)

(** C2 as stated fails: on the token of length zero the test does read
    position [0]. *)
Lemma quote_test_reads_empty_token :
  ~ (forall token, size token = 0 -> ~ In 0 (fst (opens_quote token))).
Proof.
  intro H. apply (H EmptyString); [reflexivity|]. left. reflexivity.
Qed.

Lemma empty_field_quote_test_witness :
  size (trim_ws (snd (getline (str ",b") EmptyString comma))) = 0 /\
  fst (opens_quote (trim_ws (snd (getline (str ",b") EmptyString comma)))) = [0] /\
  next_token trim_ws 4 comma (str ",b") EmptyString
  = Ok (fst (getline (str ",b") EmptyString comma),
        trim_ws (snd (getline (str ",b") EmptyString comma))).
Proof.
  split; [reflexivity|].
  pose proof (empty_field_quote_test trim_ws 4 comma (str ",b") EmptyString
                ltac:(reflexivity)) as H.
  split; [exact (proj1 H)|exact (proj1 (proj2 (proj2 (proj2 H))))].
Defined.

(** *** The delimiter *)

(** C3 as stated fails: a file named data.dat gets none of the three
    delimiters. *)
Lemma other_extension_no_delimiter :
  exists this,
    LoadCSV_new Extension_of (fun _ => Some ["1 2"%string]) "data.dat" = Ok this /\
    delim this <> Some space /\ delim this <> Some comma /\ delim this <> Some tab.
Proof.
  eexists. split; [reflexivity|]. simpl. repeat split; discriminate.
Qed.

Lemma constructor_delimiter_witness :
  LoadCSV_new Extension_of (fun _ => Some ["1,2"%string]) "iris.csv"
  = Ok {| delim := Some comma; extension := "csv"; filename := "iris.csv";
          inFile := Some ["1,2"%string] |} /\
  delim {| delim := Some comma; extension := "csv"; filename := "iris.csv";
           inFile := Some ["1,2"%string] |} = Some comma.
Proof.
  split; [reflexivity|].
  apply (constructor_delimiter Extension_of (fun _ => Some ["1,2"%string])
           "iris.csv" _ eq_refl).
  reflexivity.
Defined.

(** *** The comparison of the dimensionality *)

(** The example of the spec: four lines against a mapper set to five. *)
Example four_lines_against_five (fuel : nat) (cb : bool) :
  NonTransposeParse (policy := lengths) trim_ws first_line_size residue cb
    fuel comma ["1,2"; "3,4"; "5,6"; "7,8"]%string (start 5)
  = (Throw (DimensionalityMismatch 5 4), start 5).
Proof. reflexivity. Qed.

(** C4.  The code at a transposed load of a file without lines into a
    mapper whose dimensionality is 5: the load returns normally, the
    mapper keeps 5 and the matrix gets no row, although the discovered
    length, 0, differs from 5.  The non-transposed load of the same file
    into the same mapper throws the mismatch of 5 and 0. *)
Theorem transposed_empty_file_not_compared (fuel : nat) (cb : bool) :
  let this := {| delim := Some comma; extension := "csv"; filename := "empty.csv";
                 inFile := Some [] |} in
  let transposed :=
    Load (policy := lengths) trim_ws first_line_size residue cb fuel this true (start 5) in
  let plain :=
    Load (policy := lengths) trim_ws first_line_size residue cb fuel this false (start 5) in
  fst transposed = Ok tt /\
  Dimensionality (info (snd transposed)) = 5 /\
  n_rows (inout (snd transposed)) = 0 /\
  fst plain = Throw (DimensionalityMismatch 5 0).
Proof. repeat split. Qed.

(** *** A line with too many fields *)

(** The example of the spec: a second line with one field less than the
    first is reported with line index 1. *)
Example short_second_line (k : nat) (cb : bool) :
  fst (NonTransposeParse (policy := lengths) trim_ws first_line_size residue cb
         (2 + k) comma ["1,2"; "3"]%string (start 0))
  = Throw (NonTransposeWrongDimensions 1 1 2).
Proof. destruct k; reflexivity. Qed.

(** C5.  The code at a file whose second line has one field more than the
    first.  The third token of that line is assigned outside the matrix
    before the count of the line is compared: the load ends in the bounds
    check of the element access, or in an unchecked access outside the
    matrix when the check is compiled out, and in neither orientation with
    the wrong-dimension exception. *)
Theorem excess_field_not_reported (k : nat) (cb : bool) :
  let file := ["1,2"; "3,4,5"]%string in
  fst (NonTransposeParse (policy := lengths) trim_ws first_line_size residue cb
         (3 + k) comma file (start 0))
  = (if cb then Throw (IndexOutOfBounds 1 2)
     else Undefined (UncheckedWriteOutside 1 2)) /\
  fst (TransposeParse (policy := lengths) trim_ws first_line_size residue cb
         (3 + k) comma file (start 0))
  = (if cb then Throw (IndexOutOfBounds 2 1)
     else Undefined (UncheckedWriteOutside 2 1)).
Proof. destruct k, cb; split; reflexivity. Qed.

(** Without the bounds check a store past the last row of a column that
    is not the last one stays inside the allocation: the element goes to
    the top of the next column.  The third token of the second line of
    [1,2], [33,4,555], [6,7], loaded transposed, lands in column 2, and the
    line is then reported with a count of 3 where 2 is expected. *)
Example unchecked_store_reaches_next_column (k : nat) :
  let r := TransposeParse (policy := lengths) trim_ws first_line_size residue
             false (3 + k) comma ["1,2"; "33,4,555"; "6,7"]%string (start 0) in
  fst r = Throw (TransposeWrongDimensions 3 1 2) /\
  elem (inout (snd r)) 0 2 = 3 /\ elem (inout (snd r)) 1 2 = -1.
Proof. destruct k; repeat split. Qed.

(** *** What non-transposed discovery guarantees *)

(** C6.  The file of the three lines [a,b], an empty line and [c,a], with
    the comma as delimiter, whatever the helper reports and with any fuel
    from 2.  With a policy that needs a first pass, discovery returns; it
    has set the dimensionality of the mapper to 3, the number of lines
    counted by the first loop (lines 170-187), and it returns 2 rows, the
    second loop having left at the empty line (lines 229-232): the
    dimensionality of the mapper is not the number of rows returned, and
    the tokens of the third line have not been shown to the mapper.  With a
    policy that needs no first pass the same file gives 3 rows and the
    dimensionality 3.  In both runs the number of columns is the one the
    helper returned when the first line had been read (line 215). *)
Theorem first_pass_rows_short_of_dimensionality
    (helper : list string -> list string -> ascii -> Z * Z) (k : nat) :
  let file := ["a,b"; EmptyString; "c,a"]%string in
  let cols := snd (helper file [EmptyString; "c,a"]%string comma) in
  let with_pass :=
    GetMatrixSize (policy := categorical) trim_ws helper (2 + k) comma file
      (start (mkDict 0 [])) in
  let without_pass :=
    GetMatrixSize (policy := lengths) trim_ws helper (2 + k) comma file
      (start 0) in
  (fst with_pass = Ok (2, cols) /\
   Dimensionality (info (snd with_pass)) = 3 /\
   events (snd with_pass) = [FirstPassCall "a" 0; FirstPassCall "b" 0]) /\
  (fst without_pass = Ok (3, cols) /\
   Dimensionality (info (snd without_pass)) = 3).
Proof. destruct k; repeat split. Qed.

(** *** A quoted field that holds the delimiter *)

(** C7.  The line made of the quoted text [1,2], a comma and [3], read
    with the comma as delimiter, gives two tokens: the text [1,2] with its
    two quote characters kept, and [3].  Both orientations of population
    hand exactly these two tokens to [MapString]. *)
Theorem quoted_pair_is_one_token (k : nat) (cb : bool) :
  let line := (quoted "1,2" ++ ",3")%string in
  line_tokens trim_ws (2 + k) comma line = ([quoted "1,2"; "3"%string], Ok tt) /\
  events (snd (NonTransposeParse (policy := lengths) trim_ws first_line_size
                 residue cb (2 + k) comma [line] (start 0)))
  = [SetSize 1 2; MapStringCall (quoted "1,2") 0; Assign 0 0;
     MapStringCall "3" 0; Assign 0 1] /\
  events (snd (TransposeParse (policy := lengths) trim_ws first_line_size
                 residue cb (2 + k) comma [line] (start 0)))
  = [SetSize 2 1; MapStringCall (quoted "1,2") 0; Assign 0 0;
     MapStringCall "3" 1; Assign 1 0].
Proof. destruct k; repeat split. Qed.

(** *** Witnesses of the statements on whole loads *)

Lemma first_pass_positions_witness :
  exists groups,
    Forall2 (fun line ts => ts = fst (line_tokens trim_ws 8 comma (trim_ws line)))
            (firstn (List.length groups) ["a,b"; "b,c"]%string) groups /\
    events (snd (GetMatrixSize (policy := categorical) trim_ws first_line_size
                   8 comma ["a,b"; "b,c"]%string (start (mkDict 0 []))))
    = events (start (mkDict 0 []))
      ++ calls_of_lines (fun i _ => wrap (Z.of_nat i)) O groups.
Proof.
  exact (proj1 (first_pass_positions (policy := categorical) trim_ws first_line_size
                  8 comma ["a,b"; "b,c"]%string (start (mkDict 0 [])) eq_refl)).
Defined.

Lemma load_mismatch_witness :
  let this := {| delim := Some comma; extension := "csv"; filename := "four.csv";
                 inFile := Some ["1,2"; "3,4"; "5,6"; "7,8"]%string |} in
  fst (Load (policy := lengths) trim_ws first_line_size residue true 8 this false (start 5))
  = Throw (DimensionalityMismatch 5 4) /\
  inout (snd (Load (policy := lengths) trim_ws first_line_size residue true 8
                this false (start 5))) = no_matrix.
Proof.
  intro this. split; [reflexivity|].
  exact (proj1 (load_mismatch_leaves_matrix (policy := lengths) trim_ws
                  first_line_size residue true 8 this false (start 5) 5 4 eq_refl)).
Defined.

(** *** The rows behind the first empty line *)

(** C10 as stated fails: a file that ends in two empty lines is counted as
    three rows, population assigns to one row only, and two rows, not one,
    stay as allocated. *)
Lemma two_rows_left_as_allocated :
  let r := NonTransposeParse (policy := lengths) trim_ws first_line_size residue
             true 8 comma ["1"; EmptyString; EmptyString]%string (start 0) in
  fst r = Ok tt /\
  n_rows (inout (snd r)) = 3 /\
  rows_written (events (snd r)) = 1 /\
  n_rows (inout (snd r)) <> rows_written (events (snd r)) + 1.
Proof. repeat split. discriminate. Qed.

Lemma last_row_left_as_allocated_witness :
  size (trim_ws EmptyString) = 0 /\
  n_rows (inout (snd (NonTransposeParse (policy := lengths) trim_ws first_line_size
                        residue true 8 comma
                        (["1,2"; "3,4"] ++ [EmptyString])%list (start 0)))) = 3 /\
  forall row col, 2 <= row ->
    elem (inout (snd (NonTransposeParse (policy := lengths) trim_ws first_line_size
                        residue true 8 comma
                        (["1,2"; "3,4"] ++ [EmptyString])%list (start 0)))) row col
    = residue no_matrix 3 2 row col.
Proof.
  split; [reflexivity|].
  pose proof (last_row_left_as_allocated (policy := lengths) trim_ws first_line_size
                residue true 8 comma ["1,2"; "3,4"]%string EmptyString
                (start 0) (mkWorld no_matrix 3 []) 3 2 eq_refl eq_refl eq_refl) as H.
  split; [exact (proj1 (proj2 (proj2 H)))|].
  exact (proj2 (proj2 (proj2 (proj2 (proj2 H))))).
Defined.

(** *** Instances of the further statements *)



Lemma lengths_lawful : @lawful_mapper Z Z lengths.
Proof. split; reflexivity. Qed.

Lemma lengths_accepts (t : string) (p : Z) (m : Z) :
  fst (MapString (MapPolicy := lengths) t p m) <> None.
Proof. discriminate. Qed.

Lemma plain_line_tokens_witness :
  line_tokens trim_ws 8 comma "a,,b,"
  = (["a"; EmptyString; "b"; EmptyString]%string, Ok tt) /\
  List.length (fst (line_tokens trim_ws 8 comma "a,,b,")) = 4%nat.
Proof.
  exact (plain_line_tokens trim_ws 8 comma "a,,b,"
           ltac:(repeat constructor) ltac:(repeat constructor)).
Defined.

Lemma quoted_field_verbatim_witness :
  next_token trim_ws 8 comma (str (quoted "a,b,c" ++ ",d")) EmptyString
  = Ok (mkStream "d" false false, quoted "a,b,c") /\
  exists (ps : list string) (last : string),
    Forall (fun p => occurrences comma p = O /\ not_closed p = Some true) ps /\
    occurrences comma last = O /\ not_closed last = Some false /\
    quoted "a,b,c"
    = (trim_ws (String dquote "a")
       ++ String comma (join_with comma (ps ++ [last])))%string /\
    (String "b" (String comma (String "c" (String dquote ",d")))
     = (join_with comma (ps ++ [last]) ++ String comma "d")%string).
Proof.
  split; [reflexivity|].
  destruct (quoted_field_verbatim trim_ws 8 comma (str (quoted "a,b,c" ++ ",d"))
              (mkStream "d" false false) EmptyString (quoted "a,b,c")
              eq_refl eq_refl)
    as [[H _]|[_ (rest & ps & last & H1 & Hps & Hl0 & Hl1 & H2
                  & [[H3 _]|[_ H3]])]].
  - discriminate H.
  - exists ps, last. injection H1 as <-.
    split; [exact Hps|]. split; [exact Hl0|]. split; [exact Hl1|].
    split; [exact H2|exact H3].
  - discriminate H3.
Defined.



Lemma orientations_discover_swapped_sizes_witness :
  fst (GetMatrixSize (policy := categorical) trim_ws first_line_size 8 comma
         ["a,b,c"; "c,d,e"]%string (start (mkDict 0 []))) = Ok (2, 3) /\
  fst (GetTransposeMatrixSize (policy := categorical) trim_ws first_line_size 5 comma
         ["a,b,c"; "c,d,e"]%string (start (mkDict 3 []))) = Ok (3, 2) /\
  match fst (GetMatrixSize (policy := categorical) trim_ws first_line_size 8 comma
               ["a,b,c"; "c,d,e"]%string (start (mkDict 0 []))),
        fst (GetTransposeMatrixSize (policy := categorical) trim_ws first_line_size
               5 comma ["a,b,c"; "c,d,e"]%string (start (mkDict 3 [])))
  with
  | Ok (rows, cols), Ok (rows', cols') => rows' = cols /\ cols' = rows
  | _, _ => False
  end.
Proof.
  split; [reflexivity|]. split; [reflexivity|].
  exact (orientations_discover_swapped_sizes (policy := categorical) trim_ws
           first_line_size 8 5 comma ["a,b,c"; "c,d,e"]%string
           (start (mkDict 0 []))
           (snd (GetMatrixSize (policy := categorical) trim_ws first_line_size 8
                   comma ["a,b,c"; "c,d,e"]%string (start (mkDict 0 []))))
           (start (mkDict 3 []))
           (snd (GetTransposeMatrixSize (policy := categorical) trim_ws
                   first_line_size 5 comma ["a,b,c"; "c,d,e"]%string
                   (start (mkDict 3 []))))
           2 3 3 2 eq_refl eq_refl eq_refl).
Defined.

Lemma load_reports_mismatch_witness :
  let this := {| delim := None; extension := "dat"; filename := "four.dat";
                 inFile := Some ["1,2"; "3,4"; "5,6"; "7,8"]%string |} in
  Load (policy := lengths) trim_ws first_line_size residue true 8 this false (start 5)
  = (Throw (DimensionalityMismatch 5 4), start 5).
Proof.
  intro this.
  exact (load_reports_mismatch (policy := lengths) trim_ws first_line_size residue
           true 8 this false comma "1,2" ["3,4"; "5,6"; "7,8"]%string (start 5)
           eq_refl (fun H : false = true => ltac:(discriminate H)) eq_refl
           ltac:(intro H; discriminate H) ltac:(intro H; discriminate H)).
Defined.

Lemma discovery_without_first_pass_witness :
  GetMatrixSize (policy := lengths) trim_ws first_line_size 0 comma
    ["1,2"; EmptyString; "3,4"]%string (start 0)
  = (Ok (3, 2), mkWorld no_matrix 3 []) /\
  3 = Z.of_nat (List.length ["1,2"; EmptyString; "3,4"]%string) /\
  GetTransposeMatrixSize (policy := lengths) trim_ws first_line_size 0 comma
    ["1,2"; EmptyString; "3,4"]%string (start 0)
  = (Ok (2, 3), mkWorld no_matrix 2 []) /\
  3 = Z.of_nat (List.length ["1,2"; EmptyString; "3,4"]%string).
Proof.
  pose proof (discovery_without_first_pass (policy := lengths) trim_ws
                first_line_size 0 comma ["1,2"; EmptyString; "3,4"]%string
                (start 0) eq_refl eq_refl) as [[_ H1] [_ H2]].
  split; [reflexivity|]. split; [exact (proj1 (H1 3 2 _ eq_refl))|].
  split; [reflexivity|]. exact (proj2 (H2 2 3 _ eq_refl)).
Defined.

Lemma out_of_bounds_is_excess_field_witness :
  fst (NonTransposeParse (policy := lengths) trim_ws first_line_size residue true 8
         comma ["1,2"; "3,4,5"]%string (start 0))
  = Throw (IndexOutOfBounds 1 2) /\
  exists (j : nat) (line : string),
    1 = Z.of_nat j /\ (j < first_empty trim_ws ["1,2"; "3,4,5"]%string)%nat /\
    nth_error ["1,2"; "3,4,5"]%string j = Some line /\
    2 < Z.of_nat (List.length (fst (line_tokens trim_ws 8 comma (trim_ws line)))).
Proof.
  split; [reflexivity|].
  exact (proj2 (out_of_bounds_is_excess_field (policy := lengths) trim_ws
                  first_line_size residue true 8 comma ["1,2"; "3,4,5"]%string
                  (start 0) (mkWorld no_matrix 2 []) 2 2 1 2
                  eq_refl ltac:(split; [intro H; discriminate H|reflexivity])
                  eq_refl eq_refl)).
Defined.

Lemma transposed_out_of_bounds_is_excess_field_witness :
  fst (TransposeParse (policy := lengths) trim_ws first_line_size residue true 8
         comma ["1,2"; "3,4,5"]%string (start 0))
  = Throw (IndexOutOfBounds 2 1) /\
  exists (j : nat) (line : string),
    1 = Z.of_nat j /\ (j < first_empty trim_ws ["1,2"; "3,4,5"]%string)%nat /\
    nth_error ["1,2"; "3,4,5"]%string j = Some line /\
    2 < Z.of_nat (List.length (fst (line_tokens trim_ws 8 comma (trim_ws line)))).
Proof.
  split; [reflexivity|].
  exact (proj2 (transposed_out_of_bounds_is_excess_field (policy := lengths) trim_ws
                  first_line_size residue true 8 comma ["1,2"; "3,4,5"]%string
                  (start 0) (mkWorld no_matrix 2 []) 2 2 2 1
                  eq_refl ltac:(split; [intro H; discriminate H|reflexivity])
                  eq_refl eq_refl)).
Defined.

Lemma columns_from_empty_line_left_as_allocated_witness :
  let run := TransposeParse (policy := lengths) trim_ws first_line_size residue
               true 8 comma ["1,2"; EmptyString; "3,4"]%string (start 0) in
  fst run = Ok tt /\
  n_cols (inout (snd run)) = 3 /\
  forall row col, 1 <= col ->
    elem (inout (snd run)) row col = residue no_matrix 2 3 row col.
Proof.
  intro run. split; [reflexivity|].
  pose proof (columns_from_empty_line_left_as_allocated (policy := lengths) trim_ws
                first_line_size residue true 8 comma
                ["1,2"; EmptyString; "3,4"]%string (start 0)
                (mkWorld no_matrix 2 []) 2 3 eq_refl eq_refl eq_refl) as H.
  split; [exact (proj1 (proj2 H))|].
  exact (proj2 (proj2 (proj2 (proj2 (proj2 H))))).
Defined.

Lemma rectangular_file_loads_witness :
  let this := {| delim := Some comma; extension := "csv"; filename := "six.csv";
                 inFile := Some ["1,2,3"; "4,5,6"]%string |} in
  fst (Load (policy := lengths) trim_ws first_line_size residue true 8 this true
         (start 0)) = Ok tt.
Proof.
  intro this.
  exact (rectangular_file_loads (policy := lengths) trim_ws first_line_size residue
           true 8 this true comma ["1,2,3"; "4,5,6"]%string (start 0)
           eq_refl eq_refl lengths_lawful lengths_accepts eq_refl eq_refl
           (or_introl eq_refl) ltac:(repeat constructor)).
Defined.

Lemma load_undefined_provenance_witness :
  let this := {| delim := None; extension := "dat"; filename := "one.dat";
                 inFile := Some ["1 2"]%string |} in
  fst (Load (policy := lengths) trim_ws first_line_size residue true 8 this true
         (start 0)) = Undefined DelimNotAssigned /\
  load_undefined true this DelimNotAssigned.
Proof.
  intro this. split; [reflexivity|].
  exact (load_undefined_provenance (policy := lengths) trim_ws first_line_size
           residue true 8 this true (start 0) DelimNotAssigned eq_refl).
Defined.


Lemma GetTransposeMatrixSize_dimensionality_witness :
  let r := GetTransposeMatrixSize (policy := categorical) trim_ws first_line_size
             8 comma ["a,b,c"; "c,d,e"]%string (start (mkDict 0 [])) in
  fst r = Ok (3, 2) /\
  3 = snd (first_line_size ["a,b,c"; "c,d,e"]%string ["c,d,e"]%string comma) /\
  Dimensionality (info (snd r)) = 3.
Proof.
  intro r. split; [reflexivity|].
  exact (GetTransposeMatrixSize_dimensionality (policy := categorical) trim_ws
           first_line_size 8 comma "a,b,c" ["c,d,e"]%string
           (start (mkDict 0 [])) (snd r) 3 2 categorical_lawful eq_refl eq_refl).
Defined.

Lemma short_line_is_reported_witness :
  fst (NonTransposeParse (policy := lengths) trim_ws first_line_size residue true 8
         comma (["1,2,3"; "4,5,6"] ++ "7,8" :: ["9,10,11"])%list (start 0))
  = Throw (NonTransposeWrongDimensions 2 2 3).
Proof.
  exact (short_line_is_reported (policy := lengths) trim_ws first_line_size residue
           true 8 comma ["1,2,3"; "4,5,6"]%string "7,8" ["9,10,11"]%string
           (start 0) (mkWorld no_matrix 4 []) 4 3
           eq_refl lengths_accepts eq_refl eq_refl eq_refl
           ltac:(repeat constructor) ltac:(intro H; discriminate H)
           eq_refl eq_refl).
Defined.

Lemma transposed_short_line_is_reported_witness :
  fst (TransposeParse (policy := lengths) trim_ws first_line_size residue true 8
         comma (["1,2,3"; "4,5,6"] ++ "7,8" :: ["9,10,11"])%list (start 0))
  = Throw (TransposeWrongDimensions 2 2 3).
Proof.
  exact (transposed_short_line_is_reported (policy := lengths) trim_ws
           first_line_size residue true 8 comma ["1,2,3"; "4,5,6"]%string "7,8"
           ["9,10,11"]%string (start 0) (mkWorld no_matrix 3 []) 3 4
           eq_refl lengths_accepts eq_refl eq_refl eq_refl
           ltac:(repeat constructor) ltac:(intro H; discriminate H)
           eq_refl eq_refl).
Defined.
